(** * Shard database operator (quarkchain/cluster/shard_db_operator.py)

    A shallow embedding of [TransactionHistoryMixin] and [ShardDbOperator]:
    byte strings and their big-endian integer reading, the ordered
    key-value store the operator sits on, the in-memory pools, and the
    operations on them, followed by the properties of the operator. *)

From Stdlib Require Import ZArith Lia List Strings.Byte Strings.String DecimalString
  DecimalPos DecimalZ.
From stdpp Require Import gmap list sorting.

Local Open Scope Z_scope.

(** ** Byte strings *)

Abbreviation bytes := (list byte).

Definition byte_val (b : byte) : Z := Z.of_N (Byte.to_N b).

Definition byte_of_Z (z : Z) : byte :=
  match Byte.of_N (Z.to_N z) with
  | Some b => b
  | None => x00
  end.

(** A bytes literal [b"..."]. *)
Definition blit (s : string) : bytes := list_byte_of_string s.

#[global] Instance byte_eq_dec : EqDecision byte := Byte.byte_eq_dec.

#[global] Instance byte_countable : Countable byte :=
  inj_countable Byte.to_N Byte.of_N Byte.of_to_N.

(** Python exceptions that the modelled code can raise.  [OutOfFuel] is not
    one of them: it marks a [while] loop cut off by the fuel of the model. *)
Inductive exn :=
| AssertionError
| OverflowError
| IndexError
| AttributeError
| DeserializeError
| RecursionError
| OutOfFuel.

Inductive result (A : Type) :=
| Ok (a : A)
| Raise (e : exn).
Arguments Ok {A} a.
Arguments Raise {A} e.

Definition rbind {A B} (m : result A) (f : A -> result B) : result B :=
  match m with
  | Ok a => f a
  | Raise e => Raise e
  end.

#[global] Instance result_bind : MBind result := fun A B f m => rbind m f.
#[global] Instance result_ret : MRet result := @Ok.

(** [int.from_bytes(bs, "big")]. *)
Definition from_bytes (bs : bytes) : Z :=
  fold_left (fun acc b => acc * 256 + byte_val b) bs 0.

(** The [n] low-order base-256 digits of [z], most significant first. *)
Fixpoint be_digits (n : nat) (z : Z) : bytes :=
  match n with
  | O => []
  | S n' => be_digits n' (z / 256) ++ [byte_of_Z (z mod 256)]
  end.

(** [z.to_bytes(n, "big")]: raises [OverflowError] on a negative [z] or on
    one that does not fit in [n] bytes. *)
Definition to_bytes (n : nat) (z : Z) : result bytes :=
  if (0 <=? z) && (z <? 256 ^ Z.of_nat n)
  then Ok (be_digits n z)
  else Raise OverflowError.

(** Python's [<], [<=] on [bytes]: lexicographic on unsigned byte values,
    a proper prefix sorting first. *)
Fixpoint bytes_compare (a b : bytes) : comparison :=
  match a, b with
  | [], [] => Eq
  | [], _ :: _ => Lt
  | _ :: _, [] => Gt
  | x :: a', y :: b' =>
      match byte_val x ?= byte_val y with
      | Eq => bytes_compare a' b'
      | c => c
      end
  end.

Definition bytes_ltb (a b : bytes) : bool :=
  match bytes_compare a b with Lt => true | _ => false end.

Definition bytes_leb (a b : bytes) : bool :=
  match bytes_compare a b with Gt => false | _ => true end.

(** [bs[i:j]] for [0 <= i <= j] and [bs[i:]]. *)
Definition slice (i j : nat) (bs : bytes) : bytes := take (j - i) (drop i bs).
Definition slice_from (i : nat) (bs : bytes) : bytes := drop i bs.

(** [b"%d" % z]. *)
Definition decimal (z : Z) : bytes :=
  list_byte_of_string (NilZero.string_of_int (Z.to_int z)).


(** Truthiness of an optional byte string: [None] and [b""] are falsy. *)
Definition truthy (o : option bytes) : option bytes :=
  match o with
  | Some (b :: bs) => Some (b :: bs)
  | _ => None
  end.

(** ** Data model (quarkchain.core, quarkchain.cluster.rpc)

    Only the fields the operator reads are kept. *)

Record Address := { recipient : bytes; full_shard_key : Z }.

Module MinorBlockHeader.
Record t := { height : Z; hash_prev_minor_block : bytes; create_time : Z }.
End MinorBlockHeader.

Module MinorBlockMeta.
Record t := { hash_evm_state_root : bytes }.
End MinorBlockMeta.

Module RootBlockHeader.
Record t := { height : Z; hash_prev_block : bytes }.
End RootBlockHeader.

Record EvmTx := {
  sender : bytes;
  from_full_shard_key : Z;
  to : bytes;
  to_full_shard_key : Z;
  value : Z;
  gas_token_id : Z;
  transfer_token_id : Z
}.

Record Transaction := { to_evm_tx : EvmTx }.

Module MinorBlock.
Record t := {
  header : MinorBlockHeader.t;
  meta : MinorBlockMeta.t;
  tx_list : list Transaction
}.
End MinorBlock.

Module RootBlock.
Record t := { header : RootBlockHeader.t; minor_block_header_list : list MinorBlockHeader.t }.
End RootBlock.

Module CrossShardTransactionDeposit.
Record t := {
  tx_hash : bytes;
  from_address : Address;
  to_address : Address;
  value : Z;
  gas_token_id : Z;
  transfer_token_id : Z
}.
End CrossShardTransactionDeposit.

Module TransactionDetail.
Record t := {
  tx_hash : bytes;
  from_address : Address;
  to_address : option Address;
  value : Z;
  block_height : Z;
  timestamp : Z;
  success : bool;
  gas_token_id : Z;
  transfer_token_id : Z
}.
End TransactionDetail.

Record Receipt := { receipt_success : bytes }.

(** The part of the configuration the operator reads:
    [env.cluster_config.ENABLE_TRANSACTION_HISTORY],
    [env.quark_chain_config.ROOT.max_root_blocks_in_memory],
    [shard_config.max_minor_blocks_in_memory] and
    [get_genesis_root_height(full_shard_id)] for this shard. *)
Record Env := {
  ENABLE_TRANSACTION_HISTORY : bool;
  max_root_blocks_in_memory : Z;
  max_minor_blocks_in_memory : Z;
  genesis_root_height : Z
}.

(** The collaborators from outside the file: hashing, the serialization
    codec (a failing [deserialize] is [None]), receipts, the branch test. *)
Class Collaborators := {
  Address_serialize : Address -> bytes;
  MinorBlockHeader_get_hash : MinorBlockHeader.t -> bytes;
  RootBlockHeader_get_hash : RootBlockHeader.t -> bytes;
  Transaction_get_hash : Transaction -> bytes;
  MinorBlock_serialize : MinorBlock.t -> bytes;
  MinorBlock_deserialize : bytes -> option MinorBlock.t;
  RootBlock_serialize : RootBlock.t -> bytes;
  RootBlock_deserialize : bytes -> option RootBlock.t;
  CrossShardTransactionList_serialize : list CrossShardTransactionDeposit.t -> bytes;
  CrossShardTransactionList_deserialize : bytes -> option (list CrossShardTransactionDeposit.t);
  MinorBlock_get_receipt : MinorBlock.t -> gmap bytes bytes -> Z -> result Receipt;
  is_in_branch : Z -> bool
}.

(** ** The key-value store *)

(** Modelled from the spec: the external Key-Value Store, an ordered
    byte-string store; [get(key)], with [None] for an absent key. *)
Definition db_get (d : gmap bytes bytes) (k : bytes) : option bytes := d !! k.

(** Modelled from the spec: the store's [put(key, value)]. *)
Definition db_put (d : gmap bytes bytes) (k v : bytes) : gmap bytes bytes := <[k:=v]> d.

(** Modelled from the spec: the store's [remove(key)]. *)
Definition db_remove (d : gmap bytes bytes) (k : bytes) : gmap bytes bytes := delete k d.

(** Modelled from the spec: the store's [contains(key)], [key in db]. *)
Definition db_contains (d : gmap bytes bytes) (k : bytes) : bool :=
  match d !! k with Some _ => true | None => false end.

Fixpoint insert_desc (kv : bytes * bytes) (l : list (bytes * bytes)) : list (bytes * bytes) :=
  match l with
  | [] => [kv]
  | kv' :: l' =>
      if bytes_ltb (fst kv') (fst kv) then kv :: kv' :: l' else kv' :: insert_desc kv l'
  end.

Definition sort_desc (l : list (bytes * bytes)) : list (bytes * bytes) :=
  foldr insert_desc [] l.

Definition in_range (start end_ : bytes) (kv : bytes * bytes) : bool :=
  bytes_ltb end_ (fst kv) && bytes_leb (fst kv) start.

(** Modelled from the spec: the store's reverse range iterator
    [reversed_range_iter(start, end)], the entries whose key lies in the
    range from [start] (included) down to [end] (excluded), by descending
    byte-lexicographic key. *)
Definition reversed_range_iter (d : gmap bytes bytes) (start end_ : bytes)
  : list (bytes * bytes) :=
  sort_desc (filter (fun kv => in_range start end_ kv) (map_to_list d)).

(** [x] comes before [y] in a scan: its key is the greater one. *)
Definition key_gt (x y : bytes * bytes) : Prop := bytes_ltb (fst y) (fst x) = true.

(** The order of the spec on the entries of the address history: by address
    bytes, then height, then flag (a cross-shard entry before a local one),
    then index. *)
Definition lex (c1 c2 : comparison) : comparison :=
  match c1 with
  | Eq => c2
  | c => c
  end.

Definition flag_compare (cross_shard1 cross_shard2 : bool) : comparison :=
  match cross_shard1, cross_shard2 with
  | true, false => Lt
  | false, true => Gt
  | _, _ => Eq
  end.

Definition history_entry_compare
    (a1 : bytes) (h1 : Z) (x1 : bool) (i1 : Z)
    (a2 : bytes) (h2 : Z) (x2 : bool) (i2 : Z) : comparison :=
  lex (bytes_compare a1 a2) (lex (h1 ?= h2) (lex (flag_compare x1 x2) (i1 ?= i2))).

(** ** The operator's state: [self.env], [self.db] and the in-memory pools *)

Record ShardDbOperator := {
  env : Env;
  db : gmap bytes bytes;
  m_header_pool : gmap bytes MinorBlockHeader.t;
  m_meta_pool : gmap bytes MinorBlockMeta.t;
  r_header_pool : gmap bytes RootBlockHeader.t;
  height_to_minor_block_hashes : gmap Z (gset bytes)
}.

(** [ShardDbOperator.__init__]. *)
Definition init (db0 : gmap bytes bytes) (env0 : Env) : ShardDbOperator :=
  {| env := env0; db := db0; m_header_pool := ∅; m_meta_pool := ∅;
     r_header_pool := ∅; height_to_minor_block_hashes := ∅ |}.

Definition with_db (self : ShardDbOperator) (d : gmap bytes bytes) :=
  {| env := env self; db := d; m_header_pool := m_header_pool self;
     m_meta_pool := m_meta_pool self; r_header_pool := r_header_pool self;
     height_to_minor_block_hashes := height_to_minor_block_hashes self |}.

Definition with_m_header_pool (self : ShardDbOperator) p :=
  {| env := env self; db := db self; m_header_pool := p;
     m_meta_pool := m_meta_pool self; r_header_pool := r_header_pool self;
     height_to_minor_block_hashes := height_to_minor_block_hashes self |}.

Definition with_m_meta_pool (self : ShardDbOperator) p :=
  {| env := env self; db := db self; m_header_pool := m_header_pool self;
     m_meta_pool := p; r_header_pool := r_header_pool self;
     height_to_minor_block_hashes := height_to_minor_block_hashes self |}.

Definition with_r_header_pool (self : ShardDbOperator) p :=
  {| env := env self; db := db self; m_header_pool := m_header_pool self;
     m_meta_pool := m_meta_pool self; r_header_pool := p;
     height_to_minor_block_hashes := height_to_minor_block_hashes self |}.

Definition with_height_to_minor_block_hashes (self : ShardDbOperator) m :=
  {| env := env self; db := db self; m_header_pool := m_header_pool self;
     m_meta_pool := m_meta_pool self; r_header_pool := r_header_pool self;
     height_to_minor_block_hashes := m |}.

(** [x] when it is there, the exception [e] on [None]. *)
Definition expect {A} (e : exn) (o : option A) : result A :=
  match o with
  | Some a => Ok a
  | None => Raise e
  end.

Section Operator.
Context `{Collaborators}.

(** *** TransactionHistoryMixin *)

Definition encode_address_transaction_key
    (address : Address) (height index : Z) (cross_shard : bool) : result bytes :=
  let cross_shard_byte := if cross_shard then [x00] else [x01] in
  let a := Address_serialize address in
  h ← to_bytes 4 height;
  i ← to_bytes 4 index;
  mret (blit "addr_" ++ a ++ h ++ cross_shard_byte ++ i).

Definition put_confirmed_cross_shard_transaction_deposit_list
    (self : ShardDbOperator) (minor_block_hash : bytes)
    (cross_shard_transaction_deposit_list : list CrossShardTransactionDeposit.t)
  : ShardDbOperator :=
  if negb (ENABLE_TRANSACTION_HISTORY (env self)) then self
  else
    with_db self
      (db_put (db self) (blit "xr_" ++ minor_block_hash)
         (CrossShardTransactionList_serialize cross_shard_transaction_deposit_list)).

Definition get_confirmed_cross_shard_transaction_deposit_list
    (self : ShardDbOperator) (minor_block_hash : bytes)
  : result (list CrossShardTransactionDeposit.t) :=
  match truthy (db_get (db self) (blit "xr_" ++ minor_block_hash)) with
  | None => Ok []
  | Some data => expect DeserializeError (CrossShardTransactionList_deserialize data)
  end.

(** [func] is one of the two lambdas the callers pass: a put or a remove
    on [self.db]. *)
Definition update_transaction_history_index
    (self : ShardDbOperator) (tx : Transaction) (block_height index : Z)
    (func : bytes -> bytes -> gmap bytes bytes -> gmap bytes bytes)
  : result ShardDbOperator :=
  let evm_tx := to_evm_tx tx in
  let addr := {| recipient := sender evm_tx; full_shard_key := from_full_shard_key evm_tx |} in
  key ← encode_address_transaction_key addr block_height index false;
  let self := with_db self (func key [] (db self)) in
  if match to evm_tx with [] => false | _ :: _ => is_in_branch (to_full_shard_key evm_tx) end
  then
    let addr := {| recipient := to evm_tx; full_shard_key := to_full_shard_key evm_tx |} in
    key ← encode_address_transaction_key addr block_height index false;
    mret (with_db self (func key [] (db self)))
  else mret self.

Definition put_transaction_history_index
    (self : ShardDbOperator) (tx : Transaction) (block_height index : Z)
  : result ShardDbOperator :=
  if negb (ENABLE_TRANSACTION_HISTORY (env self)) then Ok self
  else update_transaction_history_index self tx block_height index
         (fun k v d => db_put d k v).

Definition remove_transaction_history_index
    (self : ShardDbOperator) (tx : Transaction) (block_height index : Z)
  : result ShardDbOperator :=
  if negb (ENABLE_TRANSACTION_HISTORY (env self)) then Ok self
  else update_transaction_history_index self tx block_height index
         (fun k v d => db_remove d k).

(** The body of [for i, tx in enumerate(x_shard_receive_tx_list)], from
    position [i] on. *)
Fixpoint update_history_from_deposits
    (self : ShardDbOperator) (height : Z)
    (func : bytes -> bytes -> gmap bytes bytes -> gmap bytes bytes)
    (i : Z) (l : list CrossShardTransactionDeposit.t) : result ShardDbOperator :=
  match l with
  | [] => Ok self
  | tx :: l' =>
      if decide (CrossShardTransactionDeposit.tx_hash tx = replicate 32 x00)
      then update_history_from_deposits self height func (i + 1) l'
      else
        key ← encode_address_transaction_key
                (CrossShardTransactionDeposit.to_address tx) height i true;
        update_history_from_deposits (with_db self (func key [] (db self)))
          height func (i + 1) l'
  end.

Definition update_transaction_history_index_from_block
    (self : ShardDbOperator) (minor_block : MinorBlock.t)
    (func : bytes -> bytes -> gmap bytes bytes -> gmap bytes bytes)
  : result ShardDbOperator :=
  x_shard_receive_tx_list ←
    get_confirmed_cross_shard_transaction_deposit_list self
      (MinorBlockHeader_get_hash (MinorBlock.header minor_block));
  update_history_from_deposits self
    (MinorBlockHeader.height (MinorBlock.header minor_block)) func 0
    x_shard_receive_tx_list.

Definition put_transaction_history_index_from_block
    (self : ShardDbOperator) (minor_block : MinorBlock.t) : result ShardDbOperator :=
  if negb (ENABLE_TRANSACTION_HISTORY (env self)) then Ok self
  else update_transaction_history_index_from_block self minor_block
         (fun k v d => db_put d k v).

Definition remove_transaction_history_index_from_block
    (self : ShardDbOperator) (minor_block : MinorBlock.t) : result ShardDbOperator :=
  if negb (ENABLE_TRANSACTION_HISTORY (env self)) then Ok self
  else update_transaction_history_index_from_block self minor_block
         (fun k v d => db_remove d k).

(** *** Reads of the minor block store that the history query uses *)

Definition get_minor_block_by_hash (self : ShardDbOperator) (h : bytes)
  : result (option MinorBlock.t) :=
  match truthy (db_get (db self) (blit "mblock_" ++ h)) with
  | Some data => b ← expect DeserializeError (MinorBlock_deserialize data); mret (Some b)
  | None => Ok None
  end.

Definition get_minor_block_by_height (self : ShardDbOperator) (height : Z)
  : result (option MinorBlock.t) :=
  let key := blit "mi_" ++ decimal height in
  if negb (db_contains (db self) key) then Ok None
  else
    match db_get (db self) key with
    | Some block_hash => get_minor_block_by_hash self block_hash
    | None => Ok None
    end.

(** *** The history query *)

(** One pass of the loop body of [get_transactions_by_address] after the
    limit test: the [TransactionDetail] of the entry at key [k]. *)
Definition transaction_detail_at (self : ShardDbOperator) (k : bytes)
  : result TransactionDetail.t :=
  let height := from_bytes (slice (5 + 24) (5 + 24 + 4) k) in
  flag ← expect IndexError (k !! (5 + 24 + 4)%nat);
  let cross_shard := byte_val flag =? 0 in
  let index := from_bytes (slice_from (5 + 24 + 4 + 1) k) in
  if cross_shard then
    o ← get_minor_block_by_height self height;
    m_block ← expect AttributeError o;
    x_shard_receive_tx_list ←
      get_confirmed_cross_shard_transaction_deposit_list self
        (MinorBlockHeader_get_hash (MinorBlock.header m_block));
    tx ← expect IndexError (x_shard_receive_tx_list !! Z.to_nat index);
    mret {| TransactionDetail.tx_hash := CrossShardTransactionDeposit.tx_hash tx;
            TransactionDetail.from_address := CrossShardTransactionDeposit.from_address tx;
            TransactionDetail.to_address := Some (CrossShardTransactionDeposit.to_address tx);
            TransactionDetail.value := CrossShardTransactionDeposit.value tx;
            TransactionDetail.block_height := height;
            TransactionDetail.timestamp :=
              MinorBlockHeader.create_time (MinorBlock.header m_block);
            TransactionDetail.success := true;
            TransactionDetail.gas_token_id := CrossShardTransactionDeposit.gas_token_id tx;
            TransactionDetail.transfer_token_id :=
              CrossShardTransactionDeposit.transfer_token_id tx |}
  else
    o ← get_minor_block_by_height self height;
    m_block ← expect AttributeError o;
    receipt ← MinorBlock_get_receipt m_block (db self) index;
    tx ← expect IndexError (MinorBlock.tx_list m_block !! Z.to_nat index);
    let evm_tx := to_evm_tx tx in
    mret {| TransactionDetail.tx_hash := Transaction_get_hash tx;
            TransactionDetail.from_address :=
              {| recipient := sender evm_tx; full_shard_key := from_full_shard_key evm_tx |};
            TransactionDetail.to_address :=
              match to evm_tx with
              | [] => None
              | _ :: _ =>
                  Some {| recipient := to evm_tx; full_shard_key := to_full_shard_key evm_tx |}
              end;
            TransactionDetail.value := value evm_tx;
            TransactionDetail.block_height := height;
            TransactionDetail.timestamp :=
              MinorBlockHeader.create_time (MinorBlock.header m_block);
            TransactionDetail.success :=
              bool_decide (receipt_success receipt = [x01]);
            TransactionDetail.gas_token_id := gas_token_id evm_tx;
            TransactionDetail.transfer_token_id := transfer_token_id evm_tx |}.

(** The [for k, v in self.db.reversed_range_iter(start, end)] loop over the
    entries the iterator still has to yield, with the loop's variables
    [limit], [tx_list] and [next]. *)
Fixpoint history_loop (self : ShardDbOperator) (items : list (bytes * bytes))
    (limit : Z) (tx_list : list TransactionDetail.t) (next : bytes)
  : result (list TransactionDetail.t * bytes) :=
  match items with
  | [] => Ok (tx_list, next)
  | (k, v) :: items' =>
      let limit := limit - 1 in
      if limit <? 0 then Ok (tx_list, next)
      else
        detail ← transaction_detail_at self k;
        next ← to_bytes (length k) (from_bytes k - 1);
        history_loop self items' limit (tx_list ++ [detail]) next
  end.

Definition get_transactions_by_address
    (self : ShardDbOperator) (address : Address) (start : bytes) (limit : Z)
  : result (list TransactionDetail.t * bytes) :=
  if negb (ENABLE_TRANSACTION_HISTORY (env self)) then Ok ([], [])
  else
    let serialized_address := Address_serialize address in
    let end_ := blit "addr_" ++ serialized_address in
    original_start ← to_bytes (length end_) (from_bytes end_ + 1);
    let next := end_ in
    let start :=
      if match start with [] => true | _ :: _ => false end
         || bytes_ltb original_start start
      then original_start else start in
    history_loop self (reversed_range_iter (db self) start end_) limit [] next.

(** *** ShardDbOperator: recovery *)

(** The first [while] of [recover_state], from the root hash [r_hash]. *)
Fixpoint recover_root_blocks (fuel : nat) (self : ShardDbOperator) (r_hash : bytes)
  : result ShardDbOperator :=
  match fuel with
  | O => Raise OutOfFuel
  | S fuel' =>
      if Z.of_nat (size (r_header_pool self)) <? max_root_blocks_in_memory (env self)
      then
        data ← expect DeserializeError (db_get (db self) (blit "rblock_" ++ r_hash));
        block ← expect DeserializeError (RootBlock_deserialize data);
        let self :=
          with_r_header_pool self (<[r_hash := RootBlock.header block]> (r_header_pool self)) in
        if RootBlockHeader.height (RootBlock.header block) <=? genesis_root_height (env self)
        then Ok self
        else recover_root_blocks fuel' self
               (RootBlockHeader.hash_prev_block (RootBlock.header block))
      else Ok self
  end.

(** The second [while] of [recover_state], from the minor hash [m_hash]. *)
Fixpoint recover_minor_blocks (fuel : nat) (self : ShardDbOperator) (m_hash : bytes)
  : result ShardDbOperator :=
  match fuel with
  | O => Raise OutOfFuel
  | S fuel' =>
      if Z.of_nat (size (m_header_pool self)) <? max_minor_blocks_in_memory (env self)
      then
        data ← expect DeserializeError (db_get (db self) (blit "mblock_" ++ m_hash));
        block ← expect DeserializeError (MinorBlock_deserialize data);
        let self :=
          with_m_header_pool self (<[m_hash := MinorBlock.header block]> (m_header_pool self)) in
        let self :=
          with_m_meta_pool self (<[m_hash := MinorBlock.meta block]> (m_meta_pool self)) in
        if MinorBlockHeader.height (MinorBlock.header block) <=? 0
        then Ok self
        else recover_minor_blocks fuel' self
               (MinorBlockHeader.hash_prev_minor_block (MinorBlock.header block))
      else Ok self
  end.

Definition recover_state (fuel : nat) (self : ShardDbOperator)
    (r_header : RootBlockHeader.t) (m_header : MinorBlockHeader.t)
  : result ShardDbOperator :=
  let r_hash := RootBlockHeader_get_hash r_header in
  self ← recover_root_blocks fuel self r_hash;
  let m_hash := MinorBlockHeader_get_hash m_header in
  recover_minor_blocks fuel self m_hash.

(** *** ShardDbOperator: root block db operations *)

Definition put_root_block (self : ShardDbOperator) (root_block : RootBlock.t)
    (r_minor_header : option MinorBlockHeader.t) (root_block_hash : option bytes)
  : ShardDbOperator :=
  let root_block_hash :=
    match root_block_hash with
    | None => RootBlockHeader_get_hash (RootBlock.header root_block)
    | Some h => h
    end in
  let self :=
    with_r_header_pool self
      (<[root_block_hash := RootBlock.header root_block]> (r_header_pool self)) in
  let self :=
    with_db self (db_put (db self) (blit "rblock_" ++ root_block_hash)
                    (RootBlock_serialize root_block)) in
  let r_minor_header_hash :=
    match r_minor_header with
    | Some mh => MinorBlockHeader_get_hash mh
    | None => []
    end in
  with_db self (db_put (db self) (blit "r_last_m" ++ root_block_hash) r_minor_header_hash).

Definition get_root_block_by_hash (self : ShardDbOperator) (h : bytes)
  : result (option RootBlock.t * ShardDbOperator) :=
  match truthy (db_get (db self) (blit "rblock_" ++ h)) with
  | None => Ok (None, self)
  | Some raw_block =>
      block ← expect DeserializeError (RootBlock_deserialize raw_block);
      mret (Some block,
            with_r_header_pool self (<[h := RootBlock.header block]> (r_header_pool self)))
  end.

Definition get_root_block_header_by_hash (self : ShardDbOperator) (h : bytes)
  : result (option RootBlockHeader.t * ShardDbOperator) :=
  match r_header_pool self !! h with
  | Some header => Ok (Some header, self)
  | None =>
      '(o, self) ← get_root_block_by_hash self h;
      match o with
      | Some block =>
          let header := RootBlock.header block in
          mret (Some header,
                with_r_header_pool self (<[h := header]> (r_header_pool self)))
      | None => mret (None, self)
      end
  end.

(** The [while height != r_header.height] walk of
    [get_root_block_header_by_height]. *)
Fixpoint root_header_walk (fuel : nat) (self : ShardDbOperator)
    (r_header : RootBlockHeader.t) (height : Z)
  : result (option RootBlockHeader.t * ShardDbOperator) :=
  match fuel with
  | O => Raise OutOfFuel
  | S fuel' =>
      if negb (height =? RootBlockHeader.height r_header) then
        '(o, self) ← get_root_block_header_by_hash self
                        (RootBlockHeader.hash_prev_block r_header);
        r_header ← expect AttributeError o;
        root_header_walk fuel' self r_header height
      else Ok (Some r_header, self)
  end.

Definition get_root_block_header_by_height (fuel : nat) (self : ShardDbOperator)
    (h : bytes) (height : Z)
  : result (option RootBlockHeader.t * ShardDbOperator) :=
  '(o, self) ← get_root_block_header_by_hash self h;
  r_header ← expect AttributeError o;
  if RootBlockHeader.height r_header <? height then Ok (None, self)
  else root_header_walk fuel self r_header height.

Definition contain_root_block_by_hash (self : ShardDbOperator) (h : bytes) : bool :=
  match r_header_pool self !! h with Some _ => true | None => false end
  || db_contains (db self) (blit "rblock_" ++ h).

Definition put_genesis_block (self : ShardDbOperator) (root_block_hash : bytes)
    (genesis_block : MinorBlock.t) : ShardDbOperator :=
  with_db self (db_put (db self) (blit "genesis_" ++ root_block_hash)
                  (MinorBlock_serialize genesis_block)).

Definition get_genesis_block (self : ShardDbOperator) (root_block_hash : bytes)
  : result (option MinorBlock.t) :=
  match truthy (db_get (db self) (blit "genesis_" ++ root_block_hash)) with
  | None => Ok None
  | Some data => b ← expect DeserializeError (MinorBlock_deserialize data); mret (Some b)
  end.

(** *** ShardDbOperator: minor block db operations *)

Definition get_total_tx_count (self : ShardDbOperator) (m_block_hash : bytes) : Z :=
  match truthy (db_get (db self) (blit "tx_count_" ++ m_block_hash)) with
  | None => 0
  | Some count_bytes => from_bytes count_bytes
  end.

(** The count that [put_total_tx_count] computes for [m_block] in [self]. *)
Definition expected_count (self : ShardDbOperator) (m_block : MinorBlock.t) : Z :=
  (if 2 <? MinorBlockHeader.height (MinorBlock.header m_block)
   then get_total_tx_count self
          (MinorBlockHeader.hash_prev_minor_block (MinorBlock.header m_block))
   else 0)
  + Z.of_nat (length (MinorBlock.tx_list m_block)).

Definition put_total_tx_count (self : ShardDbOperator) (m_block : MinorBlock.t)
  : result ShardDbOperator :=
  let prev_count := 0 in
  let prev_count :=
    if 2 <? MinorBlockHeader.height (MinorBlock.header m_block)
    then get_total_tx_count self
           (MinorBlockHeader.hash_prev_minor_block (MinorBlock.header m_block))
    else prev_count in
  let count := prev_count + Z.of_nat (length (MinorBlock.tx_list m_block)) in
  count_bytes ← to_bytes 4 count;
  mret (with_db self
          (db_put (db self)
             (blit "tx_count_" ++ MinorBlockHeader_get_hash (MinorBlock.header m_block))
             count_bytes)).

Definition put_minor_block (self : ShardDbOperator) (m_block : MinorBlock.t)
    (x_shard_receive_tx_list : list CrossShardTransactionDeposit.t)
  : result ShardDbOperator :=
  let m_block_hash := MinorBlockHeader_get_hash (MinorBlock.header m_block) in
  let self :=
    with_db self (db_put (db self) (blit "mblock_" ++ m_block_hash)
                    (MinorBlock_serialize m_block)) in
  self ← put_total_tx_count self m_block;
  let self :=
    with_m_header_pool self
      (<[m_block_hash := MinorBlock.header m_block]> (m_header_pool self)) in
  let self :=
    with_m_meta_pool self (<[m_block_hash := MinorBlock.meta m_block]> (m_meta_pool self)) in
  let height := MinorBlockHeader.height (MinorBlock.header m_block) in
  let hashes := default ∅ (height_to_minor_block_hashes self !! height) in
  let self :=
    with_height_to_minor_block_hashes self
      (<[height := hashes ∪ {[MinorBlockHeader_get_hash (MinorBlock.header m_block)]}]>
         (height_to_minor_block_hashes self)) in
  mret (put_confirmed_cross_shard_transaction_deposit_list self m_block_hash
          x_shard_receive_tx_list).

Definition get_minor_block_header_by_hash (self : ShardDbOperator) (h : bytes)
  : result (option MinorBlockHeader.t * ShardDbOperator) :=
  o ← get_minor_block_by_hash self h;
  match o with
  | Some block =>
      mret (Some (MinorBlock.header block),
            with_m_header_pool self (<[h := MinorBlock.header block]> (m_header_pool self)))
  | None => mret (None, self)
  end.

Definition get_minor_block_meta_by_hash (self : ShardDbOperator) (h : bytes)
  : result (option MinorBlockMeta.t * ShardDbOperator) :=
  o ← get_minor_block_by_hash self h;
  match o with
  | Some block =>
      mret (Some (MinorBlock.meta block),
            with_m_meta_pool self (<[h := MinorBlock.meta block]> (m_meta_pool self)))
  | None => mret (None, self)
  end.

Definition get_minor_block_evm_root_hash_by_hash (self : ShardDbOperator) (h : bytes)
  : result (option bytes * ShardDbOperator) :=
  '(meta, self) ← get_minor_block_meta_by_hash self h;
  Ok (match meta with
      | Some m => Some (MinorBlockMeta.hash_evm_state_root m)
      | None => None
      end, self).

Definition get_last_confirmed_minor_block_header_at_root_block
    (self : ShardDbOperator) (root_hash : bytes)
  : result (option MinorBlockHeader.t * ShardDbOperator) :=
  match db_get (db self) (blit "r_last_m" ++ root_hash) with
  | None | Some [] => Ok (None, self)
  | Some r_minor_header_hash => get_minor_block_header_by_hash self r_minor_header_hash
  end.

Definition contain_minor_block_by_hash (self : ShardDbOperator) (h : bytes) : bool :=
  match m_header_pool self !! h with Some _ => true | None => false end
  || db_contains (db self) (blit "mblock_" ++ h).

Definition put_minor_block_index (self : ShardDbOperator) (block : MinorBlock.t)
  : ShardDbOperator :=
  with_db self
    (db_put (db self)
       (blit "mi_" ++ decimal (MinorBlockHeader.height (MinorBlock.header block)))
       (MinorBlockHeader_get_hash (MinorBlock.header block))).

Definition remove_minor_block_index (self : ShardDbOperator) (block : MinorBlock.t)
  : ShardDbOperator :=
  with_db self
    (db_remove (db self)
       (blit "mi_" ++ decimal (MinorBlockHeader.height (MinorBlock.header block)))).

(** [setdefault] leaves an empty set behind at a height that had none. *)
Definition get_block_count_by_height (self : ShardDbOperator) (height : Z)
  : Z * ShardDbOperator :=
  match height_to_minor_block_hashes self !! height with
  | Some hashes => (Z.of_nat (size hashes), self)
  | None =>
      (Z.of_nat (size (∅ : gset bytes)),
       with_height_to_minor_block_hashes self
         (<[height := ∅]> (height_to_minor_block_hashes self)))
  end.

(** *** ShardDbOperator: transaction db operations *)

Definition put_transaction_index (self : ShardDbOperator) (tx : Transaction)
    (block_height index : Z) : result ShardDbOperator :=
  let tx_hash := Transaction_get_hash tx in
  h ← to_bytes 4 block_height;
  i ← to_bytes 4 index;
  let self := with_db self (db_put (db self) (blit "txindex_" ++ tx_hash) (h ++ i)) in
  put_transaction_history_index self tx block_height index.

Definition remove_transaction_index (self : ShardDbOperator) (tx : Transaction)
    (block_height index : Z) : result ShardDbOperator :=
  let tx_hash := Transaction_get_hash tx in
  let self := with_db self (db_remove (db self) (blit "txindex_" ++ tx_hash)) in
  remove_transaction_history_index self tx block_height index.

Definition contain_transaction_hash (self : ShardDbOperator) (tx_hash : bytes) : bool :=
  let key := blit "txindex_" ++ tx_hash in
  db_contains (db self) key.

(** [check(condition)] of quarkchain.utils: an assertion that is always on. *)
Definition check (condition : bool) : result unit :=
  if condition then Ok tt else Raise AssertionError.

Definition get_transaction_by_hash (self : ShardDbOperator) (tx_hash : bytes)
  : result (option MinorBlock.t * option Z) :=
  match truthy (db_get (db self) (blit "txindex_" ++ tx_hash)) with
  | None => Ok (None, None)
  | Some result =>
      _ ← check (length result =? 8)%nat;
      let block_height := from_bytes (slice 0 4 result) in
      let index := from_bytes (slice_from 4 result) in
      o ← get_minor_block_by_height self block_height;
      mret (o, Some index)
  end.

(** [for i, tx in enumerate(minor_block.tx_list)] applying one of the two
    per-transaction index operations, from position [i] on. *)
Fixpoint for_each_transaction
    (f : ShardDbOperator -> Transaction -> Z -> Z -> result ShardDbOperator)
    (self : ShardDbOperator) (height : Z) (i : Z) (l : list Transaction)
  : result ShardDbOperator :=
  match l with
  | [] => Ok self
  | tx :: l' =>
      self ← f self tx height i;
      for_each_transaction f self height (i + 1) l'
  end.

Definition put_transaction_index_from_block (self : ShardDbOperator)
    (minor_block : MinorBlock.t) : result ShardDbOperator :=
  self ← for_each_transaction put_transaction_index self
           (MinorBlockHeader.height (MinorBlock.header minor_block)) 0
           (MinorBlock.tx_list minor_block);
  put_transaction_history_index_from_block self minor_block.

Definition remove_transaction_index_from_block (self : ShardDbOperator)
    (minor_block : MinorBlock.t) : result ShardDbOperator :=
  self ← for_each_transaction remove_transaction_index self
           (MinorBlockHeader.height (MinorBlock.header minor_block)) 0
           (MinorBlock.tx_list minor_block);
  remove_transaction_history_index_from_block self minor_block.

(** *** ShardDbOperator: cross-shard tx operations *)

Definition put_minor_block_xshard_tx_list (self : ShardDbOperator) (h : bytes)
    (tx_list : list CrossShardTransactionDeposit.t) : ShardDbOperator :=
  with_db self (db_put (db self) (blit "xShard_" ++ h)
                  (CrossShardTransactionList_serialize tx_list)).

Definition get_minor_block_xshard_tx_list (self : ShardDbOperator) (h : bytes)
  : result (option (list CrossShardTransactionDeposit.t)) :=
  let key := blit "xShard_" ++ h in
  match db_get (db self) key with
  | None => Ok None
  | Some data =>
      l ← expect DeserializeError (CrossShardTransactionList_deserialize data);
      mret (Some l)
  end.

Definition contain_remote_minor_block_hash (self : ShardDbOperator) (h : bytes) : bool :=
  let key := blit "xShard_" ++ h in
  db_contains (db self) key.

(** *** ShardDbOperator: common operations *)

Definition put (self : ShardDbOperator) (key value : bytes) : ShardDbOperator :=
  with_db self (db_put (db self) key value).

Definition get (self : ShardDbOperator) (key : bytes) (default : option bytes)
  : option bytes :=
  match db_get (db self) key with
  | Some v => Some v
  | None => default
  end.

(** [__getitem__]: [return self[key]] calls [__getitem__] again.  [depth]
    is the recursion depth the interpreter still allows. *)
Fixpoint getitem (depth : nat) (self : ShardDbOperator) (key : bytes) : result bytes :=
  match depth with
  | O => Raise RecursionError
  | S depth' => getitem depth' self key
  end.

(** *** The operator as a state machine

    The methods that can change the state of the operator (the store or a
    pool), as operations; [exec] runs one and keeps the state it leaves,
    [run] runs a sequence and stops at the first exception.  The remaining
    methods ([get], [contain_...], [get_minor_block_by_hash],
    [get_minor_block_by_height], [get_genesis_block], [get_total_tx_count],
    [get_transaction_by_hash], [get_transactions_by_address],
    [get_minor_block_xshard_tx_list]) only read. *)

(** The state a method leaves, without the value it returns. *)
Definition state_of {A} (r : result (A * ShardDbOperator)) : result ShardDbOperator :=
  match r with
  | Ok (_, self) => Ok self
  | Raise e => Raise e
  end.

Inductive Op :=
| RecoverState (fuel : nat) (r_header : RootBlockHeader.t) (m_header : MinorBlockHeader.t)
| PutRootBlock (root_block : RootBlock.t) (r_minor_header : option MinorBlockHeader.t)
    (root_block_hash : option bytes)
| GetRootBlockByHash (h : bytes)
| GetRootBlockHeaderByHash (h : bytes)
| GetRootBlockHeaderByHeight (fuel : nat) (h : bytes) (height : Z)
| GetLastConfirmedMinorBlockHeaderAtRootBlock (root_hash : bytes)
| PutGenesisBlock (root_block_hash : bytes) (genesis_block : MinorBlock.t)
| PutMinorBlock (m_block : MinorBlock.t)
    (x_shard_receive_tx_list : list CrossShardTransactionDeposit.t)
| PutTotalTxCount (m_block : MinorBlock.t)
| GetMinorBlockHeaderByHash (h : bytes)
| GetMinorBlockEvmRootHashByHash (h : bytes)
| GetMinorBlockMetaByHash (h : bytes)
| PutMinorBlockIndex (block : MinorBlock.t)
| RemoveMinorBlockIndex (block : MinorBlock.t)
| GetBlockCountByHeight (height : Z)
| PutTransactionIndex (tx : Transaction) (block_height index : Z)
| RemoveTransactionIndex (tx : Transaction) (block_height index : Z)
| PutTransactionIndexFromBlock (minor_block : MinorBlock.t)
| RemoveTransactionIndexFromBlock (minor_block : MinorBlock.t)
| PutMinorBlockXshardTxList (h : bytes) (tx_list : list CrossShardTransactionDeposit.t)
| Put (key value : bytes)
| PutConfirmedCrossShardTransactionDepositList (minor_block_hash : bytes)
    (l : list CrossShardTransactionDeposit.t)
| PutTransactionHistoryIndex (tx : Transaction) (block_height index : Z)
| RemoveTransactionHistoryIndex (tx : Transaction) (block_height index : Z)
| PutTransactionHistoryIndexFromBlock (minor_block : MinorBlock.t)
| RemoveTransactionHistoryIndexFromBlock (minor_block : MinorBlock.t).

Definition exec (op : Op) (self : ShardDbOperator) : result ShardDbOperator :=
  match op with
  | RecoverState fuel r_header m_header => recover_state fuel self r_header m_header
  | PutRootBlock b mh h => Ok (put_root_block self b mh h)
  | GetRootBlockByHash h => state_of (get_root_block_by_hash self h)
  | GetRootBlockHeaderByHash h => state_of (get_root_block_header_by_hash self h)
  | GetRootBlockHeaderByHeight fuel h height =>
      state_of (get_root_block_header_by_height fuel self h height)
  | GetLastConfirmedMinorBlockHeaderAtRootBlock h =>
      state_of (get_last_confirmed_minor_block_header_at_root_block self h)
  | PutGenesisBlock h b => Ok (put_genesis_block self h b)
  | PutMinorBlock b xs => put_minor_block self b xs
  | PutTotalTxCount b => put_total_tx_count self b
  | GetMinorBlockHeaderByHash h => state_of (get_minor_block_header_by_hash self h)
  | GetMinorBlockEvmRootHashByHash h => state_of (get_minor_block_evm_root_hash_by_hash self h)
  | GetMinorBlockMetaByHash h => state_of (get_minor_block_meta_by_hash self h)
  | PutMinorBlockIndex b => Ok (put_minor_block_index self b)
  | RemoveMinorBlockIndex b => Ok (remove_minor_block_index self b)
  | GetBlockCountByHeight height => Ok (snd (get_block_count_by_height self height))
  | PutTransactionIndex tx h i => put_transaction_index self tx h i
  | RemoveTransactionIndex tx h i => remove_transaction_index self tx h i
  | PutTransactionIndexFromBlock b => put_transaction_index_from_block self b
  | RemoveTransactionIndexFromBlock b => remove_transaction_index_from_block self b
  | PutMinorBlockXshardTxList h l => Ok (put_minor_block_xshard_tx_list self h l)
  | Put k v => Ok (put self k v)
  | PutConfirmedCrossShardTransactionDepositList h l =>
      Ok (put_confirmed_cross_shard_transaction_deposit_list self h l)
  | PutTransactionHistoryIndex tx h i => put_transaction_history_index self tx h i
  | RemoveTransactionHistoryIndex tx h i => remove_transaction_history_index self tx h i
  | PutTransactionHistoryIndexFromBlock b => put_transaction_history_index_from_block self b
  | RemoveTransactionHistoryIndexFromBlock b =>
      remove_transaction_history_index_from_block self b
  end.

Fixpoint run (ops : list Op) (self : ShardDbOperator) : result ShardDbOperator :=
  match ops with
  | [] => Ok self
  | op :: ops' => self ← exec op self; run ops' self
  end.

(** The set kept for a height in [height_to_minor_block_hashes] (none yet is
    the empty set). *)
Definition hashes_at (self : ShardDbOperator) (height : Z) : gset bytes :=
  default ∅ (height_to_minor_block_hashes self !! height).

(** The hashes of the minor blocks that a sequence of operations stores at a
    height with [put_minor_block]. *)
Fixpoint stored_at (height : Z) (ops : list Op) : gset bytes :=
  match ops with
  | [] => ∅
  | PutMinorBlock b _ :: ops' =>
      (if decide (MinorBlockHeader.height (MinorBlock.header b) = height)
       then {[MinorBlockHeader_get_hash (MinorBlock.header b)]} else ∅)
      ∪ stored_at height ops'
  | _ :: ops' => stored_at height ops'
  end.

(** *** Stored chains (for the statements about recovery) *)

(** [chain] is stored in [d] as a chain from the hash [m_hash] back: its
    first block deserializes from the entry [mblock_<m_hash>], the next one
    from the entry at the first one's [hash_prev_minor_block], and so on. *)
Fixpoint stored_chain (d : gmap bytes bytes) (m_hash : bytes) (chain : list MinorBlock.t)
  : Prop :=
  match chain with
  | [] => True
  | b :: rest =>
      match db_get d (blit "mblock_" ++ m_hash) with
      | Some data => MinorBlock_deserialize data
      | None => None
      end = Some b
      /\ stored_chain d (MinorBlockHeader.hash_prev_minor_block (MinorBlock.header b)) rest
  end.

(** The hashes under which the blocks of such a chain are stored. *)
Fixpoint chain_hashes (m_hash : bytes) (chain : list MinorBlock.t) : list bytes :=
  match chain with
  | [] => []
  | b :: rest =>
      m_hash :: chain_hashes (MinorBlockHeader.hash_prev_minor_block (MinorBlock.header b)) rest
  end.

(** Every block but the last one is above height 0. *)
Fixpoint heights_positive_but_last (chain : list MinorBlock.t) : bool :=
  match chain with
  | [] => true
  | b :: rest =>
      match rest with
      | [] => true
      | _ :: _ =>
          (0 <? MinorBlockHeader.height (MinorBlock.header b))
          && heights_positive_but_last rest
      end
  end.

(** *** The keys of the index entries (for the statements about the indexes) *)

(** The address-history keys of a transaction at a position: the keys that
    [__update_transaction_history_index] passes to [func], in order. *)
Definition history_index_keys (tx : Transaction) (block_height index : Z)
  : result (list bytes) :=
  let evm_tx := to_evm_tx tx in
  k1 ← encode_address_transaction_key
          {| recipient := sender evm_tx; full_shard_key := from_full_shard_key evm_tx |}
          block_height index false;
  if match to evm_tx with [] => false | _ :: _ => is_in_branch (to_full_shard_key evm_tx) end
  then
    k2 ← encode_address_transaction_key
            {| recipient := to evm_tx; full_shard_key := to_full_shard_key evm_tx |}
            block_height index false;
    mret [k1; k2]
  else mret [k1].

(** All the keys that [put_transaction_index] writes and
    [remove_transaction_index] removes for a transaction at a position. *)
Definition transaction_index_keys (self : ShardDbOperator) (tx : Transaction)
    (block_height index : Z) : result (list bytes) :=
  keys ← history_index_keys tx block_height index;
  mret ((blit "txindex_" ++ Transaction_get_hash tx)
        :: (if ENABLE_TRANSACTION_HISTORY (env self) then keys else [])).

(** The address-history keys of the confirmed deposits [l] of a block, from
    position [i] on: one for each deposit whose hash is not the all-zero
    coinbase marker. *)
Fixpoint deposit_history_keys (height : Z) (i : Z)
    (l : list CrossShardTransactionDeposit.t) : result (list bytes) :=
  match l with
  | [] => Ok []
  | tx :: l' =>
      if decide (CrossShardTransactionDeposit.tx_hash tx = replicate 32 x00)
      then deposit_history_keys height (i + 1) l'
      else
        key ← encode_address_transaction_key
                (CrossShardTransactionDeposit.to_address tx) height i true;
        keys ← deposit_history_keys height (i + 1) l';
        mret (key :: keys)
  end.

(** The keys that the loop of [put_transaction_index_from_block] over the
    transactions [l], from position [i] on, writes, and that the loop of
    [remove_transaction_index_from_block] removes; [history] is
    [ENABLE_TRANSACTION_HISTORY]. *)
Fixpoint block_transaction_keys (history : bool) (height i : Z) (l : list Transaction)
  : result (list bytes) :=
  match l with
  | [] => Ok []
  | tx :: l' =>
      keys ← history_index_keys tx height i;
      rest ← block_transaction_keys history height (i + 1) l';
      mret (((blit "txindex_" ++ Transaction_get_hash tx)
             :: (if history then keys else [])) ++ rest)
  end.

(** *** Stored root chains (for the statements about recovery) *)

(** [chain] is stored in [d] as a root chain from the hash [r_hash] back:
    its first block deserializes from the entry [rblock_<r_hash>], the next
    one from the entry at the first one's [hash_prev_block], and so on. *)
Fixpoint stored_root_chain (d : gmap bytes bytes) (r_hash : bytes) (chain : list RootBlock.t)
  : Prop :=
  match chain with
  | [] => True
  | b :: rest =>
      match db_get d (blit "rblock_" ++ r_hash) with
      | Some data => RootBlock_deserialize data
      | None => None
      end = Some b
      /\ stored_root_chain d (RootBlockHeader.hash_prev_block (RootBlock.header b)) rest
  end.

(** The hashes under which the blocks of such a chain are stored. *)
Fixpoint root_chain_hashes (r_hash : bytes) (chain : list RootBlock.t) : list bytes :=
  match chain with
  | [] => []
  | b :: rest =>
      r_hash :: root_chain_hashes (RootBlockHeader.hash_prev_block (RootBlock.header b)) rest
  end.

(** Every block but the last one is above the height [genesis]. *)
Fixpoint heights_above_but_last (genesis : Z) (chain : list RootBlock.t) : bool :=
  match chain with
  | [] => true
  | b :: rest =>
      match rest with
      | [] => true
      | _ :: _ =>
          (genesis <? RootBlockHeader.height (RootBlock.header b))
          && heights_above_but_last genesis rest
      end
  end.

(** The hash at which a walk along a stored minor chain goes on after the
    chain: the [hash_prev_minor_block] of its last block. *)
Fixpoint chain_end (m_hash : bytes) (chain : list MinorBlock.t) : bytes :=
  match chain with
  | [] => m_hash
  | b :: rest => chain_end (MinorBlockHeader.hash_prev_minor_block (MinorBlock.header b)) rest
  end.

(** *** Root headers as the lookups see them *)

(** The header that [get_root_block_header_by_hash] finds for a hash: the
    pooled one, and without one the header of the block that the store
    holds for the hash. *)
Definition root_header_at (self : ShardDbOperator) (h : bytes) : option RootBlockHeader.t :=
  match r_header_pool self !! h with
  | Some header => Some header
  | None =>
      match truthy (db_get (db self) (blit "rblock_" ++ h)) with
      | Some raw_block => RootBlock.header <$> RootBlock_deserialize raw_block
      | None => None
      end
  end.

(** [chain] is the chain of root headers found from the hash [h] back. *)
Fixpoint root_headers_from (self : ShardDbOperator) (h : bytes)
    (chain : list RootBlockHeader.t) : Prop :=
  match chain with
  | [] => True
  | r :: rest =>
      root_header_at self h = Some r
      /\ root_headers_from self (RootBlockHeader.hash_prev_block r) rest
  end.

(** *** Chains of blocks put in order (for the statements about counts) *)

(** The operations that store the blocks of [chain] in order, each with its
    list of deposits. *)
Definition put_chain (chain : list (MinorBlock.t * list CrossShardTransactionDeposit.t))
  : list Op :=
  (fun p => PutMinorBlock (fst p) (snd p)) <$> chain.

(** Each block of [chain] is above height 2 and has the block before it as
    its parent; the parent of the first one has the hash [prev]. *)
Fixpoint extends (prev : bytes)
    (chain : list (MinorBlock.t * list CrossShardTransactionDeposit.t)) : Prop :=
  match chain with
  | [] => True
  | p :: rest =>
      2 < MinorBlockHeader.height (MinorBlock.header (fst p))
      /\ MinorBlockHeader.hash_prev_minor_block (MinorBlock.header (fst p)) = prev
      /\ extends (MinorBlockHeader_get_hash (MinorBlock.header (fst p))) rest
  end.

(** The hash of the last block of [chain], and [prev] for the empty chain. *)
Fixpoint tip (prev : bytes)
    (chain : list (MinorBlock.t * list CrossShardTransactionDeposit.t)) : bytes :=
  match chain with
  | [] => prev
  | p :: rest => tip (MinorBlockHeader_get_hash (MinorBlock.header (fst p))) rest
  end.

(** The number of transactions in the blocks of [chain]. *)
Fixpoint tx_total (chain : list (MinorBlock.t * list CrossShardTransactionDeposit.t)) : Z :=
  match chain with
  | [] => 0
  | p :: rest => Z.of_nat (length (MinorBlock.tx_list (fst p))) + tx_total rest
  end.

(** *** Records and index entries *)

(** The keys of the three indexes that the operator takes entries out of:
    the positional index [mi_], the transaction index [txindex_] and the
    address history [addr_]. *)
Definition index_key (k : bytes) : bool :=
  bool_decide (take 3 k = blit "mi_")
  || bool_decide (take 8 k = blit "txindex_")
  || bool_decide (take 5 k = blit "addr_").

(** [self'] has an entry at every key outside the indexes at which [self]
    has one, and a pooled header or metadata for every hash for which
    [self] has one. *)
Definition keeps (self self' : ShardDbOperator) : Prop :=
  (forall k, index_key k = false -> is_Some (db self !! k) -> is_Some (db self' !! k))
  /\ (forall h, is_Some (m_header_pool self !! h) -> is_Some (m_header_pool self' !! h))
  /\ (forall h, is_Some (m_meta_pool self !! h) -> is_Some (m_meta_pool self' !! h))
  /\ (forall h, is_Some (r_header_pool self !! h) -> is_Some (r_header_pool self' !! h)).

End Operator.

(** ** A concrete codec for the worked examples

    Fixed-width fields, hashes that are a digest of the header fields.  It
    stands in for the collaborators of quarkchain.core in closed examples. *)

Module Demo.

Definition pad (n : nat) (bs : bytes) : bytes := be_digits n (from_bytes bs).

Fixpoint chunks (fuel n : nat) (bs : bytes) : list bytes :=
  match fuel with
  | O => []
  | S fuel' =>
      if (length bs <? n)%nat then []
      else take n bs :: chunks fuel' n (drop n bs)
  end.

Definition address_bytes (a : Address) : bytes :=
  pad 20 (recipient a) ++ be_digits 4 (full_shard_key a).

Definition address_of (bs : bytes) : Address :=
  {| recipient := take 20 bs; full_shard_key := from_bytes (slice 20 24 bs) |}.

Definition minor_header_bytes (h : MinorBlockHeader.t) : bytes :=
  be_digits 4 (MinorBlockHeader.height h)
  ++ pad 32 (MinorBlockHeader.hash_prev_minor_block h)
  ++ be_digits 4 (MinorBlockHeader.create_time h).

Definition minor_header_of (bs : bytes) : MinorBlockHeader.t :=
  {| MinorBlockHeader.height := from_bytes (take 4 bs);
     MinorBlockHeader.hash_prev_minor_block := slice 4 36 bs;
     MinorBlockHeader.create_time := from_bytes (slice 36 40 bs) |}.

Definition minor_header_hash (h : MinorBlockHeader.t) : bytes :=
  be_digits 4 (MinorBlockHeader.height h)
  ++ be_digits 4 (MinorBlockHeader.create_time h)
  ++ pad 24 (MinorBlockHeader.hash_prev_minor_block h).

Definition root_header_bytes (h : RootBlockHeader.t) : bytes :=
  be_digits 4 (RootBlockHeader.height h) ++ pad 32 (RootBlockHeader.hash_prev_block h).

Definition root_header_of (bs : bytes) : RootBlockHeader.t :=
  {| RootBlockHeader.height := from_bytes (take 4 bs);
     RootBlockHeader.hash_prev_block := slice 4 36 bs |}.

Definition root_header_hash (h : RootBlockHeader.t) : bytes :=
  be_digits 4 (RootBlockHeader.height h) ++ pad 28 (RootBlockHeader.hash_prev_block h).

Definition tx_bytes (tx : Transaction) : bytes :=
  let e := to_evm_tx tx in
  pad 20 (sender e) ++ be_digits 4 (from_full_shard_key e)
  ++ [match to e with [] => x00 | _ :: _ => x01 end]
  ++ pad 20 (to e) ++ be_digits 4 (to_full_shard_key e)
  ++ be_digits 4 (value e) ++ be_digits 4 (gas_token_id e)
  ++ be_digits 4 (transfer_token_id e).

Definition tx_of (bs : bytes) : Transaction :=
  {| to_evm_tx :=
       {| sender := take 20 bs;
          from_full_shard_key := from_bytes (slice 20 24 bs);
          to := if decide (slice 24 25 bs = [x00]) then [] else slice 25 45 bs;
          to_full_shard_key := from_bytes (slice 45 49 bs);
          value := from_bytes (slice 49 53 bs);
          gas_token_id := from_bytes (slice 53 57 bs);
          transfer_token_id := from_bytes (slice 57 61 bs) |} |}.

Definition tx_hash (tx : Transaction) : bytes := pad 32 (tx_bytes tx).

Definition deposit_bytes (d : CrossShardTransactionDeposit.t) : bytes :=
  pad 32 (CrossShardTransactionDeposit.tx_hash d)
  ++ address_bytes (CrossShardTransactionDeposit.from_address d)
  ++ address_bytes (CrossShardTransactionDeposit.to_address d)
  ++ be_digits 4 (CrossShardTransactionDeposit.value d)
  ++ be_digits 4 (CrossShardTransactionDeposit.gas_token_id d)
  ++ be_digits 4 (CrossShardTransactionDeposit.transfer_token_id d).

Definition deposit_of (bs : bytes) : CrossShardTransactionDeposit.t :=
  {| CrossShardTransactionDeposit.tx_hash := take 32 bs;
     CrossShardTransactionDeposit.from_address := address_of (slice 32 56 bs);
     CrossShardTransactionDeposit.to_address := address_of (slice 56 80 bs);
     CrossShardTransactionDeposit.value := from_bytes (slice 80 84 bs);
     CrossShardTransactionDeposit.gas_token_id := from_bytes (slice 84 88 bs);
     CrossShardTransactionDeposit.transfer_token_id := from_bytes (slice 88 92 bs) |}.

Definition minor_block_bytes (b : MinorBlock.t) : bytes :=
  minor_header_bytes (MinorBlock.header b)
  ++ pad 32 (MinorBlockMeta.hash_evm_state_root (MinorBlock.meta b))
  ++ concat (tx_bytes <$> MinorBlock.tx_list b).

Definition minor_block_of (bs : bytes) : option MinorBlock.t :=
  if (length bs <? 72)%nat then None
  else
    Some {| MinorBlock.header := minor_header_of (take 40 bs);
            MinorBlock.meta := {| MinorBlockMeta.hash_evm_state_root := slice 40 72 bs |};
            MinorBlock.tx_list := tx_of <$> chunks (length bs) 61 (drop 72 bs) |}.

Definition root_block_bytes (b : RootBlock.t) : bytes :=
  root_header_bytes (RootBlock.header b)
  ++ concat (minor_header_bytes <$> RootBlock.minor_block_header_list b).

Definition root_block_of (bs : bytes) : option RootBlock.t :=
  if (length bs <? 36)%nat then None
  else
    Some {| RootBlock.header := root_header_of (take 36 bs);
            RootBlock.minor_block_header_list :=
              minor_header_of <$> chunks (length bs) 40 (drop 36 bs) |}.

Definition deposits_bytes (l : list CrossShardTransactionDeposit.t) : bytes :=
  concat (deposit_bytes <$> l).

Definition deposits_of (bs : bytes) : option (list CrossShardTransactionDeposit.t) :=
  Some (deposit_of <$> chunks (length bs) 92 bs).

#[export] Instance codec : Collaborators := {|
  Address_serialize := address_bytes;
  MinorBlockHeader_get_hash := minor_header_hash;
  RootBlockHeader_get_hash := root_header_hash;
  Transaction_get_hash := tx_hash;
  MinorBlock_serialize := minor_block_bytes;
  MinorBlock_deserialize := minor_block_of;
  RootBlock_serialize := root_block_bytes;
  RootBlock_deserialize := root_block_of;
  CrossShardTransactionList_serialize := deposits_bytes;
  CrossShardTransactionList_deserialize := deposits_of;
  MinorBlock_get_receipt := fun _ _ _ => Ok {| receipt_success := [x01] |};
  is_in_branch := fun _ => true
|}.

Definition demo_env : Env :=
  {| ENABLE_TRANSACTION_HISTORY := true;
     max_root_blocks_in_memory := 10;
     max_minor_blocks_in_memory := 10;
     genesis_root_height := 0 |}.

Definition alice : Address := {| recipient := replicate 20 x0a; full_shard_key := 1 |}.
Definition bob : Address := {| recipient := replicate 20 x0b; full_shard_key := 1 |}.

(** A transfer of [v] from [alice] to [bob]. *)
Definition transfer (v : Z) : Transaction :=
  {| to_evm_tx :=
       {| sender := recipient alice; from_full_shard_key := full_shard_key alice;
          to := recipient bob; to_full_shard_key := full_shard_key bob;
          value := v; gas_token_id := 7; transfer_token_id := 7 |} |}.

(** The block at height [h] on top of the block of hash [prev]. *)
Definition block_on (prev : bytes) (h : Z) (t : Z) (txs : list Transaction) : MinorBlock.t :=
  {| MinorBlock.header :=
       {| MinorBlockHeader.height := h;
          MinorBlockHeader.hash_prev_minor_block := prev;
          MinorBlockHeader.create_time := t |};
     MinorBlock.meta := {| MinorBlockMeta.hash_evm_state_root := replicate 32 xee |};
     MinorBlock.tx_list := txs |}.

Definition hash_of (b : MinorBlock.t) : bytes := minor_header_hash (MinorBlock.header b).

Definition unwrap (r : result ShardDbOperator) : ShardDbOperator :=
  match r with
  | Ok self => self
  | Raise _ => init ∅ demo_env
  end.

Definition is_ok {A} (r : result A) : bool :=
  match r with
  | Ok _ => true
  | Raise _ => false
  end.

(** A short chain with transfers, stored and indexed. *)
Definition genesis : MinorBlock.t := block_on (replicate 32 x00) 0 100 [].
Definition block1 : MinorBlock.t := block_on (hash_of genesis) 1 101 [transfer 5; transfer 6].
Definition block2 : MinorBlock.t := block_on (hash_of block1) 2 102 [transfer 7].
Definition block3 : MinorBlock.t := block_on (hash_of block2) 3 103 [transfer 8; transfer 9].

Definition store_block (b : MinorBlock.t) : list Op :=
  [PutMinorBlock b []; PutMinorBlockIndex b; PutTransactionIndexFromBlock b].

Definition store2 : ShardDbOperator :=
  unwrap (run (store_block genesis ++ store_block block1 ++ store_block block2)
            (init ∅ demo_env)).

(** The first page of one row of [alice]'s history in [store2], and its
    cursor. *)
Definition page1 : list TransactionDetail.t * bytes :=
  Eval vm_compute in
    match get_transactions_by_address store2 alice [] 1 with
    | Ok p => p
    | Raise _ => ([], [])
    end.

(** The page that the cursor of [page1] leads to. *)
Definition page2 : list TransactionDetail.t * bytes :=
Eval vm_compute in
  match get_transactions_by_address store2 alice (snd page1) 10 with
  | Ok p => p
  | Raise _ => ([], [])
  end.

(** Three blocks at height 1 on top of [genesis]. *)
Definition fork1 : MinorBlock.t := block_on (hash_of genesis) 1 201 [].
Definition fork2 : MinorBlock.t := block_on (hash_of genesis) 1 202 [].
Definition fork3 : MinorBlock.t := block_on (hash_of genesis) 1 203 [].

(** A chain of [n] empty blocks from height [h] up, oldest first. *)
Fixpoint chain_from (prev : bytes) (h : Z) (n : nat) : list MinorBlock.t :=
  match n with
  | O => []
  | S n' =>
      let b := block_on prev h (1000 + h) [] in
      b :: chain_from (hash_of b) (h + 1) n'
  end.

Definition chain100 : list MinorBlock.t := chain_from (replicate 32 x00) 0 100.

Definition root0 : RootBlock.t :=
  {| RootBlock.header :=
       {| RootBlockHeader.height := 0; RootBlockHeader.hash_prev_block := replicate 32 x00 |};
     RootBlock.minor_block_header_list := [] |}.

(** The store after the 100 blocks and the root block were put, opened by
    a new operator with empty pools. *)
Definition restarted : ShardDbOperator :=
  init (db (unwrap (run ((fun b => PutMinorBlock b []) <$> chain100)
                      (put_root_block (init ∅ demo_env) root0 None None))))
    demo_env.

(** The 10 most recent of the 100 blocks, newest first, and the header of
    the newest. *)
Definition recent10 : list MinorBlock.t := Eval vm_compute in take 10 (rev chain100).

Definition head100 : MinorBlockHeader.t :=
  Eval vm_compute in
    match recent10 with
    | b :: _ => MinorBlock.header b
    | [] => MinorBlock.header genesis
    end.

(** [store2] after a generic [put] has replaced the stored [block1] by
    [fork1] under [block1]'s key. *)
Definition overwritten : ShardDbOperator :=
  put store2 (blit "mblock_" ++ hash_of block1) (minor_block_bytes fork1).

(** A new operator on a store with an empty [txindex_] record. *)
Definition empty_record : ShardDbOperator :=
  put (init ∅ demo_env) (blit "txindex_" ++ tx_hash (transfer 5)) [].

(** A block on top of [block3]. *)
Definition block4 : MinorBlock.t := block_on (hash_of block3) 4 104 [transfer 10].

(** A deposit from [bob] to [alice], and a coinbase deposit (all-zero
    hash). *)
Definition deposit1 : CrossShardTransactionDeposit.t :=
  {| CrossShardTransactionDeposit.tx_hash := replicate 32 x11;
     CrossShardTransactionDeposit.from_address := bob;
     CrossShardTransactionDeposit.to_address := alice;
     CrossShardTransactionDeposit.value := 3;
     CrossShardTransactionDeposit.gas_token_id := 7;
     CrossShardTransactionDeposit.transfer_token_id := 7 |}.

Definition coinbase : CrossShardTransactionDeposit.t :=
  {| CrossShardTransactionDeposit.tx_hash := replicate 32 x00;
     CrossShardTransactionDeposit.from_address := bob;
     CrossShardTransactionDeposit.to_address := alice;
     CrossShardTransactionDeposit.value := 1;
     CrossShardTransactionDeposit.gas_token_id := 7;
     CrossShardTransactionDeposit.transfer_token_id := 7 |}.

(** [store2] after [block3] was stored with two deposits and put in the
    positional index. *)
Definition received : ShardDbOperator :=
  unwrap (run [PutMinorBlock block3 [coinbase; deposit1]; PutMinorBlockIndex block3] store2).

(** Two root blocks on top of [root0], and a new operator on the store that
    holds the three. *)
Definition root_on (prev : RootBlockHeader.t) : RootBlock.t :=
  {| RootBlock.header :=
       {| RootBlockHeader.height := RootBlockHeader.height prev + 1;
          RootBlockHeader.hash_prev_block := root_header_hash prev |};
     RootBlock.minor_block_header_list := [] |}.

Definition root1 : RootBlock.t := root_on (RootBlock.header root0).
Definition root2 : RootBlock.t := root_on (RootBlock.header root1).

Definition rooted : ShardDbOperator :=
  init (db (unwrap (run [PutRootBlock root0 None None; PutRootBlock root1 None None;
                         PutRootBlock root2 None None] (init ∅ demo_env))))
    demo_env.

(** A new operator on a store that holds [root0], [block2] and [block3],
    and not [block1]. *)
Definition broken : ShardDbOperator :=
  init (db (unwrap (run [PutRootBlock root0 None None; PutMinorBlock block2 [];
                         PutMinorBlock block3 []] (init ∅ demo_env))))
    demo_env.

End Demo.

(** ** Facts on byte strings *)

Lemma byte_val_range b : 0 <= byte_val b < 256.
Proof.
  unfold byte_val. pose proof (Byte.to_N_bounded b). lia.
Qed.

Lemma byte_val_inj a b : byte_val a = byte_val b -> a = b.
Proof.
  unfold byte_val. intros H. apply N2Z.inj in H.
  pose proof (Byte.of_to_N a) as Ha. rewrite H, Byte.of_to_N in Ha.
  congruence.
Qed.

Lemma byte_of_Z_val b : byte_of_Z (byte_val b) = b.
Proof.
  unfold byte_of_Z, byte_val. rewrite N2Z.id, Byte.of_to_N. reflexivity.
Qed.

Lemma byte_val_of_Z z : 0 <= z < 256 -> byte_val (byte_of_Z z) = z.
Proof.
  intros Hz. unfold byte_of_Z, byte_val.
  destruct (Byte.of_N (Z.to_N z)) as [b|] eqn:E.
  - apply Byte.to_of_N in E. rewrite E. lia.
  - apply Byte.of_N_None_iff in E. lia.
Qed.

Lemma from_bytes_snoc bs b : from_bytes (bs ++ [b]) = from_bytes bs * 256 + byte_val b.
Proof. unfold from_bytes. rewrite fold_left_app. reflexivity. Qed.

Lemma fold_from_bytes_acc bs acc :
  fold_left (fun acc b => acc * 256 + byte_val b) bs acc
  = acc * 256 ^ Z.of_nat (length bs) + from_bytes bs.
Proof.
  unfold from_bytes. revert acc.
  induction bs as [|b bs IH]; intros acc; simpl fold_left.
  - simpl. lia.
  - rewrite IH, (IH (0 * 256 + byte_val b)).
    replace (Z.of_nat (length (b :: bs))) with (Z.succ (Z.of_nat (length bs)))
      by (simpl length; lia).
    rewrite Z.pow_succ_r by lia. lia.
Qed.

Lemma from_bytes_cons b bs :
  from_bytes (b :: bs) = byte_val b * 256 ^ Z.of_nat (length bs) + from_bytes bs.
Proof.
  unfold from_bytes at 1. simpl fold_left. rewrite fold_from_bytes_acc. lia.
Qed.

Lemma from_bytes_range bs : 0 <= from_bytes bs < 256 ^ Z.of_nat (length bs).
Proof.
  induction bs as [|b bs IH].
  - unfold from_bytes. simpl. lia.
  - rewrite from_bytes_cons.
    replace (Z.of_nat (length (b :: bs))) with (Z.succ (Z.of_nat (length bs)))
      by (simpl length; lia).
    rewrite Z.pow_succ_r by lia.
    pose proof (byte_val_range b). nia.
Qed.

Lemma length_be_digits n z : length (be_digits n z) = n.
Proof.
  revert z. induction n as [|n IH]; intros z; simpl.
  - reflexivity.
  - rewrite length_app, IH. simpl. lia.
Qed.

Lemma from_be_digits n z :
  0 <= z < 256 ^ Z.of_nat n -> from_bytes (be_digits n z) = z.
Proof.
  revert z. induction n as [|n IH]; intros z Hz.
  - simpl in *. unfold from_bytes. simpl. lia.
  - simpl be_digits. rewrite from_bytes_snoc.
    replace (Z.of_nat (S n)) with (Z.succ (Z.of_nat n)) in Hz by lia.
    rewrite Z.pow_succ_r in Hz by lia.
    rewrite IH.
    + rewrite byte_val_of_Z by (apply Z.mod_pos_bound; lia).
      pose proof (Z.div_mod z 256). lia.
    + split; [apply Z.div_pos; lia|].
      apply Z.div_lt_upper_bound; lia.
Qed.

Lemma be_digits_from_bytes bs : be_digits (length bs) (from_bytes bs) = bs.
Proof.
  induction bs as [|b bs IH] using rev_ind.
  - reflexivity.
  - rewrite length_app. simpl length.
    replace (length bs + 1)%nat with (S (length bs)) by lia.
    simpl be_digits. rewrite from_bytes_snoc.
    pose proof (byte_val_range b) as Hb.
    replace ((from_bytes bs * 256 + byte_val b) / 256) with (from_bytes bs).
    2:{ rewrite Z.add_comm, Z.div_add by lia. rewrite Z.div_small by lia. lia. }
    replace ((from_bytes bs * 256 + byte_val b) mod 256) with (byte_val b).
    2:{ rewrite Z.add_comm, Z.mod_add by lia. rewrite Z.mod_small by lia. lia. }
    rewrite IH, byte_of_Z_val. reflexivity.
Qed.

Lemma to_bytes_Ok n z bs :
  to_bytes n z = Ok bs -> 0 <= z < 256 ^ Z.of_nat n /\ bs = be_digits n z.
Proof.
  unfold to_bytes.
  destruct (Z.leb_spec 0 z); [|discriminate].
  destruct (Z.ltb_spec z (256 ^ Z.of_nat n)); [|discriminate].
  cbv [andb]. intros [= <-]. split; [lia|reflexivity].
Qed.

Lemma to_bytes_fits n z :
  0 <= z < 256 ^ Z.of_nat n -> to_bytes n z = Ok (be_digits n z).
Proof.
  intros Hz. unfold to_bytes.
  destruct (Z.leb_spec 0 z); [|lia].
  destruct (Z.ltb_spec z (256 ^ Z.of_nat n)); [reflexivity|lia].
Qed.

Lemma to_bytes_length n z bs : to_bytes n z = Ok bs -> length bs = n.
Proof.
  intros H. apply to_bytes_Ok in H as [_ ->]. apply length_be_digits.
Qed.

Lemma from_to_bytes n z bs : to_bytes n z = Ok bs -> from_bytes bs = z.
Proof.
  intros H. apply to_bytes_Ok in H as [Hz ->]. apply from_be_digits, Hz.
Qed.

Lemma to_from_bytes bs : to_bytes (length bs) (from_bytes bs) = Ok bs.
Proof.
  rewrite to_bytes_fits by apply from_bytes_range.
  rewrite be_digits_from_bytes. reflexivity.
Qed.

(** ** Order on byte strings *)

Lemma bytes_compare_refl a : bytes_compare a a = Eq.
Proof.
  induction a as [|x a IH]; simpl; [reflexivity|].
  rewrite Z.compare_refl. exact IH.
Qed.

Lemma bytes_compare_eq a b : bytes_compare a b = Eq -> a = b.
Proof.
  revert b. induction a as [|x a IH]; intros [|y b]; simpl; try discriminate.
  - reflexivity.
  - destruct (Z.compare_spec (byte_val x) (byte_val y)) as [E| |]; try discriminate.
    intros Hab. apply byte_val_inj in E. apply IH in Hab. congruence.
Qed.

Lemma bytes_compare_antisym a b : bytes_compare b a = CompOpp (bytes_compare a b).
Proof.
  revert b. induction a as [|x a IH]; intros [|y b]; simpl; try reflexivity.
  rewrite (Z.compare_antisym (byte_val x) (byte_val y)).
  destruct (byte_val x ?= byte_val y); simpl; auto.
Qed.

Lemma bytes_compare_lt_trans a b c :
  bytes_compare a b = Lt -> bytes_compare b c = Lt -> bytes_compare a c = Lt.
Proof.
  revert b c. induction a as [|x a IH]; intros [|y b] [|z c]; simpl; try discriminate; auto.
  destruct (Z.compare_spec (byte_val x) (byte_val y)) as [E1|L1|G1]; try discriminate;
    destruct (Z.compare_spec (byte_val y) (byte_val z)) as [E2|L2|G2]; try discriminate;
    intros H1 H2.
  - rewrite E1, E2, Z.compare_refl. eauto.
  - rewrite E1. apply Z.compare_lt_iff in L2. rewrite L2. reflexivity.
  - rewrite <- E2. apply Z.compare_lt_iff in L1. rewrite L1. reflexivity.
  - assert (byte_val x < byte_val z) as L by lia.
    apply Z.compare_lt_iff in L. rewrite L. reflexivity.
Qed.

Lemma bytes_leb_negb_ltb a b : bytes_leb a b = negb (bytes_ltb b a).
Proof.
  unfold bytes_leb, bytes_ltb. rewrite (bytes_compare_antisym a b).
  destruct (bytes_compare a b); reflexivity.
Qed.

Lemma bytes_ltb_irrefl a : bytes_ltb a a = false.
Proof. unfold bytes_ltb. rewrite bytes_compare_refl. reflexivity. Qed.

Lemma bytes_leb_refl a : bytes_leb a a = true.
Proof. unfold bytes_leb. rewrite bytes_compare_refl. reflexivity. Qed.

Lemma bytes_ltb_lt a b : bytes_ltb a b = true <-> bytes_compare a b = Lt.
Proof. unfold bytes_ltb. destruct (bytes_compare a b); split; congruence. Qed.

Lemma bytes_ltb_trans a b c :
  bytes_ltb a b = true -> bytes_ltb b c = true -> bytes_ltb a c = true.
Proof. rewrite !bytes_ltb_lt. apply bytes_compare_lt_trans. Qed.

Lemma bytes_ltb_asym a b : bytes_ltb a b = true -> bytes_ltb b a = false.
Proof.
  unfold bytes_ltb. rewrite (bytes_compare_antisym a b).
  destruct (bytes_compare a b); simpl; congruence.
Qed.

Lemma bytes_leb_cases a b : bytes_leb a b = true <-> bytes_ltb a b = true \/ a = b.
Proof.
  unfold bytes_leb, bytes_ltb. split.
  - destruct (bytes_compare a b) eqn:E; try discriminate; auto.
    right. apply bytes_compare_eq, E.
  - intros [Hlt| ->]; [|rewrite bytes_compare_refl; reflexivity].
    destruct (bytes_compare a b); congruence.
Qed.

Lemma bytes_ltb_leb_trans a b c :
  bytes_ltb a b = true -> bytes_leb b c = true -> bytes_ltb a c = true.
Proof.
  intros Hab Hbc. apply bytes_leb_cases in Hbc as [Hbc| <-]; [|exact Hab].
  eapply bytes_ltb_trans; eauto.
Qed.

Lemma bytes_leb_ltb_trans a b c :
  bytes_leb a b = true -> bytes_ltb b c = true -> bytes_ltb a c = true.
Proof.
  intros Hab Hbc. apply bytes_leb_cases in Hab as [Hab| ->]; [|exact Hbc].
  eapply bytes_ltb_trans; eauto.
Qed.

Lemma bytes_leb_trans a b c :
  bytes_leb a b = true -> bytes_leb b c = true -> bytes_leb a c = true.
Proof.
  intros Hab Hbc. apply bytes_leb_cases in Hab as [Hab| ->]; [|exact Hbc].
  apply bytes_leb_cases. left. eapply bytes_ltb_leb_trans; eauto.
Qed.

Lemma bytes_ltb_leb a b : bytes_ltb a b = true -> bytes_leb a b = true.
Proof. intros Hab. apply bytes_leb_cases. auto. Qed.

(** On byte strings of one length the order is that of the big-endian
    integers. *)
Lemma bytes_compare_same_length a b :
  length a = length b -> bytes_compare a b = (from_bytes a ?= from_bytes b).
Proof.
  revert b. induction a as [|x a IH]; intros [|y b] Hlen; try discriminate.
  - reflexivity.
  - simpl in Hlen. injection Hlen as Hlen.
    simpl bytes_compare. rewrite !from_bytes_cons, <- Hlen.
    pose proof (from_bytes_range a) as Ha.
    pose proof (from_bytes_range b) as Hb. rewrite <- Hlen in Hb.
    assert (0 < 256 ^ Z.of_nat (length a)) as Hpos by (apply Z.pow_pos_nonneg; lia).
    destruct (Z.compare_spec (byte_val x) (byte_val y)) as [E|L|G].
    + rewrite E, IH by exact Hlen.
      destruct (Z.compare_spec (from_bytes a) (from_bytes b));
        symmetry; [apply Z.compare_eq_iff|apply Z.compare_lt_iff|apply Z.compare_gt_iff]; lia.
    + symmetry. apply Z.compare_lt_iff. nia.
    + symmetry. apply Z.compare_gt_iff. nia.
Qed.

Lemma bytes_ltb_same_length a b :
  length a = length b -> bytes_ltb a b = (from_bytes a <? from_bytes b).
Proof.
  intros Hlen. unfold bytes_ltb, Z.ltb. rewrite bytes_compare_same_length by exact Hlen.
  reflexivity.
Qed.

Lemma bytes_leb_same_length a b :
  length a = length b -> bytes_leb a b = (from_bytes a <=? from_bytes b).
Proof.
  intros Hlen. unfold bytes_leb, Z.leb. rewrite bytes_compare_same_length by exact Hlen.
  reflexivity.
Qed.

Lemma bytes_compare_app a1 a2 x y :
  length a1 = length a2 ->
  bytes_compare (a1 ++ x) (a2 ++ y) = lex (bytes_compare a1 a2) (bytes_compare x y).
Proof.
  revert a2. induction a1 as [|b a1 IH]; intros [|c a2] Hlen; try discriminate.
  - reflexivity.
  - simpl in *. injection Hlen as Hlen.
    destruct (byte_val b ?= byte_val c); auto.
Qed.

Lemma bytes_compare_be_digits n z1 z2 :
  0 <= z1 < 256 ^ Z.of_nat n -> 0 <= z2 < 256 ^ Z.of_nat n ->
  bytes_compare (be_digits n z1) (be_digits n z2) = (z1 ?= z2).
Proof.
  intros H1 H2. rewrite bytes_compare_same_length by (rewrite !length_be_digits; reflexivity).
  rewrite !from_be_digits by assumption. reflexivity.
Qed.

(** ** The reverse range iterator *)

Lemma elem_of_insert_desc kv l x : x ∈ insert_desc kv l <-> x = kv \/ x ∈ l.
Proof.
  induction l as [|kv' l IH]; simpl.
  - rewrite list_elem_of_singleton, elem_of_nil. tauto.
  - destruct (bytes_ltb (fst kv') (fst kv)).
    + rewrite !elem_of_cons. tauto.
    + rewrite !elem_of_cons, IH. tauto.
Qed.

Lemma elem_of_sort_desc l x : x ∈ sort_desc l <-> x ∈ l.
Proof.
  induction l as [|kv l IH]; simpl; [tauto|].
  rewrite elem_of_insert_desc, IH, elem_of_cons. tauto.
Qed.

Lemma insert_desc_sorted kv l :
  StronglySorted key_gt l ->
  (forall y, y ∈ l -> fst y <> fst kv) ->
  StronglySorted key_gt (insert_desc kv l).
Proof.
  induction 1 as [|kv' l Hl IH Hall]; intros Hne; simpl.
  - repeat constructor.
  - destruct (bytes_ltb (fst kv') (fst kv)) eqn:E.
    + constructor; [constructor; assumption|].
      constructor; [exact E|].
      eapply Forall_impl; [exact Hall|].
      intros y Hy. unfold key_gt in *. eapply bytes_ltb_trans; eauto.
    + constructor.
      * apply IH. intros y Hy. apply Hne. right. exact Hy.
      * apply Forall_forall. intros y Hy. apply elem_of_insert_desc in Hy as [->|Hy].
        -- unfold key_gt.
           assert (bytes_leb (fst kv) (fst kv') = true) as Hle
             by (rewrite bytes_leb_negb_ltb, E; reflexivity).
           apply bytes_leb_cases in Hle as [Hlt|Heq]; [exact Hlt|].
           exfalso. apply (Hne kv'); [left|congruence].
        -- rewrite Forall_forall in Hall. auto.
Qed.

Lemma sort_desc_sorted l :
  NoDup l ->
  (forall x y, x ∈ l -> y ∈ l -> fst x = fst y -> x = y) ->
  StronglySorted key_gt (sort_desc l).
Proof.
  induction 1 as [|kv l Hnotin Hnd IH]; intros Hfun; simpl.
  - constructor.
  - apply insert_desc_sorted.
    + apply IH. intros x y Hx Hy Heq.
      apply Hfun; [right; exact Hx|right; exact Hy|exact Heq].
    + intros y Hy Heq. rewrite elem_of_sort_desc in Hy.
      assert (y = kv) as -> by (apply Hfun; [right; exact Hy|left|exact Heq]).
      contradiction.
Qed.

Lemma elem_of_reversed_range_iter (d : gmap bytes bytes) start end_ k v :
  (k, v) ∈ reversed_range_iter d start end_ <->
  d !! k = Some v /\ bytes_ltb end_ k = true /\ bytes_leb k start = true.
Proof.
  unfold reversed_range_iter.
  rewrite elem_of_sort_desc, list_elem_of_filter, elem_of_map_to_list.
  unfold in_range. simpl. rewrite andb_True, !Is_true_true. tauto.
Qed.

Lemma reversed_range_iter_sorted (d : gmap bytes bytes) start end_ :
  StronglySorted key_gt (reversed_range_iter d start end_).
Proof.
  apply sort_desc_sorted.
  - apply NoDup_filter, NoDup_map_to_list.
  - intros [k1 v1] [k2 v2] H1 H2 Heq. simpl in Heq. subst k2.
    apply list_elem_of_filter in H1 as [_ H1], H2 as [_ H2].
    apply elem_of_map_to_list in H1, H2. congruence.
Qed.

Lemma key_gt_sorted_unique l1 l2 :
  StronglySorted key_gt l1 -> StronglySorted key_gt l2 ->
  (forall x, x ∈ l1 <-> x ∈ l2) -> l1 = l2.
Proof.
  assert (forall l, StronglySorted key_gt l -> NoDup l) as Hnd.
  { induction 1 as [|x l Hl IH Hall]; constructor; [|exact IH].
    intros Hin. rewrite Forall_forall in Hall. specialize (Hall _ Hin).
    unfold key_gt in Hall. rewrite bytes_ltb_irrefl in Hall. discriminate. }
  intros H1 H2 Heq.
  apply (StronglySorted_unique_strong key_gt); auto.
  - intros x1 x2 _ _ Hgt Hlt. unfold key_gt in *.
    apply bytes_ltb_asym in Hgt. congruence.
  - apply NoDup_Permutation; auto.
Qed.

(** ** Properties of the operator *)

(** Two keys with different first bytes differ. *)
Ltac key_neq :=
  let E := fresh "E" in
  intros E; apply (f_equal (hd x00)) in E; vm_compute in E; discriminate E.

Lemma truthy_Some_nonempty bs : bs <> [] -> truthy (Some bs) = Some bs.
Proof. destruct bs; [congruence|reflexivity]. Qed.

Lemma truthy_Some_inv o bs : truthy o = Some bs -> o = Some bs /\ bs <> [].
Proof.
  destruct o as [[|b l]|]; simpl; try discriminate.
  intros [= <-]. split; [reflexivity|discriminate].
Qed.

Lemma to_bytes_nonempty n z bs : to_bytes (S n) z = Ok bs -> bs <> [].
Proof.
  intros Hb Hnil. apply to_bytes_length in Hb. subst bs. discriminate.
Qed.

Section Properties.
Context `{Collaborators}.

(** *** Cumulative transaction counts *)

Lemma get_total_tx_count_with_db_ne self k v h :
  k <> blit "tx_count_" ++ h ->
  get_total_tx_count (with_db self (db_put (db self) k v)) h = get_total_tx_count self h.
Proof.
  intros Hne. unfold get_total_tx_count, db_get, db_put. simpl.
  rewrite lookup_insert_ne by exact Hne. reflexivity.
Qed.

Lemma get_total_tx_count_written self h z bs :
  to_bytes 4 z = Ok bs ->
  get_total_tx_count (with_db self (db_put (db self) (blit "tx_count_" ++ h) bs)) h = z.
Proof.
  intros Hb. unfold get_total_tx_count, db_get, db_put. simpl.
  rewrite lookup_insert_eq, truthy_Some_nonempty by (eapply to_bytes_nonempty; eauto).
  eapply from_to_bytes; eauto.
Qed.

Lemma put_total_tx_count_Ok self m_block self' :
  put_total_tx_count self m_block = Ok self' ->
  exists bs,
    to_bytes 4 (expected_count self m_block) = Ok bs /\
    self' = with_db self
              (db_put (db self)
                 (blit "tx_count_" ++ MinorBlockHeader_get_hash (MinorBlock.header m_block))
                 bs).
Proof.
  unfold put_total_tx_count, expected_count.
  destruct (to_bytes 4 _) as [bs|e] eqn:E; simpl; [|discriminate].
  intros [= <-]. eauto.
Qed.

(** When the count fits in four bytes the write goes through. *)
Lemma put_total_tx_count_fits self m_block :
  expected_count self m_block < 2 ^ 32 ->
  put_total_tx_count self m_block
  = Ok (with_db self
          (db_put (db self)
             (blit "tx_count_" ++ MinorBlockHeader_get_hash (MinorBlock.header m_block))
             (be_digits 4 (expected_count self m_block)))).
Proof.
  intros Hlt. unfold put_total_tx_count. fold (expected_count self m_block).
  assert (0 <= expected_count self m_block) as Hge.
  { unfold expected_count, get_total_tx_count.
    destruct (2 <? _); [|lia].
    destruct (truthy _) as [bs|]; [|lia].
    pose proof (from_bytes_range bs). lia. }
  rewrite to_bytes_fits by (change (Z.of_nat 4) with 4; lia).
  reflexivity.
Qed.

(** C1: for a minor block [B] that [put_minor_block] stores, the count
    recorded under [B]'s hash is the count stored for [B]'s parent plus
    [len(B.tx_list)] when [B]'s height is above 2, and [len(B.tx_list)]
    alone, whatever the parent, when the height is at most 2; and
    [get_total_tx_count] on [B]'s hash then returns that count. *)
Theorem put_minor_block_total_tx_count self B xs self' :
  put_minor_block self B xs = Ok self' ->
  let h := MinorBlockHeader.height (MinorBlock.header B) in
  let parent := MinorBlockHeader.hash_prev_minor_block (MinorBlock.header B) in
  let n := Z.of_nat (length (MinorBlock.tx_list B)) in
  let recorded := if 2 <? h then get_total_tx_count self parent + n else n in
  db self' !! (blit "tx_count_" ++ MinorBlockHeader_get_hash (MinorBlock.header B))
    = Some (be_digits 4 recorded)
  /\ get_total_tx_count self' (MinorBlockHeader_get_hash (MinorBlock.header B)) = recorded.
Proof.
  intros Hput h parent n recorded.
  unfold put_minor_block in Hput.
  destruct (put_total_tx_count _ B) as [s1|e] eqn:E1; simpl in Hput; [|discriminate].
  injection Hput as <-.
  apply put_total_tx_count_Ok in E1 as (bs & Hbs & ->).
  assert (expected_count
            (with_db self
               (db_put (db self)
                  (blit "mblock_" ++ MinorBlockHeader_get_hash (MinorBlock.header B))
                  (MinorBlock_serialize B))) B = recorded) as Hrec.
  { unfold expected_count, recorded. fold h. fold parent. fold n.
    rewrite get_total_tx_count_with_db_ne by key_neq.
    destruct (2 <? h); reflexivity. }
  rewrite Hrec in Hbs.
  assert (bs = be_digits 4 recorded) as Hbe by (apply to_bytes_Ok in Hbs; tauto).
  unfold put_confirmed_cross_shard_transaction_deposit_list, get_total_tx_count, db_get.
  destruct (ENABLE_TRANSACTION_HISTORY _); simpl.
  - unfold db_put. rewrite lookup_insert_ne by key_neq.
    rewrite lookup_insert_eq, truthy_Some_nonempty by (eapply to_bytes_nonempty; eauto).
    split; [rewrite Hbe; reflexivity|]. eapply from_to_bytes; eauto.
  - unfold db_put.
    rewrite lookup_insert_eq, truthy_Some_nonempty by (eapply to_bytes_nonempty; eauto).
    split; [rewrite Hbe; reflexivity|]. eapply from_to_bytes; eauto.
Qed.

(** C9: a hash without a stored count reads as 0, so that a block above
    height 2 whose parent has no stored count gets the length of its own
    transaction list recorded, with no error. *)
Theorem get_total_tx_count_missing self h :
  db self !! (blit "tx_count_" ++ h) = None ->
  get_total_tx_count self h = 0
  /\ forall B,
       2 < MinorBlockHeader.height (MinorBlock.header B) ->
       MinorBlockHeader.hash_prev_minor_block (MinorBlock.header B) = h ->
       Z.of_nat (length (MinorBlock.tx_list B)) < 2 ^ 32 ->
       exists self',
         put_total_tx_count self B = Ok self'
         /\ db self' !! (blit "tx_count_" ++ MinorBlockHeader_get_hash (MinorBlock.header B))
            = Some (be_digits 4 (Z.of_nat (length (MinorBlock.tx_list B))))
         /\ get_total_tx_count self' (MinorBlockHeader_get_hash (MinorBlock.header B))
            = Z.of_nat (length (MinorBlock.tx_list B)).
Proof.
  intros Hnone.
  assert (get_total_tx_count self h = 0) as H0.
  { unfold get_total_tx_count, db_get. rewrite Hnone. reflexivity. }
  split; [exact H0|].
  intros B Hh Hparent Hlen.
  assert (expected_count self B = Z.of_nat (length (MinorBlock.tx_list B))) as Hexp.
  { unfold expected_count. rewrite Hparent, H0.
    destruct (Z.ltb_spec 2 (MinorBlockHeader.height (MinorBlock.header B))); lia. }
  eexists. split; [apply put_total_tx_count_fits; lia|].
  rewrite Hexp. split.
  - simpl. unfold db_put. apply lookup_insert_eq.
  - apply get_total_tx_count_written, to_bytes_fits.
    change (Z.of_nat 4) with 4. lia.
Qed.

(** *** Subscript access *)

(** C8: [__getitem__] calls itself and nothing else: whatever recursion
    depth it is given, it uses it up and returns no value. *)
Theorem getitem_never_returns depth self key :
  getitem depth self key = Raise RecursionError
  /\ forall v, getitem depth self key <> Ok v.
Proof.
  assert (getitem depth self key = Raise RecursionError) as Hg.
  { induction depth as [|depth IH]; simpl; [reflexivity|exact IH]. }
  split; [exact Hg|]. intros v. rewrite Hg. discriminate.
Qed.

(** *** Transaction lookup *)

Lemma get_minor_block_by_height_indexed self height block_hash data block :
  db self !! (blit "mi_" ++ decimal height) = Some block_hash ->
  db self !! (blit "mblock_" ++ block_hash) = Some data ->
  data <> [] ->
  MinorBlock_deserialize data = Some block ->
  get_minor_block_by_height self height = Ok (Some block).
Proof.
  intros Hmi Hmb Hdata Hde.
  unfold get_minor_block_by_height, db_contains, db_get. rewrite Hmi. simpl.
  unfold get_minor_block_by_hash, db_get.
  rewrite Hmb, truthy_Some_nonempty by exact Hdata. simpl.
  rewrite Hde. reflexivity.
Qed.

Lemma get_minor_block_by_height_unindexed self height :
  db self !! (blit "mi_" ++ decimal height) = None ->
  get_minor_block_by_height self height = Ok None.
Proof.
  intros Hmi. unfold get_minor_block_by_height, db_contains. rewrite Hmi. reflexivity.
Qed.

(** C7, as the code has it: no [txindex_] entry, or an empty one, gives
    [(None, None)]; a non-empty record that is not 8 bytes long fails the
    assertion; an 8-byte record is read as a 4-byte big-endian height and a
    4-byte big-endian index, and the block is the one the positional index
    [mi_<height>] points to (or [None] when that height is not indexed). *)
Theorem get_transaction_by_hash_cases self tx_hash :
  (db self !! (blit "txindex_" ++ tx_hash) = None \/
   db self !! (blit "txindex_" ++ tx_hash) = Some [] ->
   get_transaction_by_hash self tx_hash = Ok (None, None))
  /\ (forall r,
        db self !! (blit "txindex_" ++ tx_hash) = Some r ->
        r <> [] -> length r <> 8%nat ->
        get_transaction_by_hash self tx_hash = Raise AssertionError)
  /\ (forall h4 i4,
        db self !! (blit "txindex_" ++ tx_hash) = Some (h4 ++ i4) ->
        length h4 = 4%nat -> length i4 = 4%nat ->
        get_transaction_by_hash self tx_hash
        = (o ← get_minor_block_by_height self (from_bytes h4);
           mret (o, Some (from_bytes i4)))
        /\ (db self !! (blit "mi_" ++ decimal (from_bytes h4)) = None ->
            get_transaction_by_hash self tx_hash = Ok (None, Some (from_bytes i4)))
        /\ (forall block_hash data block,
              db self !! (blit "mi_" ++ decimal (from_bytes h4)) = Some block_hash ->
              db self !! (blit "mblock_" ++ block_hash) = Some data ->
              data <> [] ->
              MinorBlock_deserialize data = Some block ->
              get_transaction_by_hash self tx_hash
              = Ok (Some block, Some (from_bytes i4)))).
Proof.
  unfold get_transaction_by_hash, db_get. split; [|split].
  - intros [-> | ->]; reflexivity.
  - intros r -> Hr Hlen. rewrite truthy_Some_nonempty by exact Hr.
    apply Nat.eqb_neq in Hlen. rewrite Hlen. reflexivity.
  - intros h4 i4 -> H4 I4.
    assert (h4 ++ i4 <> []) as Hne by (destruct h4; discriminate).
    assert ((length (h4 ++ i4) =? 8)%nat = true) as H8
      by (apply Nat.eqb_eq; rewrite length_app; lia).
    assert (slice 0 4 (h4 ++ i4) = h4) as Hs.
    { unfold slice. change (4 - 0)%nat with 4%nat. rewrite drop_0.
      apply take_app_length'. symmetry. exact H4. }
    assert (slice_from 4 (h4 ++ i4) = i4) as Hd.
    { unfold slice_from. apply drop_app_length'. symmetry. exact H4. }
    rewrite truthy_Some_nonempty, H8, Hs, Hd by exact Hne.
    split; [reflexivity|split].
    + intros Hmi. rewrite get_minor_block_by_height_unindexed by exact Hmi. reflexivity.
    + intros block_hash data block Hmi Hmb Hdata Hde.
      erewrite get_minor_block_by_height_indexed by eauto. reflexivity.
Qed.

(** *** Header pools *)

(** C5, as the code has it: the root header lookup is read-through (a
    pooled header is returned without a look at the store; on a miss the
    root block is loaded from the store and its header is pooled and
    returned, [None] when the store has no block).  The minor header lookup
    does not read the pool: it always loads the block from the store,
    pools its header and returns it, and returns [None] when the store has
    no block under the hash. *)
Theorem header_lookup_cases self h :
  (forall header,
     r_header_pool self !! h = Some header ->
     get_root_block_header_by_hash self h = Ok (Some header, self))
  /\ (forall data block,
        r_header_pool self !! h = None ->
        db self !! (blit "rblock_" ++ h) = Some data -> data <> [] ->
        RootBlock_deserialize data = Some block ->
        get_root_block_header_by_hash self h
        = Ok (Some (RootBlock.header block),
              with_r_header_pool self (<[h := RootBlock.header block]> (r_header_pool self))))
  /\ (r_header_pool self !! h = None ->
      truthy (db self !! (blit "rblock_" ++ h)) = None ->
      get_root_block_header_by_hash self h = Ok (None, self))
  /\ (forall data block,
        db self !! (blit "mblock_" ++ h) = Some data -> data <> [] ->
        MinorBlock_deserialize data = Some block ->
        get_minor_block_header_by_hash self h
        = Ok (Some (MinorBlock.header block),
              with_m_header_pool self (<[h := MinorBlock.header block]> (m_header_pool self))))
  /\ (truthy (db self !! (blit "mblock_" ++ h)) = None ->
      get_minor_block_header_by_hash self h = Ok (None, self)).
Proof.
  split; [|split; [|split; [|split]]].
  - intros header Hp. unfold get_root_block_header_by_hash. rewrite Hp. reflexivity.
  - intros data block Hp Hd Hne Hde.
    unfold get_root_block_header_by_hash, get_root_block_by_hash, db_get.
    rewrite Hp, Hd, truthy_Some_nonempty by exact Hne. simpl. rewrite Hde. simpl.
    unfold with_r_header_pool. simpl. rewrite insert_insert_eq. reflexivity.
  - intros Hp Hd.
    unfold get_root_block_header_by_hash, get_root_block_by_hash, db_get.
    rewrite Hp, Hd. reflexivity.
  - intros data block Hd Hne Hde.
    unfold get_minor_block_header_by_hash, get_minor_block_by_hash, db_get.
    rewrite Hd, truthy_Some_nonempty by exact Hne. simpl. rewrite Hde. reflexivity.
  - intros Hd.
    unfold get_minor_block_header_by_hash, get_minor_block_by_hash, db_get.
    rewrite Hd. reflexivity.
Qed.

(** *** The address history query *)

(** What a finished run of the scan loop has done: it has consumed the
    first [limit] entries (all of them when there are fewer), appended
    their details in order, and set the cursor from the last one. *)
Lemma history_loop_Ok self items limit acc next0 rows next :
  history_loop self items limit acc next0 = Ok (rows, next) ->
  exists rows',
    rows = acc ++ rows'
    /\ Forall2 (fun kv row => transaction_detail_at self (fst kv) = Ok row)
         (take (Z.to_nat limit) items) rows'
    /\ match last (take (Z.to_nat limit) items) with
       | None => next = next0
       | Some kv => to_bytes (length (fst kv)) (from_bytes (fst kv) - 1) = Ok next
       end.
Proof.
  revert limit acc next0.
  induction items as [|[k v] items IH]; intros limit acc next0; simpl history_loop.
  - intros [= <- <-]. exists []. rewrite app_nil_r, take_nil. repeat split. constructor.
  - destruct (Z.ltb_spec (limit - 1) 0) as [Hlt|Hge].
    + intros [= <- <-]. exists [].
      replace (Z.to_nat limit) with 0%nat by lia.
      rewrite app_nil_r. repeat split. constructor.
    + destruct (transaction_detail_at self k) as [detail|e] eqn:Ed; simpl; [|discriminate].
      destruct (to_bytes (length k) (from_bytes k - 1)) as [nx|e] eqn:En; simpl; [|discriminate].
      intros Hloop. apply IH in Hloop as (rows' & -> & Hall & Hlast).
      exists (detail :: rows').
      replace (Z.to_nat limit) with (S (Z.to_nat (limit - 1))) by lia.
      rewrite <- app_assoc. simpl. split; [reflexivity|]. split.
      * constructor; assumption.
      * rewrite last_cons.
        destruct (last (take (Z.to_nat (limit - 1)) items)); [exact Hlast|].
        simpl. congruence.
Qed.

(** The upper end of the scan: [end] read as an integer, plus one. *)
Lemma original_start_Ok a :
  exists original_start,
    to_bytes (length (blit "addr_" ++ a)) (from_bytes (blit "addr_" ++ a) + 1)
    = Ok original_start.
Proof.
  eexists. apply to_bytes_fits.
  change (blit "addr_" ++ a) with (x61 :: (blit "ddr_" ++ a)).
  rewrite from_bytes_cons.
  pose proof (from_bytes_range (blit "ddr_" ++ a)) as Hr.
  replace (Z.of_nat (length (x61 :: blit "ddr_" ++ a)))
    with (Z.succ (Z.of_nat (length (blit "ddr_" ++ a)))) by (simpl length; lia).
  rewrite Z.pow_succ_r by lia.
  change (byte_val x61) with 97. lia.
Qed.

Lemma get_transactions_by_address_Ok self address start limit rows next :
  ENABLE_TRANSACTION_HISTORY (env self) = true ->
  get_transactions_by_address self address start limit = Ok (rows, next) ->
  exists original_start start',
    to_bytes (length (blit "addr_" ++ Address_serialize address))
      (from_bytes (blit "addr_" ++ Address_serialize address) + 1) = Ok original_start
    /\ start' = (if match start with [] => true | _ :: _ => false end
                    || bytes_ltb original_start start
                 then original_start else start)
    /\ history_loop self
         (reversed_range_iter (db self) start' (blit "addr_" ++ Address_serialize address))
         limit [] (blit "addr_" ++ Address_serialize address) = Ok (rows, next).
Proof.
  intros Hon. unfold get_transactions_by_address. rewrite Hon. simpl negb. cbv iota.
  destruct (to_bytes _ _) as [os|e] eqn:Eo; simpl; [|discriminate].
  intros Hloop. exists os. eexists. split; [reflexivity|]. split; [reflexivity|exact Hloop].
Qed.

Lemma key_above_end_positive a k :
  bytes_ltb (blit "addr_" ++ a) k = true -> 1 <= from_bytes k /\ k <> [].
Proof.
  change (blit "addr_" ++ a) with (x61 :: (blit "ddr_" ++ a)).
  unfold bytes_ltb. destruct k as [|b k]; [discriminate|].
  cbn [bytes_compare]. change (byte_val x61) with 97.
  destruct (Z.compare_spec 97 (byte_val b)) as [E|L|G]; try discriminate; intros _.
  - split; [|discriminate]. rewrite from_bytes_cons.
    pose proof (from_bytes_range k).
    assert (0 < 256 ^ Z.of_nat (length k)) by (apply Z.pow_pos_nonneg; lia). nia.
  - split; [|discriminate]. rewrite from_bytes_cons.
    pose proof (from_bytes_range k).
    assert (0 < 256 ^ Z.of_nat (length k)) by (apply Z.pow_pos_nonneg; lia). nia.
Qed.

(** With nothing stored above [end], the enabled query returns the empty
    page and [end] as its cursor. *)
Lemma get_transactions_by_address_no_match self address start limit :
  ENABLE_TRANSACTION_HISTORY (env self) = true ->
  (forall k, bytes_ltb (blit "addr_" ++ Address_serialize address) k = true ->
             db self !! k = None) ->
  get_transactions_by_address self address start limit
  = Ok ([], blit "addr_" ++ Address_serialize address).
Proof.
  intros Hon Hnone. unfold get_transactions_by_address. rewrite Hon. simpl negb. cbv iota.
  destruct (original_start_Ok (Address_serialize address)) as [os ->]. simpl.
  match goal with
  | |- history_loop _ ?items _ _ _ = _ => destruct items as [|[k v] rest] eqn:El
  end.
  - reflexivity.
  - assert ((k, v) ∈ (k, v) :: rest) as Hin by left.
    rewrite <- El in Hin. apply elem_of_reversed_range_iter in Hin as (Hk & Hlt & _).
    rewrite Hnone in Hk by exact Hlt. discriminate.
Qed.

(** C10: with the history flag on, a query that consumes no row returns
    [b"addr_" + address.serialize()] as its cursor; the empty cursor comes
    back only when the flag is off. *)
Theorem get_transactions_by_address_empty_page self address start limit rows next :
  get_transactions_by_address self address start limit = Ok (rows, next) ->
  (ENABLE_TRANSACTION_HISTORY (env self) = true -> rows = [] ->
   next = blit "addr_" ++ Address_serialize address)
  /\ (next = [] -> ENABLE_TRANSACTION_HISTORY (env self) = false)
  /\ (ENABLE_TRANSACTION_HISTORY (env self) = false -> rows = [] /\ next = []).
Proof.
  intros Hget.
  destruct (ENABLE_TRANSACTION_HISTORY (env self)) eqn:Hon.
  - apply get_transactions_by_address_Ok in Hget as (os & start' & Hos & -> & Hloop);
      [|exact Hon].
    apply history_loop_Ok in Hloop as (rows' & -> & Hall & Hlast). simpl in *.
    split; [|split].
    + intros _ ->. apply Forall2_nil_inv_r in Hall. rewrite Hall in Hlast. exact Hlast.
    + intros ->. exfalso.
      destruct (last _) as [[k v]|] eqn:El; [|discriminate].
      simpl in Hlast. apply last_Some_elem_of in El.
      apply elem_of_take in El as (i & Hi & _).
      apply list_elem_of_lookup_2, elem_of_reversed_range_iter in Hi as (_ & Hlt & _).
      apply key_above_end_positive in Hlt as [_ Hk].
      apply to_bytes_length in Hlast. destruct k; [congruence|discriminate].
    + discriminate.
  - unfold get_transactions_by_address in Hget. rewrite Hon in Hget. simpl in Hget.
    injection Hget as <- <-. split; [discriminate|]. split; [reflexivity|]. tauto.
Qed.

(** *** The address history key *)

Lemma encode_address_transaction_key_fits address height index cross_shard :
  0 <= height < 2 ^ 32 -> 0 <= index < 2 ^ 32 ->
  encode_address_transaction_key address height index cross_shard
  = Ok (blit "addr_" ++ Address_serialize address ++ be_digits 4 height
        ++ (if cross_shard then [x00] else [x01]) ++ be_digits 4 index).
Proof.
  intros Hh Hi. unfold encode_address_transaction_key.
  rewrite !to_bytes_fits by (change (Z.of_nat 4) with 4; lia).
  reflexivity.
Qed.

Lemma flag_byte_compare (x1 x2 : bool) :
  bytes_compare (if x1 then [x00] else [x01]) (if x2 then [x00] else [x01])
  = flag_compare x1 x2.
Proof. destruct x1, x2; reflexivity. Qed.

Lemma sorted_earlier_key_gt (l before between after : list (bytes * bytes))
    (kv1 kv2 : bytes * bytes) :
  StronglySorted key_gt l ->
  l = before ++ kv1 :: between ++ kv2 :: after ->
  key_gt kv1 kv2.
Proof.
  intros Hs ->. apply StronglySorted_app_1_r in Hs.
  apply StronglySorted_cons in Hs as [Hall _].
  rewrite Forall_forall in Hall. apply Hall.
  apply elem_of_app. right. left.
Qed.

(** C3: for addresses of the one serialized width, and heights and indexes
    in [[0, 2^32)], the keys exist and their byte order is the order of
    (address bytes, height, flag, index), a cross-shard entry before a
    local one; so of two entries of one address that a reverse scan
    yields, the one yielded first is the newer. *)
Theorem encode_address_transaction_key_order a1 h1 i1 x1 a2 h2 i2 x2 :
  length (Address_serialize a1) = length (Address_serialize a2) ->
  0 <= h1 < 2 ^ 32 -> 0 <= i1 < 2 ^ 32 ->
  0 <= h2 < 2 ^ 32 -> 0 <= i2 < 2 ^ 32 ->
  exists k1 k2,
    encode_address_transaction_key a1 h1 i1 x1 = Ok k1
    /\ encode_address_transaction_key a2 h2 i2 x2 = Ok k2
    /\ bytes_compare k1 k2
       = history_entry_compare (Address_serialize a1) h1 x1 i1
                               (Address_serialize a2) h2 x2 i2
    /\ flag_compare true false = Lt
    /\ forall (d : gmap bytes bytes) start end_ before between after v1 v2,
         Address_serialize a1 = Address_serialize a2 ->
         reversed_range_iter d start end_
         = before ++ (k1, v1) :: between ++ (k2, v2) :: after ->
         h2 <= h1
         /\ history_entry_compare (Address_serialize a1) h1 x1 i1
                                  (Address_serialize a2) h2 x2 i2 = Gt.
Proof.
  intros Hlen Hh1 Hi1 Hh2 Hi2.
  do 2 eexists.
  split; [apply encode_address_transaction_key_fits; assumption|].
  split; [apply encode_address_transaction_key_fits; assumption|].
  assert (bytes_compare
            (blit "addr_" ++ Address_serialize a1 ++ be_digits 4 h1
             ++ (if x1 then [x00] else [x01]) ++ be_digits 4 i1)
            (blit "addr_" ++ Address_serialize a2 ++ be_digits 4 h2
             ++ (if x2 then [x00] else [x01]) ++ be_digits 4 i2)
          = history_entry_compare (Address_serialize a1) h1 x1 i1
                                  (Address_serialize a2) h2 x2 i2) as Hcmp.
  { unfold history_entry_compare.
    rewrite bytes_compare_app by reflexivity.
    rewrite bytes_compare_refl. cbn [lex].
    rewrite bytes_compare_app by exact Hlen.
    rewrite bytes_compare_app by (rewrite !length_be_digits; reflexivity).
    rewrite bytes_compare_app by (destruct x1, x2; reflexivity).
    rewrite flag_byte_compare.
    rewrite !bytes_compare_be_digits by (change (Z.of_nat 4) with 4; lia).
    reflexivity. }
  split; [exact Hcmp|]. split; [reflexivity|].
  intros d start end_ before between after v1 v2 Ha Hscan.
  pose proof (sorted_earlier_key_gt _ _ _ _ _ _
                (reversed_range_iter_sorted d start end_) Hscan) as Hgt.
  unfold key_gt in Hgt. cbn [fst] in Hgt. apply bytes_ltb_lt in Hgt.
  rewrite bytes_compare_antisym, Hcmp in Hgt.
  assert (history_entry_compare (Address_serialize a1) h1 x1 i1
            (Address_serialize a2) h2 x2 i2 = Gt) as HGt
    by (destruct (history_entry_compare _ _ _ _ _ _ _ _); simpl in Hgt; congruence).
  split; [|exact HGt].
  unfold history_entry_compare in HGt.
  rewrite Ha, bytes_compare_refl in HGt. cbn [lex] in HGt.
  destruct (Z.compare_spec h1 h2); simpl in HGt; try lia. discriminate.
Qed.

(** *** Pagination *)

(** The cursor computed from a consumed key [k]: a byte string of the
    length of [k], just below [k]. *)
Lemma cursor_below a k next :
  bytes_ltb (blit "addr_" ++ a) k = true ->
  to_bytes (length k) (from_bytes k - 1) = Ok next ->
  length next = length k
  /\ from_bytes next = from_bytes k - 1
  /\ bytes_ltb next k = true
  /\ next <> [].
Proof.
  intros Hend Hnext.
  pose proof (to_bytes_length _ _ _ Hnext) as Hlen.
  pose proof (from_to_bytes _ _ _ Hnext) as Hval.
  apply key_above_end_positive in Hend as [_ Hk].
  split; [exact Hlen|]. split; [exact Hval|]. split.
  - rewrite bytes_ltb_same_length by exact Hlen. apply Z.ltb_lt. lia.
  - intros ->. destruct k; [congruence|discriminate].
Qed.

(** The start of the scan is never above [original_start]. *)
Lemma scan_start_le original_start (start : bytes) :
  bytes_leb
    (if match start with [] => true | _ :: _ => false end || bytes_ltb original_start start
     then original_start else start)
    original_start = true.
Proof.
  destruct (_ || _) eqn:E.
  - apply bytes_leb_refl.
  - apply orb_false_iff in E as [_ E]. rewrite bytes_leb_negb_ltb, E. reflexivity.
Qed.

(** A cursor below [original_start] is taken as it is. *)
Lemma scan_start_cursor original_start (next : bytes) :
  next <> [] -> bytes_ltb next original_start = true ->
  (if match next with [] => true | _ :: _ => false end || bytes_ltb original_start next
   then original_start else next) = next.
Proof.
  intros Hne Hlt. apply bytes_ltb_asym in Hlt. rewrite Hlt.
  destruct next; [congruence|reflexivity].
Qed.

Lemma elem_of_take_elem_of {A} (n : nat) (l : list A) x : x ∈ take n l -> x ∈ l.
Proof.
  intros Hin. rewrite <- (take_drop n l). apply elem_of_app. left. exact Hin.
Qed.

(** C2: an enabled query returns at most [limit] rows, one for each of the
    entries it consumed, in the order of the scan; its cursor is the last
    consumed key, read as a big-endian integer, minus 1, on as many bytes;
    and a query that is passed this cursor consumes only entries of the
    store strictly below that key: when the entries left by the first
    query have keys of that key's length, exactly the first of them. *)
Theorem get_transactions_by_address_pagination self address start limit rows next :
  ENABLE_TRANSACTION_HISTORY (env self) = true ->
  get_transactions_by_address self address start limit = Ok (rows, next) ->
  (length rows <= Z.to_nat limit)%nat
  /\ exists start' consumed rest,
       reversed_range_iter (db self) start' (blit "addr_" ++ Address_serialize address)
       = consumed ++ rest
       /\ Forall2 (fun kv row => transaction_detail_at self (fst kv) = Ok row) consumed rows
       /\ forall k v,
            last consumed = Some (k, v) ->
            to_bytes (length k) (from_bytes k - 1) = Ok next
            /\ forall limit2 rows2 next2,
                 get_transactions_by_address self address next limit2 = Ok (rows2, next2) ->
                 exists consumed2,
                   Forall2 (fun kv row => transaction_detail_at self (fst kv) = Ok row)
                     consumed2 rows2
                   /\ Forall (fun kv =>
                                db self !! fst kv = Some (snd kv)
                                /\ bytes_ltb (blit "addr_" ++ Address_serialize address)
                                     (fst kv) = true
                                /\ bytes_ltb (fst kv) k = true) consumed2
                   /\ ((forall kv, kv ∈ rest -> length (fst kv) = length k) ->
                       consumed2 = take (Z.to_nat limit2) rest).
Proof.
  intros Hon Hget.
  apply get_transactions_by_address_Ok in Hget as (os & start' & Hos & Hstart & Hloop);
    [|exact Hon].
  apply history_loop_Ok in Hloop as (rows' & Hrows & Hall & Hlast).
  simpl in Hrows. subst rows'.
  set (end_ := blit "addr_" ++ Address_serialize address) in *.
  set (scan := reversed_range_iter (db self) start' end_) in *.
  split.
  { apply Forall2_length in Hall. rewrite <- Hall, length_take. lia. }
  exists start', (take (Z.to_nat limit) scan), (drop (Z.to_nat limit) scan).
  split; [symmetry; apply take_drop|]. split; [exact Hall|].
  intros k v Hk. rewrite Hk in Hlast. cbn [fst] in Hlast.
  split; [exact Hlast|].
  pose proof (reversed_range_iter_sorted (db self) start' end_) as Hsorted.
  fold scan in Hsorted. rewrite <- (take_drop (Z.to_nat limit) scan) in Hsorted.
  assert ((k, v) ∈ scan) as Hkin
    by (eapply elem_of_take_elem_of, last_Some_elem_of; exact Hk).
  apply elem_of_reversed_range_iter in Hkin as (Hkdb & Hkend & Hkstart).
  destruct (cursor_below _ _ _ Hkend Hlast) as (Hnlen & Hnval & Hnlt & Hnne).
  assert (bytes_leb start' os = true) as Hsos by (rewrite Hstart; apply scan_start_le).
  assert (bytes_ltb next os = true) as Hnos.
  { eapply bytes_ltb_leb_trans; [exact Hnlt|].
    eapply bytes_leb_trans; eassumption. }
  intros limit2 rows2 next2 Hget2.
  apply get_transactions_by_address_Ok in Hget2 as (os2 & start2 & Hos2 & Hstart2 & Hloop2);
    [|exact Hon].
  fold end_ in Hos, Hos2, Hloop2.
  assert (os2 = os) as -> by congruence.
  rewrite scan_start_cursor in Hstart2 by assumption. subst start2.
  apply history_loop_Ok in Hloop2 as (rows2' & Hrows2 & Hall2 & _).
  simpl in Hrows2. subst rows2'.
  set (scan2 := reversed_range_iter (db self) next end_) in *.
  exists (take (Z.to_nat limit2) scan2).
  split; [exact Hall2|]. split.
  - apply Forall_forall. intros [k2 v2] Hin. apply elem_of_take_elem_of in Hin.
    apply elem_of_reversed_range_iter in Hin as (Hdb2 & Hend2 & Hle2).
    cbn [fst snd]. split; [exact Hdb2|]. split; [exact Hend2|].
    eapply bytes_leb_ltb_trans; eassumption.
  - intros Huniform. f_equal.
    apply key_gt_sorted_unique.
    + apply reversed_range_iter_sorted.
    + eapply StronglySorted_app_1_r; exact Hsorted.
    + intros [k2 v2]. split.
      * intros Hin.
        apply elem_of_reversed_range_iter in Hin as (Hdb2 & Hend2 & Hle2).
        assert (bytes_ltb k2 k = true) as Hlt2
          by (eapply bytes_leb_ltb_trans; eassumption).
        assert ((k2, v2) ∈ scan) as Hin1.
        { apply elem_of_reversed_range_iter.
          split; [exact Hdb2|]. split; [exact Hend2|].
          apply bytes_ltb_leb. eapply bytes_ltb_leb_trans; eassumption. }
        rewrite <- (take_drop (Z.to_nat limit) scan) in Hin1.
        apply elem_of_app in Hin1 as [Hin1|Hin1]; [|exact Hin1].
        exfalso. apply last_Some in Hk as [pre Hpre].
        rewrite Hpre in Hin1, Hsorted.
        apply elem_of_app in Hin1 as [Hin1|Hin1].
        -- apply StronglySorted_app_1_l in Hsorted.
           pose proof (StronglySorted_app_1_elem_of _ _ _ _ _ Hsorted Hin1
                         (list_elem_of_here _ _)) as Hgt.
           unfold key_gt in Hgt. cbn [fst] in Hgt.
           apply bytes_ltb_asym in Hgt. congruence.
        -- apply list_elem_of_singleton in Hin1. injection Hin1 as -> ->.
           rewrite bytes_ltb_irrefl in Hlt2. discriminate.
      * intros Hin.
        assert (bytes_ltb k2 k = true) as Hlt2.
        { apply (StronglySorted_app_1_elem_of _ _ _ (k, v) (k2, v2) Hsorted);
            [eapply last_Some_elem_of; exact Hk|exact Hin]. }
        assert ((k2, v2) ∈ scan) as Hin1
          by (rewrite <- (take_drop (Z.to_nat limit) scan); apply elem_of_app; right; exact Hin).
        apply elem_of_reversed_range_iter in Hin1 as (Hdb2 & Hend2 & _).
        apply elem_of_reversed_range_iter.
        split; [exact Hdb2|]. split; [exact Hend2|].
        specialize (Huniform _ Hin). cbn [fst] in Huniform.
        rewrite bytes_ltb_same_length in Hlt2 by exact Huniform.
        rewrite bytes_leb_same_length by congruence.
        apply Z.ltb_lt in Hlt2. apply Z.leb_le. lia.
Qed.

(** *** Recovery *)

Lemma recover_root_blocks_frame fuel self r_hash self' :
  recover_root_blocks fuel self r_hash = Ok self' ->
  env self' = env self /\ db self' = db self
  /\ m_header_pool self' = m_header_pool self
  /\ m_meta_pool self' = m_meta_pool self
  /\ height_to_minor_block_hashes self' = height_to_minor_block_hashes self.
Proof.
  revert self r_hash. induction fuel as [|fuel IH]; intros self r_hash; simpl.
  - discriminate.
  - destruct (_ <? _); [|intros [= <-]; tauto].
    destruct (db_get _ _) as [data|]; simpl; [|discriminate].
    destruct (RootBlock_deserialize data) as [block|]; simpl; [|discriminate].
    destruct (_ <=? _).
    + intros [= <-]. simpl. tauto.
    + intros Hrec. apply IH in Hrec. simpl in Hrec. exact Hrec.
Qed.

Lemma length_chain_hashes m_hash chain : length (chain_hashes m_hash chain) = length chain.
Proof.
  revert m_hash. induction chain as [|b rest IH]; intros m_hash; simpl; [reflexivity|].
  rewrite IH. reflexivity.
Qed.

Lemma pool_insert_union {X} (pool : gmap bytes X) (hs : list bytes) (xs : list X) h x :
  h ∉ hs -> length hs = length xs ->
  (list_to_map (zip hs xs) : gmap bytes X) ∪ <[h := x]> pool
  = list_to_map (zip (h :: hs) (x :: xs)) ∪ pool.
Proof.
  intros Hnotin Hlen. simpl.
  rewrite <- insert_union_l, <- insert_union_r; [reflexivity|].
  apply not_elem_of_list_to_map_1. rewrite fst_zip by lia. exact Hnotin.
Qed.

(** The second loop of [recover_state] along a stored chain. *)
Lemma recover_minor_blocks_walk visited :
  forall fuel self m_hash,
    stored_chain (db self) m_hash visited ->
    NoDup (chain_hashes m_hash visited) ->
    (forall h, h ∈ chain_hashes m_hash visited -> m_header_pool self !! h = None) ->
    heights_positive_but_last visited = true ->
    (visited = [] \/
     Z.of_nat (size (m_header_pool self) + length visited)
     <= max_minor_blocks_in_memory (env self)) ->
    (max_minor_blocks_in_memory (env self)
     <= Z.of_nat (size (m_header_pool self) + length visited) \/
     exists b, last visited = Some b /\ MinorBlockHeader.height (MinorBlock.header b) <= 0) ->
    (length visited < fuel)%nat ->
    exists self',
      recover_minor_blocks fuel self m_hash = Ok self'
      /\ m_header_pool self'
         = list_to_map (zip (chain_hashes m_hash visited) (MinorBlock.header <$> visited))
           ∪ m_header_pool self
      /\ m_meta_pool self'
         = list_to_map (zip (chain_hashes m_hash visited) (MinorBlock.meta <$> visited))
           ∪ m_meta_pool self
      /\ size (m_header_pool self') = (size (m_header_pool self) + length visited)%nat
      /\ db self' = db self /\ env self' = env self
      /\ r_header_pool self' = r_header_pool self.
Proof.
  induction visited as [|b rest IH];
    intros fuel self m_hash Hstored Hnd Hfresh Hpos Hroom Hstop Hfuel.
  - destruct fuel as [|fuel]; [simpl in Hfuel; lia|]. simpl.
    destruct Hstop as [Hfull|(b & Hb & _)]; [|discriminate].
    simpl in Hfull.
    destruct (Z.ltb_spec (Z.of_nat (size (m_header_pool self)))
                (max_minor_blocks_in_memory (env self))); [lia|].
    eexists. split; [reflexivity|].
    rewrite !(left_id_L ∅ (∪)). repeat split. lia.
  - destruct fuel as [|fuel]; [simpl in Hfuel; lia|].
    cbn [stored_chain chain_hashes] in Hstored, Hnd, Hfresh. simpl in Hfuel.
    destruct Hstored as [Hb Hrest].
    apply NoDup_cons in Hnd as [Hnotin Hnd].
    destruct Hroom as [Hnil|Hroom]; [discriminate|]. simpl length in Hroom.
    cbn [recover_minor_blocks].
    destruct (Z.ltb_spec (Z.of_nat (size (m_header_pool self)))
                (max_minor_blocks_in_memory (env self))); [|lia].
    revert Hb.
    destruct (db_get (db self) (blit "mblock_" ++ m_hash)) as [data|]; [|discriminate].
    intros Hb.
    cbn [expect mbind result_bind rbind]. rewrite Hb. cbn [expect mbind result_bind rbind].
    assert (m_header_pool self !! m_hash = None) as Hm by (apply Hfresh; left).
    destruct (Z.leb_spec (MinorBlockHeader.height (MinorBlock.header b)) 0) as [Hle|Hgt].
    + assert (rest = []) as ->.
      { destruct rest as [|b' rest']; [reflexivity|]. simpl in Hpos.
        apply andb_true_iff in Hpos as [Hpos _]. apply Z.ltb_lt in Hpos. lia. }
      eexists. split; [reflexivity|]. simpl.
      rewrite <- !insert_union_l, !(left_id_L ∅ (∪)).
      rewrite map_size_insert_None by exact Hm. repeat split. lia.
    + set (self1 := with_m_meta_pool _ _).
      destruct (IH fuel self1 (MinorBlockHeader.hash_prev_minor_block (MinorBlock.header b)))
        as (self' & Hrun & Hhp & Hmp & Hsize & Hdb & Henv & Hrp).
      * exact Hrest.
      * exact Hnd.
      * intros h Hh. simpl. rewrite lookup_insert_ne; [apply Hfresh; right; exact Hh|].
        intros ->. contradiction.
      * destruct rest; [reflexivity|]. simpl in Hpos.
        apply andb_true_iff in Hpos as [_ Hpos]. exact Hpos.
      * right. simpl. rewrite map_size_insert_None by exact Hm. lia.
      * simpl size. rewrite map_size_insert_None by exact Hm.
        destruct Hstop as [Hfull|(b' & Hlast & Hb')].
        -- left. simpl length in Hfull. simpl. lia.
        -- right. rewrite last_cons in Hlast.
           destruct (last rest) as [b''|] eqn:El.
           ++ exists b''. split; [reflexivity|]. congruence.
           ++ injection Hlast as <-. lia.
      * lia.
      * exists self'. split; [exact Hrun|].
        simpl in Hhp, Hmp, Hsize, Hdb, Henv, Hrp.
        rewrite map_size_insert_None in Hsize by exact Hm.
        split.
        { rewrite Hhp. apply pool_insert_union; [exact Hnotin|].
          rewrite length_chain_hashes. symmetry. apply length_fmap. }
        split.
        { rewrite Hmp. apply pool_insert_union; [exact Hnotin|].
          rewrite length_chain_hashes. symmetry. apply length_fmap. }
        split; [simpl length; lia|]. tauto.
Qed.

(** C4: [recover_state], once its root walk is through, walks the minor
    chain back from the given head: it loads the stored block at the
    current hash, pools its header and metadata under that hash and goes on
    to [hash_prev_minor_block], and stops exactly when the header pool has
    [max_minor_blocks_in_memory] entries or the block just visited is at
    height 0 or below.  [visited] is the part of the stored chain it walks;
    for a chain of 100 blocks and a limit of 10 it is the 10 most recent
    blocks, and the pools get exactly these. *)
Theorem recover_state_minor_walk fuel self r_header m_header self_r visited :
  recover_root_blocks fuel self (RootBlockHeader_get_hash r_header) = Ok self_r ->
  stored_chain (db self) (MinorBlockHeader_get_hash m_header) visited ->
  NoDup (chain_hashes (MinorBlockHeader_get_hash m_header) visited) ->
  (forall h, h ∈ chain_hashes (MinorBlockHeader_get_hash m_header) visited ->
             m_header_pool self !! h = None) ->
  heights_positive_but_last visited = true ->
  (visited = [] \/
   Z.of_nat (size (m_header_pool self) + length visited)
   <= max_minor_blocks_in_memory (env self)) ->
  (max_minor_blocks_in_memory (env self)
   <= Z.of_nat (size (m_header_pool self) + length visited) \/
   exists b, last visited = Some b /\ MinorBlockHeader.height (MinorBlock.header b) <= 0) ->
  (length visited < fuel)%nat ->
  exists self',
    recover_state fuel self r_header m_header = Ok self'
    /\ m_header_pool self'
       = list_to_map (zip (chain_hashes (MinorBlockHeader_get_hash m_header) visited)
                          (MinorBlock.header <$> visited))
         ∪ m_header_pool self
    /\ m_meta_pool self'
       = list_to_map (zip (chain_hashes (MinorBlockHeader_get_hash m_header) visited)
                          (MinorBlock.meta <$> visited))
         ∪ m_meta_pool self
    /\ size (m_header_pool self') = (size (m_header_pool self) + length visited)%nat
    /\ db self' = db self.
Proof.
  intros Hroot Hstored Hnd Hfresh Hpos Hroom Hstop Hfuel.
  pose proof (recover_root_blocks_frame _ _ _ _ Hroot) as (Henv & Hdb & Hhp & Hmp & _).
  destruct (recover_minor_blocks_walk visited fuel self_r (MinorBlockHeader_get_hash m_header))
    as (self' & Hrun & Hhp' & Hmp' & Hsize & Hdb' & _).
  - rewrite Hdb. exact Hstored.
  - exact Hnd.
  - intros h Hh. rewrite Hhp. apply Hfresh, Hh.
  - exact Hpos.
  - rewrite Hhp, Henv. exact Hroom.
  - rewrite Hhp, Henv. exact Hstop.
  - exact Hfuel.
  - exists self'. unfold recover_state. rewrite Hroot.
    split; [exact Hrun|].
    split; [rewrite Hhp', Hhp; reflexivity|].
    split; [rewrite Hmp', Hmp; reflexivity|].
    split; [rewrite Hsize, Hhp; reflexivity|].
    rewrite Hdb', Hdb. reflexivity.
Qed.

(** *** The per-height hash sets *)

(** Case analysis along the code of an operation that has returned. *)
Ltac unfold_result :=
  unfold mbind, mret, result_bind, result_ret, rbind, expect, state_of in *.

Ltac frame_step H :=
  match type of H with
  | Ok _ = Ok _ => injection H as H; try subst
  | Raise _ = Ok _ => discriminate H
  | context [match ?x with _ => _ end] => destruct x eqn:?; simpl in H
  | context [if ?x then _ else _] => destruct x eqn:?; simpl in H
  end.

Ltac frame H := unfold_result; simpl in H; repeat frame_step H; try reflexivity.

Lemma update_transaction_history_index_hashes self tx height index func self' :
  update_transaction_history_index self tx height index func = Ok self' ->
  height_to_minor_block_hashes self' = height_to_minor_block_hashes self.
Proof.
  unfold update_transaction_history_index. intros Hop. frame Hop.
Qed.

Lemma put_transaction_history_index_hashes self tx height index self' :
  put_transaction_history_index self tx height index = Ok self' ->
  height_to_minor_block_hashes self' = height_to_minor_block_hashes self.
Proof.
  unfold put_transaction_history_index. destruct (negb _); [intros [= <-]; reflexivity|].
  apply update_transaction_history_index_hashes.
Qed.

Lemma remove_transaction_history_index_hashes self tx height index self' :
  remove_transaction_history_index self tx height index = Ok self' ->
  height_to_minor_block_hashes self' = height_to_minor_block_hashes self.
Proof.
  unfold remove_transaction_history_index. destruct (negb _); [intros [= <-]; reflexivity|].
  apply update_transaction_history_index_hashes.
Qed.

Lemma update_history_from_deposits_hashes l :
  forall self height func i self',
    update_history_from_deposits self height func i l = Ok self' ->
    height_to_minor_block_hashes self' = height_to_minor_block_hashes self.
Proof.
  induction l as [|tx l IH]; intros self height func i self'; simpl.
  - intros [= <-]. reflexivity.
  - destruct (decide _); [apply IH|].
    destruct (encode_address_transaction_key _ _ _ _) as [key|]; simpl; [|discriminate].
    intros Hop. apply IH in Hop. exact Hop.
Qed.

Lemma update_transaction_history_index_from_block_hashes self b func self' :
  update_transaction_history_index_from_block self b func = Ok self' ->
  height_to_minor_block_hashes self' = height_to_minor_block_hashes self.
Proof.
  unfold update_transaction_history_index_from_block.
  destruct (get_confirmed_cross_shard_transaction_deposit_list _ _); simpl; [|discriminate].
  apply update_history_from_deposits_hashes.
Qed.

Lemma put_transaction_history_index_from_block_hashes self b self' :
  put_transaction_history_index_from_block self b = Ok self' ->
  height_to_minor_block_hashes self' = height_to_minor_block_hashes self.
Proof.
  unfold put_transaction_history_index_from_block.
  destruct (negb _); [intros [= <-]; reflexivity|].
  apply update_transaction_history_index_from_block_hashes.
Qed.

Lemma remove_transaction_history_index_from_block_hashes self b self' :
  remove_transaction_history_index_from_block self b = Ok self' ->
  height_to_minor_block_hashes self' = height_to_minor_block_hashes self.
Proof.
  unfold remove_transaction_history_index_from_block.
  destruct (negb _); [intros [= <-]; reflexivity|].
  apply update_transaction_history_index_from_block_hashes.
Qed.

Lemma recover_minor_blocks_hashes fuel :
  forall self m_hash self',
    recover_minor_blocks fuel self m_hash = Ok self' ->
    height_to_minor_block_hashes self' = height_to_minor_block_hashes self.
Proof.
  induction fuel as [|fuel IH]; intros self m_hash self'; simpl.
  - discriminate.
  - destruct (_ <? _); [|intros [= <-]; reflexivity].
    destruct (db_get _ _) as [data|]; simpl; [|discriminate].
    destruct (MinorBlock_deserialize data) as [block|]; simpl; [|discriminate].
    destruct (_ <=? _).
    + intros [= <-]. reflexivity.
    + intros Hrec. apply IH in Hrec. exact Hrec.
Qed.

Lemma recover_state_hashes fuel self r_header m_header self' :
  recover_state fuel self r_header m_header = Ok self' ->
  height_to_minor_block_hashes self' = height_to_minor_block_hashes self.
Proof.
  unfold recover_state.
  destruct (recover_root_blocks _ _ _) as [self1|] eqn:E1; simpl; [|discriminate].
  intros Hm. apply recover_minor_blocks_hashes in Hm.
  apply recover_root_blocks_frame in E1. rewrite Hm. tauto.
Qed.

Lemma get_root_block_by_hash_hashes self h o self' :
  get_root_block_by_hash self h = Ok (o, self') ->
  height_to_minor_block_hashes self' = height_to_minor_block_hashes self.
Proof. unfold get_root_block_by_hash. intros Hop. frame Hop. Qed.

Lemma get_root_block_header_by_hash_hashes self h o self' :
  get_root_block_header_by_hash self h = Ok (o, self') ->
  height_to_minor_block_hashes self' = height_to_minor_block_hashes self.
Proof.
  unfold get_root_block_header_by_hash.
  destruct (r_header_pool self !! h); [intros [= <- <-]; reflexivity|].
  destruct (get_root_block_by_hash self h) as [[o1 self1]|] eqn:E1; simpl; [|discriminate].
  apply get_root_block_by_hash_hashes in E1.
  destruct o1; intros [= <- <-]; exact E1.
Qed.

Lemma root_header_walk_hashes fuel :
  forall self r_header height o self',
    root_header_walk fuel self r_header height = Ok (o, self') ->
    height_to_minor_block_hashes self' = height_to_minor_block_hashes self.
Proof.
  induction fuel as [|fuel IH]; intros self r_header height o self'; simpl.
  - discriminate.
  - destruct (negb _); [|intros [= <- <-]; reflexivity].
    destruct (get_root_block_header_by_hash _ _) as [[o1 self1]|] eqn:E1; simpl;
      [|discriminate].
    apply get_root_block_header_by_hash_hashes in E1.
    destruct o1 as [r1|]; simpl; [|discriminate].
    intros Hw. apply IH in Hw. congruence.
Qed.

Lemma get_root_block_header_by_height_hashes fuel self h height o self' :
  get_root_block_header_by_height fuel self h height = Ok (o, self') ->
  height_to_minor_block_hashes self' = height_to_minor_block_hashes self.
Proof.
  unfold get_root_block_header_by_height.
  destruct (get_root_block_header_by_hash _ _) as [[o1 self1]|] eqn:E1; simpl;
    [|discriminate].
  apply get_root_block_header_by_hash_hashes in E1.
  destruct o1 as [r1|]; simpl; [|discriminate].
  destruct (_ <? _); [intros [= <- <-]; exact E1|].
  intros Hw. apply root_header_walk_hashes in Hw. congruence.
Qed.

Lemma get_minor_block_header_by_hash_hashes self h o self' :
  get_minor_block_header_by_hash self h = Ok (o, self') ->
  height_to_minor_block_hashes self' = height_to_minor_block_hashes self.
Proof.
  unfold get_minor_block_header_by_hash.
  destruct (get_minor_block_by_hash self h) as [[b|]|]; simpl; try discriminate;
    intros [= <- <-]; reflexivity.
Qed.

Lemma get_minor_block_meta_by_hash_hashes self h o self' :
  get_minor_block_meta_by_hash self h = Ok (o, self') ->
  height_to_minor_block_hashes self' = height_to_minor_block_hashes self.
Proof.
  unfold get_minor_block_meta_by_hash.
  destruct (get_minor_block_by_hash self h) as [[b|]|]; simpl; try discriminate;
    intros [= <- <-]; reflexivity.
Qed.

Lemma put_total_tx_count_hashes self b self' :
  put_total_tx_count self b = Ok self' ->
  height_to_minor_block_hashes self' = height_to_minor_block_hashes self.
Proof. intros Hop. apply put_total_tx_count_Ok in Hop as (bs & _ & ->). reflexivity. Qed.

Lemma put_transaction_index_hashes self tx height index self' :
  put_transaction_index self tx height index = Ok self' ->
  height_to_minor_block_hashes self' = height_to_minor_block_hashes self.
Proof.
  unfold put_transaction_index.
  destruct (to_bytes 4 height); simpl; [|discriminate].
  destruct (to_bytes 4 index); simpl; [|discriminate].
  intros Hop. apply put_transaction_history_index_hashes in Hop. exact Hop.
Qed.

Lemma remove_transaction_index_hashes self tx height index self' :
  remove_transaction_index self tx height index = Ok self' ->
  height_to_minor_block_hashes self' = height_to_minor_block_hashes self.
Proof.
  unfold remove_transaction_index.
  intros Hop. apply remove_transaction_history_index_hashes in Hop. exact Hop.
Qed.

Lemma for_each_transaction_hashes f l :
  (forall self tx height i self',
     f self tx height i = Ok self' ->
     height_to_minor_block_hashes self' = height_to_minor_block_hashes self) ->
  forall self height i self',
    for_each_transaction f self height i l = Ok self' ->
    height_to_minor_block_hashes self' = height_to_minor_block_hashes self.
Proof.
  intros Hf. induction l as [|tx l IH]; intros self height i self'; simpl.
  - intros [= <-]. reflexivity.
  - destruct (f self tx height i) as [self1|] eqn:E1; simpl; [|discriminate].
    apply Hf in E1. intros Hl. apply IH in Hl. congruence.
Qed.

Lemma hashes_at_same self self' h :
  height_to_minor_block_hashes self' = height_to_minor_block_hashes self ->
  hashes_at self' h = hashes_at self h.
Proof. unfold hashes_at. intros ->. reflexivity. Qed.

Lemma put_minor_block_hashes self B xs self' h :
  put_minor_block self B xs = Ok self' ->
  hashes_at self' h
  = hashes_at self h
    ∪ (if decide (MinorBlockHeader.height (MinorBlock.header B) = h)
       then {[MinorBlockHeader_get_hash (MinorBlock.header B)]} else ∅).
Proof.
  unfold put_minor_block.
  destruct (put_total_tx_count _ B) as [self1|] eqn:E1; simpl; [|discriminate].
  apply put_total_tx_count_hashes in E1. simpl in E1.
  intros [= <-].
  unfold put_confirmed_cross_shard_transaction_deposit_list, hashes_at.
  destruct (negb _); simpl; rewrite E1;
    (destruct (decide (MinorBlockHeader.height (MinorBlock.header B) = h)) as [->|Hne];
     [rewrite lookup_insert_eq; reflexivity
     |rewrite lookup_insert_ne by exact Hne; rewrite (right_id_L ∅ (∪)); reflexivity]).
Qed.

Lemma get_block_count_by_height_hashes self height h :
  hashes_at (snd (get_block_count_by_height self height)) h = hashes_at self h.
Proof.
  unfold get_block_count_by_height, hashes_at.
  destruct (height_to_minor_block_hashes self !! height) eqn:E; simpl; [reflexivity|].
  destruct (decide (height = h)) as [->|Hne].
  - rewrite lookup_insert_eq, E. reflexivity.
  - rewrite lookup_insert_ne by exact Hne. reflexivity.
Qed.

Lemma get_block_count_by_height_size self height :
  fst (get_block_count_by_height self height) = Z.of_nat (size (hashes_at self height)).
Proof.
  unfold get_block_count_by_height, hashes_at.
  destruct (height_to_minor_block_hashes self !! height); reflexivity.
Qed.

(** What one operation does to the set kept for a height. *)
Lemma exec_hashes op self self' h :
  exec op self = Ok self' ->
  hashes_at self' h = hashes_at self h ∪ stored_at h [op].
Proof.
  destruct op; simpl exec; simpl stored_at; rewrite ?(right_id_L ∅ (∪));
    try (intros [= <-]; apply hashes_at_same; reflexivity);
    try (intros [= <-]; apply get_block_count_by_height_hashes);
    try (intros Hop; apply hashes_at_same; revert Hop).
  - apply recover_state_hashes.
  - destruct (get_root_block_by_hash _ _) as [[o s1]|] eqn:E; simpl; [|discriminate].
    intros [= <-]. eapply get_root_block_by_hash_hashes; eauto.
  - destruct (get_root_block_header_by_hash _ _) as [[o s1]|] eqn:E; simpl; [|discriminate].
    intros [= <-]. eapply get_root_block_header_by_hash_hashes; eauto.
  - destruct (get_root_block_header_by_height _ _ _ _) as [[o s1]|] eqn:E; simpl;
      [|discriminate].
    intros [= <-]. eapply get_root_block_header_by_height_hashes; eauto.
  - unfold get_last_confirmed_minor_block_header_at_root_block.
    destruct (db_get _ _) as [[|b l]|]; simpl; try (intros [= <-]; reflexivity).
    destruct (get_minor_block_header_by_hash _ _) as [[o s1]|] eqn:E; simpl; [|discriminate].
    intros [= <-]. eapply get_minor_block_header_by_hash_hashes; eauto.
  - apply put_minor_block_hashes.
  - apply put_total_tx_count_hashes.
  - destruct (get_minor_block_header_by_hash _ _) as [[o s1]|] eqn:E; simpl; [|discriminate].
    intros [= <-]. eapply get_minor_block_header_by_hash_hashes; eauto.
  - unfold get_minor_block_evm_root_hash_by_hash.
    destruct (get_minor_block_meta_by_hash _ _) as [[o s1]|] eqn:E; simpl; [|discriminate].
    intros [= <-]. eapply get_minor_block_meta_by_hash_hashes; eauto.
  - destruct (get_minor_block_meta_by_hash _ _) as [[o s1]|] eqn:E; simpl; [|discriminate].
    intros [= <-]. eapply get_minor_block_meta_by_hash_hashes; eauto.
  - apply put_transaction_index_hashes.
  - apply remove_transaction_index_hashes.
  - unfold put_transaction_index_from_block.
    destruct (for_each_transaction _ _ _ _ _) as [s1|] eqn:E; simpl; [|discriminate].
    apply for_each_transaction_hashes in E; [|apply put_transaction_index_hashes].
    intros Hop. apply put_transaction_history_index_from_block_hashes in Hop. congruence.
  - unfold remove_transaction_index_from_block.
    destruct (for_each_transaction _ _ _ _ _) as [s1|] eqn:E; simpl; [|discriminate].
    apply for_each_transaction_hashes in E; [|apply remove_transaction_index_hashes].
    intros Hop. apply remove_transaction_history_index_from_block_hashes in Hop. congruence.
  - intros [= <-]. unfold put_confirmed_cross_shard_transaction_deposit_list.
    destruct (negb _); reflexivity.
  - apply put_transaction_history_index_hashes.
  - apply remove_transaction_history_index_hashes.
  - apply put_transaction_history_index_from_block_hashes.
  - apply remove_transaction_history_index_from_block_hashes.
Qed.

Lemma stored_at_cons h op ops : stored_at h (op :: ops) = stored_at h [op] ∪ stored_at h ops.
Proof.
  destruct op; simpl; rewrite ?(left_id_L ∅ (∪)), ?(right_id_L ∅ (∪)); reflexivity.
Qed.

Lemma run_hashes ops :
  forall self self' h,
    run ops self = Ok self' ->
    hashes_at self' h = hashes_at self h ∪ stored_at h ops.
Proof.
  induction ops as [|op ops IH]; intros self self' h; simpl run.
  - intros [= <-]. simpl. rewrite (right_id_L ∅ (∪)). reflexivity.
  - rewrite (stored_at_cons h op ops).
    destruct (exec op self) as [self1|] eqn:E1; [|discriminate].
    cbn [mbind result_bind rbind].
    intros Hrun. apply (IH _ _ h) in Hrun. apply (exec_hashes _ _ _ h) in E1.
    rewrite Hrun, E1, (assoc_L (∪)). reflexivity.
Qed.

(** C6: [put_minor_block] adds the hash of the block to the set of its
    height; no operation takes a hash out of a set, and
    [remove_minor_block_index] leaves the sets as they are; after any run of
    operations from a new operator the count at a height is the number of
    distinct hashes of the minor blocks stored at that height; so, after a
    3-way fork at a height, it is 3, also once one of the three is removed
    from the positional index. *)
Theorem height_to_minor_block_hashes_only_grows :
  (forall self B xs self',
     put_minor_block self B xs = Ok self' ->
     MinorBlockHeader_get_hash (MinorBlock.header B)
     ∈ hashes_at self' (MinorBlockHeader.height (MinorBlock.header B)))
  /\ (forall op self self' h, exec op self = Ok self' -> hashes_at self h ⊆ hashes_at self' h)
  /\ (forall self B h, hashes_at (remove_minor_block_index self B) h = hashes_at self h)
  /\ (forall ops db0 env0 self h,
        run ops (init db0 env0) = Ok self ->
        hashes_at self h = stored_at h ops
        /\ fst (get_block_count_by_height self h) = Z.of_nat (size (stored_at h ops)))
  /\ (forall db0 env0 B1 B2 B3 x1 x2 x3 Br self h,
        MinorBlockHeader.height (MinorBlock.header B1) = h ->
        MinorBlockHeader.height (MinorBlock.header B2) = h ->
        MinorBlockHeader.height (MinorBlock.header B3) = h ->
        MinorBlockHeader_get_hash (MinorBlock.header B1)
        <> MinorBlockHeader_get_hash (MinorBlock.header B2) ->
        MinorBlockHeader_get_hash (MinorBlock.header B1)
        <> MinorBlockHeader_get_hash (MinorBlock.header B3) ->
        MinorBlockHeader_get_hash (MinorBlock.header B2)
        <> MinorBlockHeader_get_hash (MinorBlock.header B3) ->
        run [PutMinorBlock B1 x1; PutMinorBlock B2 x2; PutMinorBlock B3 x3] (init db0 env0)
        = Ok self ->
        fst (get_block_count_by_height self h) = 3
        /\ fst (get_block_count_by_height (remove_minor_block_index self Br) h) = 3).
Proof.
  split; [|split; [|split; [|split]]].
  - intros self B xs self' Hput.
    rewrite (put_minor_block_hashes _ _ _ _ _ Hput).
    destruct (decide _) as [_|Hne]; [|congruence]. set_solver.
  - intros op self self' h Hop. rewrite (exec_hashes _ _ _ h Hop). set_solver.
  - intros self B h. reflexivity.
  - intros ops db0 env0 self h Hrun.
    pose proof (run_hashes _ _ _ h Hrun) as Hh.
    assert (hashes_at (init db0 env0) h = ∅) as H0 by reflexivity.
    rewrite H0, (left_id_L ∅ (∪)) in Hh.
    split; [exact Hh|]. rewrite get_block_count_by_height_size, Hh. reflexivity.
  - intros db0 env0 B1 B2 B3 x1 x2 x3 Br self h H1 H2 H3 N12 N13 N23 Hrun.
    pose proof (run_hashes _ _ _ h Hrun) as Hh.
    assert (hashes_at (init db0 env0) h = ∅) as H0 by reflexivity.
    rewrite H0, (left_id_L ∅ (∪)) in Hh. simpl in Hh.
    rewrite !decide_True, (right_id_L ∅ (∪)) in Hh by assumption.
    assert (size (hashes_at self h) = 3%nat) as Hsize.
    { rewrite Hh.
      rewrite size_union.
      2:{ apply disjoint_singleton_l. rewrite not_elem_of_union.
          split; apply not_elem_of_singleton_2; congruence. }
      rewrite size_union.
      2:{ apply disjoint_singleton_l, not_elem_of_singleton_2. congruence. }
      rewrite !size_singleton. reflexivity. }
    rewrite !get_block_count_by_height_size.
    assert (hashes_at (remove_minor_block_index self Br) h = hashes_at self h) as ->
      by reflexivity.
    rewrite Hsize. split; reflexivity.
Qed.

End Properties.

(** ** Further properties of the operator *)

(** Two keys that differ within their first three bytes differ. *)
Ltac key_neq3 :=
  let E := fresh "E" in
  intros E; apply (f_equal (take 3)) in E; vm_compute in E; discriminate E.

Section StoreProperties.
Context `{Collaborators}.

(** *** Minor blocks: what [put_minor_block] leaves *)

Lemma put_minor_block_Ok self B xs self' :
  put_minor_block self B xs = Ok self' ->
  let h := MinorBlockHeader_get_hash (MinorBlock.header B) in
  exists bs,
    db self'
    = (if ENABLE_TRANSACTION_HISTORY (env self)
       then <[blit "xr_" ++ h := CrossShardTransactionList_serialize xs]>
       else fun d => d)
        (<[blit "tx_count_" ++ h := bs]>
           (<[blit "mblock_" ++ h := MinorBlock_serialize B]> (db self)))
    /\ m_header_pool self' = <[h := MinorBlock.header B]> (m_header_pool self)
    /\ m_meta_pool self' = <[h := MinorBlock.meta B]> (m_meta_pool self)
    /\ r_header_pool self' = r_header_pool self
    /\ env self' = env self.
Proof.
  intros Hput h. unfold put_minor_block in Hput.
  destruct (put_total_tx_count _ B) as [s1|e] eqn:E1; simpl in Hput; [|discriminate].
  injection Hput as <-.
  apply put_total_tx_count_Ok in E1 as (bs & _ & ->).
  exists bs. unfold put_confirmed_cross_shard_transaction_deposit_list. simpl.
  destruct (ENABLE_TRANSACTION_HISTORY (env self)); simpl; repeat split.
Qed.

Lemma put_minor_block_get self B xs self' :
  put_minor_block self B xs = Ok self' ->
  MinorBlock_serialize B <> [] ->
  MinorBlock_deserialize (MinorBlock_serialize B) = Some B ->
  db self' !! (blit "mblock_" ++ MinorBlockHeader_get_hash (MinorBlock.header B))
  = Some (MinorBlock_serialize B)
  /\ get_minor_block_by_hash self' (MinorBlockHeader_get_hash (MinorBlock.header B))
     = Ok (Some B).
Proof.
  intros Hput Hne Hrt.
  apply put_minor_block_Ok in Hput as (bs & Hdb & _).
  assert (db self' !! (blit "mblock_" ++ MinorBlockHeader_get_hash (MinorBlock.header B))
          = Some (MinorBlock_serialize B)) as Hlook.
  { rewrite Hdb. destruct (ENABLE_TRANSACTION_HISTORY (env self)).
    - rewrite lookup_insert_ne by key_neq. rewrite lookup_insert_ne by key_neq.
      apply lookup_insert_eq.
    - rewrite lookup_insert_ne by key_neq. apply lookup_insert_eq. }
  split; [exact Hlook|].
  unfold get_minor_block_by_hash, db_get.
  rewrite Hlook, truthy_Some_nonempty by exact Hne. simpl. rewrite Hrt. reflexivity.
Qed.

(** X1: a minor block that [put_minor_block] has stored is read back, by
    its hash, as the block, as its header and as its metadata, and is
    contained, when the codec reads back what it wrote. *)
Theorem put_minor_block_roundtrip self B xs self' :
  put_minor_block self B xs = Ok self' ->
  MinorBlock_serialize B <> [] ->
  MinorBlock_deserialize (MinorBlock_serialize B) = Some B ->
  let h := MinorBlockHeader_get_hash (MinorBlock.header B) in
  get_minor_block_by_hash self' h = Ok (Some B)
  /\ (exists s, get_minor_block_header_by_hash self' h = Ok (Some (MinorBlock.header B), s))
  /\ (exists s, get_minor_block_meta_by_hash self' h = Ok (Some (MinorBlock.meta B), s))
  /\ m_header_pool self' !! h = Some (MinorBlock.header B)
  /\ m_meta_pool self' !! h = Some (MinorBlock.meta B)
  /\ contain_minor_block_by_hash self' h = true.
Proof.
  intros Hput Hne Hrt h.
  pose proof (put_minor_block_get _ _ _ _ Hput Hne Hrt) as (_ & Hget). fold h in Hget.
  apply put_minor_block_Ok in Hput as (bs & _ & Hhp & Hmp & _ & _). fold h in Hhp, Hmp.
  split; [exact Hget|]. split.
  { unfold get_minor_block_header_by_hash. rewrite Hget. simpl. eauto. }
  split.
  { unfold get_minor_block_meta_by_hash. rewrite Hget. simpl. eauto. }
  split; [rewrite Hhp; apply lookup_insert_eq|].
  split; [rewrite Hmp; apply lookup_insert_eq|].
  unfold contain_minor_block_by_hash. rewrite Hhp, lookup_insert_eq. reflexivity.
Qed.

(** *** Root blocks *)

(** X2: after [put_root_block] the header is pooled under the hash used
    (the override when one is given), the header lookup answers from the
    pool and leaves the state as it is, the block is contained, and the
    block lookup reads the block back from the store. *)
Theorem put_root_block_roundtrip self root_block r_minor_header root_block_hash :
  RootBlock_serialize root_block <> [] ->
  RootBlock_deserialize (RootBlock_serialize root_block) = Some root_block ->
  let h := match root_block_hash with
           | None => RootBlockHeader_get_hash (RootBlock.header root_block)
           | Some h => h
           end in
  let self' := put_root_block self root_block r_minor_header root_block_hash in
  r_header_pool self' !! h = Some (RootBlock.header root_block)
  /\ get_root_block_header_by_hash self' h = Ok (Some (RootBlock.header root_block), self')
  /\ get_root_block_by_hash self' h
     = Ok (Some root_block,
           with_r_header_pool self'
             (<[h := RootBlock.header root_block]> (r_header_pool self')))
  /\ contain_root_block_by_hash self' h = true.
Proof.
  intros Hne Hrt h self'.
  assert (r_header_pool self' !! h = Some (RootBlock.header root_block)) as Hp.
  { unfold self', put_root_block. simpl. apply lookup_insert_eq. }
  assert (db self' !! (blit "rblock_" ++ h) = Some (RootBlock_serialize root_block)) as Hd.
  { unfold self', put_root_block, db_put. simpl. fold h.
    rewrite lookup_insert_ne by key_neq3. apply lookup_insert_eq. }
  split; [exact Hp|]. split.
  { unfold get_root_block_header_by_hash. rewrite Hp. reflexivity. }
  split.
  { unfold get_root_block_by_hash, db_get.
    rewrite Hd, truthy_Some_nonempty by exact Hne. simpl. rewrite Hrt. reflexivity. }
  unfold contain_root_block_by_hash. rewrite Hp. reflexivity.
Qed.

(** X3: the pointer that [put_root_block] records resolves to nothing when
    no minor header was given, and otherwise to the minor header stored
    under the given header's hash: for a block put with [put_minor_block]
    before, to that block's header. *)
Theorem last_confirmed_minor_block_header self B xs self1 root_block root_block_hash :
  put_minor_block self B xs = Ok self1 ->
  MinorBlock_serialize B <> [] ->
  MinorBlock_deserialize (MinorBlock_serialize B) = Some B ->
  MinorBlockHeader_get_hash (MinorBlock.header B) <> [] ->
  let h := match root_block_hash with
           | None => RootBlockHeader_get_hash (RootBlock.header root_block)
           | Some h => h
           end in
  (exists s,
     get_last_confirmed_minor_block_header_at_root_block
       (put_root_block self1 root_block (Some (MinorBlock.header B)) root_block_hash) h
     = Ok (Some (MinorBlock.header B), s))
  /\ get_last_confirmed_minor_block_header_at_root_block
       (put_root_block self1 root_block None root_block_hash) h
     = Ok (None, put_root_block self1 root_block None root_block_hash).
Proof.
  intros Hput Hne Hrt Hh h.
  pose proof (put_minor_block_get _ _ _ _ Hput Hne Hrt) as (_ & Hget).
  split.
  - unfold get_last_confirmed_minor_block_header_at_root_block, db_get.
    unfold put_root_block at 1. unfold db_put. simpl. fold h.
    rewrite lookup_insert_eq.
    remember (MinorBlockHeader_get_hash (MinorBlock.header B)) as mh eqn:Emh.
    destruct mh as [|b0 l0]; [congruence|].
    unfold get_minor_block_header_by_hash.
    assert (get_minor_block_by_hash
              (put_root_block self1 root_block (Some (MinorBlock.header B)) root_block_hash)
              (b0 :: l0) = Ok (Some B)) as ->.
    { unfold get_minor_block_by_hash, db_get in *. unfold put_root_block, db_put. simpl.
      fold h. rewrite !lookup_insert_ne by key_neq. exact Hget. }
    simpl. eauto.
  - unfold get_last_confirmed_minor_block_header_at_root_block, db_get.
    unfold put_root_block at 1. unfold db_put. simpl. fold h.
    rewrite lookup_insert_eq. reflexivity.
Qed.

(** *** Genesis blocks and cross-shard lists *)

Lemma key_inj (p a b : bytes) : p ++ a = p ++ b -> a = b.
Proof. apply app_inv_head. Qed.

(** X4: the genesis block put for a root hash is read back for that hash,
    the genesis blocks of the other root hashes read as before, and a root
    hash without one reads as [None]. *)
Theorem genesis_block_roundtrip self root_block_hash genesis_block :
  MinorBlock_serialize genesis_block <> [] ->
  MinorBlock_deserialize (MinorBlock_serialize genesis_block) = Some genesis_block ->
  get_genesis_block (put_genesis_block self root_block_hash genesis_block) root_block_hash
  = Ok (Some genesis_block)
  /\ (forall other,
        other <> root_block_hash ->
        get_genesis_block (put_genesis_block self root_block_hash genesis_block) other
        = get_genesis_block self other)
  /\ (forall other,
        db self !! (blit "genesis_" ++ other) = None ->
        get_genesis_block self other = Ok None).
Proof.
  intros Hne Hrt. unfold get_genesis_block, put_genesis_block, db_get, db_put. simpl.
  split; [|split].
  - rewrite lookup_insert_eq, truthy_Some_nonempty by exact Hne. simpl.
    rewrite Hrt. reflexivity.
  - intros other Hother. rewrite lookup_insert_ne; [reflexivity|].
    intros E. apply (key_inj (blit "genesis_")) in E. congruence.
  - intros other ->. reflexivity.
Qed.

(** X5: the cross-shard list put for a minor block hash is read back for
    that hash and is contained; the other hashes read as before; a hash
    without a list reads as [None] and is not contained. *)
Theorem minor_block_xshard_tx_list_roundtrip self h tx_list :
  CrossShardTransactionList_deserialize (CrossShardTransactionList_serialize tx_list)
  = Some tx_list ->
  get_minor_block_xshard_tx_list (put_minor_block_xshard_tx_list self h tx_list) h
  = Ok (Some tx_list)
  /\ contain_remote_minor_block_hash (put_minor_block_xshard_tx_list self h tx_list) h = true
  /\ (forall other,
        other <> h ->
        get_minor_block_xshard_tx_list (put_minor_block_xshard_tx_list self h tx_list) other
        = get_minor_block_xshard_tx_list self other
        /\ contain_remote_minor_block_hash (put_minor_block_xshard_tx_list self h tx_list) other
           = contain_remote_minor_block_hash self other)
  /\ (forall other,
        db self !! (blit "xShard_" ++ other) = None ->
        get_minor_block_xshard_tx_list self other = Ok None
        /\ contain_remote_minor_block_hash self other = false).
Proof.
  intros Hrt.
  unfold get_minor_block_xshard_tx_list, contain_remote_minor_block_hash,
    put_minor_block_xshard_tx_list, db_get, db_put, db_contains. simpl.
  split; [|split; [|split]].
  - rewrite lookup_insert_eq. simpl. rewrite Hrt. reflexivity.
  - rewrite lookup_insert_eq. reflexivity.
  - intros other Hother.
    rewrite lookup_insert_ne; [split; reflexivity|].
    intros E. apply (key_inj (blit "xShard_")) in E. congruence.
  - intros other ->. split; reflexivity.
Qed.

End StoreProperties.

Section IndexProperties.
Context `{Collaborators}.

(** *** The positional index *)

Lemma decimal_inj a b : decimal a = decimal b -> a = b.
Proof.
  unfold decimal. intros E.
  apply (f_equal string_of_list_byte) in E.
  rewrite !string_of_list_byte_of_string in E.
  assert (forall z, NilZero.int_of_string (NilZero.string_of_int (Z.to_int z))
                    = Some (Z.to_int z)) as Hisi.
  { intros z. apply NilZero.isi; destruct z; simpl; try discriminate;
      intros [= E']; try (apply DecimalPos.Unsigned.to_uint_nonnil in E'; exact E'). }
  apply DecimalZ.to_int_inj.
  pose proof (Hisi a) as Ha. rewrite E, Hisi in Ha. congruence.
Qed.

Lemma get_minor_block_by_hash_same_store self self' h :
  db self' !! (blit "mblock_" ++ h) = db self !! (blit "mblock_" ++ h) ->
  get_minor_block_by_hash self' h = get_minor_block_by_hash self h.
Proof. unfold get_minor_block_by_hash, db_get. intros ->. reflexivity. Qed.

Lemma get_minor_block_by_height_same_store self self' height :
  db self' !! (blit "mi_" ++ decimal height) = db self !! (blit "mi_" ++ decimal height) ->
  (forall h, db self' !! (blit "mblock_" ++ h) = db self !! (blit "mblock_" ++ h)) ->
  get_minor_block_by_height self' height = get_minor_block_by_height self height.
Proof.
  intros Hmi Hmb. unfold get_minor_block_by_height, db_contains, db_get. rewrite Hmi.
  destruct (db self !! (blit "mi_" ++ decimal height)); simpl; [|reflexivity].
  apply get_minor_block_by_hash_same_store, Hmb.
Qed.

Lemma minor_block_index_lookup self block :
  get_minor_block_by_height (put_minor_block_index self block)
    (MinorBlockHeader.height (MinorBlock.header block))
  = get_minor_block_by_hash self (MinorBlockHeader_get_hash (MinorBlock.header block)).
Proof.
  unfold get_minor_block_by_height, put_minor_block_index, db_contains, db_get, db_put.
  simpl. rewrite lookup_insert_eq. simpl.
  apply get_minor_block_by_hash_same_store. simpl.
  apply lookup_insert_ne. key_neq3.
Qed.

(** X6: [put_minor_block_index] makes the lookup by the block's height
    return what the store holds under the block's hash; after
    [remove_minor_block_index] that height reads as [None]; both leave the
    lookups at the other heights as they were. *)
Theorem minor_block_index_roundtrip self block :
  let height := MinorBlockHeader.height (MinorBlock.header block) in
  get_minor_block_by_height (put_minor_block_index self block) height
  = get_minor_block_by_hash self (MinorBlockHeader_get_hash (MinorBlock.header block))
  /\ get_minor_block_by_height (remove_minor_block_index self block) height = Ok None
  /\ (forall other,
        other <> height ->
        get_minor_block_by_height (put_minor_block_index self block) other
        = get_minor_block_by_height self other
        /\ get_minor_block_by_height (remove_minor_block_index self block) other
           = get_minor_block_by_height self other).
Proof.
  intros height. split; [|split].
  - apply minor_block_index_lookup.
  - unfold get_minor_block_by_height, remove_minor_block_index, db_contains, db_remove.
    simpl. fold height. rewrite lookup_delete_eq. reflexivity.
  - intros other Hother.
    assert (blit "mi_" ++ decimal height <> blit "mi_" ++ decimal other) as Hk.
    { intros E. apply key_inj, decimal_inj in E. congruence. }
    split; apply get_minor_block_by_height_same_store;
      unfold put_minor_block_index, remove_minor_block_index, db_put, db_remove; simpl;
      fold height; intros;
      first [apply lookup_insert_ne|apply lookup_delete_ne]; first [exact Hk|key_neq3].
Qed.

(** *** The transaction index *)

Lemma encode_address_transaction_key_Ok address height index cross_shard k :
  encode_address_transaction_key address height index cross_shard = Ok k ->
  k = blit "addr_" ++ Address_serialize address ++ be_digits 4 height
      ++ (if cross_shard then [x00] else [x01]) ++ be_digits 4 index
  /\ 0 <= height < 2 ^ 32 /\ 0 <= index < 2 ^ 32.
Proof.
  unfold encode_address_transaction_key.
  destruct (to_bytes 4 height) as [hb|] eqn:Eh; simpl; [|discriminate].
  destruct (to_bytes 4 index) as [ib|] eqn:Ei; simpl; [|discriminate].
  apply to_bytes_Ok in Eh as [Hh ->], Ei as [Hi ->].
  intros [= <-]. change (Z.of_nat 4) with 4 in *. repeat split; lia.
Qed.

Lemma history_index_keys_prefix tx height index keys :
  history_index_keys tx height index = Ok keys ->
  Forall (fun k => take 5 k = blit "addr_") keys.
Proof.
  unfold history_index_keys, encode_address_transaction_key.
  destruct (to_bytes 4 height) as [hb|]; simpl; [|discriminate].
  destruct (to_bytes 4 index) as [ib|]; simpl; [|discriminate].
  destruct (match to (to_evm_tx tx) with [] => false | _ :: _ => _ end);
    intros [= <-]; repeat constructor.
Qed.

(** [__update_transaction_history_index] applies [func] to the keys of the
    transaction, one after the other. *)
Lemma update_transaction_history_index_keys self tx height index func :
  update_transaction_history_index self tx height index func
  = (keys ← history_index_keys tx height index;
     mret (with_db self (foldl (fun d k => func k [] d) (db self) keys))).
Proof.
  unfold update_transaction_history_index, history_index_keys,
    encode_address_transaction_key.
  destruct (to_bytes 4 height) as [hb|]; simpl; [|reflexivity].
  destruct (to_bytes 4 index) as [ib|]; simpl; [|reflexivity].
  destruct (match to (to_evm_tx tx) with [] => false | _ :: _ => _ end); reflexivity.
Qed.

Lemma lookup_db_put (d : gmap bytes bytes) (k v j : bytes) :
  db_put d k v !! j = if decide (j = k) then Some v else d !! j.
Proof.
  unfold db_put. destruct (decide (j = k)) as [->|Hne].
  - apply lookup_insert_eq.
  - apply lookup_insert_ne. congruence.
Qed.

Lemma lookup_db_remove (d : gmap bytes bytes) (k j : bytes) :
  db_remove d k !! j = if decide (j = k) then None else d !! j.
Proof.
  unfold db_remove. destruct (decide (j = k)) as [->|Hne].
  - apply lookup_delete_eq.
  - apply lookup_delete_ne. congruence.
Qed.

Lemma lookup_foldl_put (d : gmap bytes bytes) (ks : list bytes) (v j : bytes) :
  foldl (fun d k => db_put d k v) d ks !! j
  = if decide (j ∈ ks) then Some v else d !! j.
Proof.
  revert d. induction ks as [|k ks IH]; intros d; simpl.
  - reflexivity.
  - rewrite IH. unfold db_put.
    destruct (decide (j ∈ ks)) as [Hin|Hnin].
    + rewrite decide_True by (right; exact Hin). reflexivity.
    + destruct (decide (j = k)) as [->|Hne].
      * rewrite decide_True by left. apply lookup_insert_eq.
      * rewrite decide_False by (rewrite elem_of_cons; tauto).
        apply lookup_insert_ne. congruence.
Qed.

Lemma lookup_foldl_remove (d : gmap bytes bytes) (ks : list bytes) (j : bytes) :
  foldl (fun d k => db_remove d k) d ks !! j
  = if decide (j ∈ ks) then None else d !! j.
Proof.
  revert d. induction ks as [|k ks IH]; intros d; simpl.
  - reflexivity.
  - rewrite IH. unfold db_remove.
    destruct (decide (j ∈ ks)) as [Hin|Hnin].
    + rewrite decide_True by (right; exact Hin). reflexivity.
    + destruct (decide (j = k)) as [->|Hne].
      * rewrite decide_True by left. apply lookup_delete_eq.
      * rewrite decide_False by (rewrite elem_of_cons; tauto).
        apply lookup_delete_ne. congruence.
Qed.

(** [put_transaction_index] writes the location under the [txindex_] key and
    then, with the history flag on, the empty value under the keys of the
    transaction. *)
Lemma put_transaction_index_keys self tx height index :
  put_transaction_index self tx height index
  = (keys ← history_index_keys tx height index;
     mret (with_db self
             (foldl (fun d k => db_put d k [])
                (db_put (db self) (blit "txindex_" ++ Transaction_get_hash tx)
                   (be_digits 4 height ++ be_digits 4 index))
                (if ENABLE_TRANSACTION_HISTORY (env self) then keys else [])))).
Proof.
  assert (forall e,
            to_bytes 4 height = Raise e \/
            (exists hb, to_bytes 4 height = Ok hb /\ to_bytes 4 index = Raise e) ->
            history_index_keys tx height index = Raise e) as Hfail.
  { intros e He. unfold history_index_keys, encode_address_transaction_key.
    destruct He as [->|(hb & -> & ->)]; reflexivity. }
  unfold put_transaction_index.
  destruct (to_bytes 4 height) as [hb|e] eqn:Eh.
  2:{ rewrite (Hfail e) by (left; reflexivity). reflexivity. }
  destruct (to_bytes 4 index) as [ib|e] eqn:Ei.
  2:{ rewrite (Hfail e) by (right; eauto). reflexivity. }
  cbn [mbind result_bind rbind].
  assert (exists keys, history_index_keys tx height index = Ok keys) as [keys Hk].
  { unfold history_index_keys, encode_address_transaction_key. rewrite Eh, Ei.
    cbn [mbind result_bind rbind mret result_ret].
    destruct (match to (to_evm_tx tx) with [] => false | _ :: _ => _ end); eauto. }
  rewrite Hk. cbn [mbind result_bind rbind mret result_ret].
  apply to_bytes_Ok in Eh as [_ ->], Ei as [_ ->].
  unfold put_transaction_history_index. cbn [env with_db].
  destruct (ENABLE_TRANSACTION_HISTORY (env self)); cbn [negb]; [|reflexivity].
  rewrite update_transaction_history_index_keys, Hk. reflexivity.
Qed.

Lemma put_transaction_index_Ok self tx height index self' :
  put_transaction_index self tx height index = Ok self' ->
  exists keys,
    history_index_keys tx height index = Ok keys
    /\ 0 <= height < 2 ^ 32 /\ 0 <= index < 2 ^ 32
    /\ self'
       = with_db self
           (foldl (fun d k => db_put d k [])
              (db_put (db self) (blit "txindex_" ++ Transaction_get_hash tx)
                 (be_digits 4 height ++ be_digits 4 index))
              (if ENABLE_TRANSACTION_HISTORY (env self) then keys else [])).
Proof.
  rewrite put_transaction_index_keys.
  destruct (history_index_keys tx height index) as [keys|] eqn:Ek; simpl; [|discriminate].
  intros [= <-]. exists keys. split; [reflexivity|].
  assert (0 <= height < 2 ^ 32 /\ 0 <= index < 2 ^ 32) as Hr.
  { revert Ek. unfold history_index_keys, encode_address_transaction_key.
    destruct (to_bytes 4 height) as [hb|] eqn:Eh; [|discriminate].
    destruct (to_bytes 4 index) as [ib|] eqn:Ei; [|discriminate].
    apply to_bytes_Ok in Eh as [Hh _], Ei as [Hi _].
    change (Z.of_nat 4) with 4 in *. intros _. lia. }
  tauto.
Qed.

(** The store that [remove_transaction_index] leaves. *)
Lemma remove_transaction_index_keys self tx height index keys :
  history_index_keys tx height index = Ok keys ->
  remove_transaction_index self tx height index
  = Ok (with_db self
          (foldl (fun d k => db_remove d k)
             (db_remove (db self) (blit "txindex_" ++ Transaction_get_hash tx))
             (if ENABLE_TRANSACTION_HISTORY (env self) then keys else []))).
Proof.
  intros Hk. unfold remove_transaction_index, remove_transaction_history_index. simpl.
  destruct (ENABLE_TRANSACTION_HISTORY (env self)); simpl; [|reflexivity].
  rewrite update_transaction_history_index_keys, Hk. reflexivity.
Qed.

Lemma not_elem_of_history_keys (keys : list bytes) (k : bytes) :
  Forall (fun k => take 5 k = blit "addr_") keys ->
  take 5 k <> blit "addr_" ->
  k ∉ keys.
Proof.
  intros Hall Hk Hin. rewrite Forall_forall in Hall. apply Hk, Hall, Hin.
Qed.

(** A key outside the [addr_] namespace is not one of the history keys. *)
Ltac not_history_key Hprefix :=
  apply (not_elem_of_history_keys _ _ Hprefix); vm_compute; discriminate.

Lemma history_keys_if_prefix (flag : bool) keys :
  Forall (fun k => take 5 k = blit "addr_") keys ->
  Forall (fun k => take 5 k = blit "addr_") (if flag then keys else []).
Proof. destruct flag; [auto|constructor]. Qed.

(** A well-formed location record is read back as its height and index. *)
Lemma get_transaction_by_hash_located self tx_hash height index :
  db self !! (blit "txindex_" ++ tx_hash) = Some (be_digits 4 height ++ be_digits 4 index) ->
  0 <= height < 2 ^ 32 -> 0 <= index < 2 ^ 32 ->
  get_transaction_by_hash self tx_hash
  = (o ← get_minor_block_by_height self height; mret (o, Some index)).
Proof.
  intros Hloc Hh Hi. unfold get_transaction_by_hash, db_get. rewrite Hloc.
  rewrite truthy_Some_nonempty
    by (intros E; apply (f_equal length) in E;
        rewrite length_app, !length_be_digits in E; discriminate E).
  assert ((length (be_digits 4 height ++ be_digits 4 index) =? 8)%nat = true) as ->
    by (rewrite length_app, !length_be_digits; reflexivity).
  assert (slice 0 4 (be_digits 4 height ++ be_digits 4 index) = be_digits 4 height) as ->.
  { unfold slice. change (4 - 0)%nat with 4%nat. rewrite drop_0.
    apply take_app_length'. symmetry. apply length_be_digits. }
  assert (slice_from 4 (be_digits 4 height ++ be_digits 4 index) = be_digits 4 index) as ->.
  { unfold slice_from. apply drop_app_length'. symmetry. apply length_be_digits. }
  rewrite !from_be_digits by (change (Z.of_nat 4) with 4; lia).
  reflexivity.
Qed.

(** What [put_transaction_index] does to the keys outside [addr_]. *)
Lemma put_transaction_index_other self tx height index self' k :
  put_transaction_index self tx height index = Ok self' ->
  take 5 k <> blit "addr_" ->
  db self' !! k
  = if decide (k = blit "txindex_" ++ Transaction_get_hash tx)
    then Some (be_digits 4 height ++ be_digits 4 index)
    else db self !! k.
Proof.
  intros Hput Hk.
  apply put_transaction_index_Ok in Hput as (keys & Hkeys & _ & _ & ->).
  apply history_index_keys_prefix in Hkeys.
  apply (history_keys_if_prefix (ENABLE_TRANSACTION_HISTORY (env self))) in Hkeys.
  cbn [db with_db]. rewrite lookup_foldl_put.
  rewrite decide_False by (apply (not_elem_of_history_keys _ _ Hkeys); exact Hk).
  apply lookup_db_put.
Qed.

(** X7: a transaction that [put_transaction_index] has indexed at a height
    and an index is contained, and [get_transaction_by_hash] returns that
    index with the block that the positional index gives for that
    height. *)
Theorem put_transaction_index_roundtrip self tx height index self' :
  put_transaction_index self tx height index = Ok self' ->
  contain_transaction_hash self' (Transaction_get_hash tx) = true
  /\ get_transaction_by_hash self' (Transaction_get_hash tx)
     = (o ← get_minor_block_by_height self height; mret (o, Some index)).
Proof.
  intros Hput.
  pose proof (fun k => put_transaction_index_other _ _ _ _ _ k Hput) as Hother.
  apply put_transaction_index_Ok in Hput as (_ & _ & Hh & Hi & _).
  assert (db self' !! (blit "txindex_" ++ Transaction_get_hash tx)
          = Some (be_digits 4 height ++ be_digits 4 index)) as Hloc.
  { rewrite Hother by (vm_compute; discriminate). apply decide_True. reflexivity. }
  split.
  - unfold contain_transaction_hash, db_contains. rewrite Hloc. reflexivity.
  - rewrite (get_transaction_by_hash_located _ _ _ _ Hloc Hh Hi).
    erewrite get_minor_block_by_height_same_store; [reflexivity| |].
    + rewrite Hother by (vm_compute; discriminate). apply decide_False. key_neq.
    + intros h. rewrite Hother by (vm_compute; discriminate). apply decide_False. key_neq.
Qed.

(** X8: [remove_transaction_index] after [put_transaction_index], for the
    same transaction and position, goes through and removes what the put
    wrote: the transaction is no longer contained, the keys of the
    transaction are absent, every other key reads as before the put, and
    the store is the one before the put when none of these keys was in
    it. *)
Theorem remove_after_put_transaction_index self tx height index self1 :
  put_transaction_index self tx height index = Ok self1 ->
  exists written self2,
    transaction_index_keys self tx height index = Ok written
    /\ remove_transaction_index self1 tx height index = Ok self2
    /\ contain_transaction_hash self2 (Transaction_get_hash tx) = false
    /\ (forall k, db self2 !! k = if decide (k ∈ written) then None else db self !! k)
    /\ (Forall (fun k => db self !! k = None) written -> self2 = self).
Proof.
  intros Hput.
  apply put_transaction_index_Ok in Hput as (keys & Hk & Hh & Hi & ->).
  unfold transaction_index_keys. rewrite Hk. cbn [mbind result_bind rbind mret result_ret].
  eexists. eexists. split; [reflexivity|].
  rewrite (remove_transaction_index_keys _ _ _ _ _ Hk). cbn [env db with_db].
  split; [reflexivity|].
  set (txk := blit "txindex_" ++ Transaction_get_hash tx).
  set (ks := if ENABLE_TRANSACTION_HISTORY (env self) then keys else []).
  assert (forall k,
            foldl (fun d k => db_remove d k)
              (db_remove
                 (foldl (fun d k => db_put d k [])
                    (db_put (db self) txk (be_digits 4 height ++ be_digits 4 index)) ks)
                 txk) ks !! k
            = if decide (k ∈ txk :: ks) then None else db self !! k) as Hlook.
  { intros k. rewrite lookup_foldl_remove.
    destruct (decide (k ∈ ks)) as [Hin|Hnin].
    - rewrite decide_True by (right; exact Hin). reflexivity.
    - unfold db_remove. destruct (decide (k = txk)) as [->|Hne].
      + rewrite decide_True by left. apply lookup_delete_eq.
      + rewrite decide_False by (rewrite elem_of_cons; tauto).
        rewrite lookup_delete_ne by congruence.
        rewrite lookup_foldl_put, decide_False by exact Hnin.
        unfold db_put. apply lookup_insert_ne. congruence. }
  split; [|split].
  - unfold contain_transaction_hash, db_contains. cbn [db with_db]. fold txk.
    rewrite Hlook, decide_True by left. reflexivity.
  - intros k. cbn [db with_db]. apply Hlook.
  - intros Hfresh. destruct self as [e d hp mp rp hm]. unfold with_db. cbn [db env
      m_header_pool m_meta_pool r_header_pool height_to_minor_block_hashes] in *.
    f_equal. apply map_eq. intros k. rewrite Hlook.
    destruct (decide (k ∈ txk :: ks)) as [Hin|]; [|reflexivity].
    rewrite Forall_forall in Hfresh. symmetry. apply Hfresh, Hin.
Qed.

(** X9: indexing a transaction twice at the same position leaves the state
    that indexing it once leaves. *)
Theorem put_transaction_index_idempotent self tx height index self1 :
  put_transaction_index self tx height index = Ok self1 ->
  put_transaction_index self1 tx height index = Ok self1.
Proof.
  intros Hput.
  apply put_transaction_index_Ok in Hput as (keys & Hk & Hh & Hi & ->).
  rewrite put_transaction_index_keys, Hk. cbn [mbind result_bind rbind mret result_ret].
  destruct self as [e d hp mp rp hm]. unfold with_db. cbn [db env
    m_header_pool m_meta_pool r_header_pool height_to_minor_block_hashes].
  f_equal. f_equal. apply map_eq. intros k.
  rewrite !lookup_foldl_put.
  destruct (decide (k ∈ _)); [reflexivity|].
  rewrite !lookup_db_put.
  destruct (decide (k = blit "txindex_" ++ Transaction_get_hash tx)); [reflexivity|].
  rewrite lookup_foldl_put, decide_False by assumption.
  rewrite lookup_db_put, decide_False by assumption. reflexivity.
Qed.

End IndexProperties.

Section BlockIndexProperties.
Context `{Collaborators}.

(** *** Indexing a whole block *)

(** The loop over the confirmed deposits applies [func] to their keys. *)
Lemma update_history_from_deposits_keys l :
  forall self height func i,
    update_history_from_deposits self height func i l
    = (keys ← deposit_history_keys height i l;
       mret (with_db self (foldl (fun d k => func k [] d) (db self) keys))).
Proof.
  induction l as [|tx l IH]; intros self height func i; simpl.
  - destruct self; reflexivity.
  - destruct (decide _); [apply IH|].
    destruct (encode_address_transaction_key _ _ _ _) as [key|]; simpl; [|reflexivity].
    rewrite IH. simpl.
    destruct (deposit_history_keys height (i + 1) l); reflexivity.
Qed.

Lemma deposit_history_keys_prefix l :
  forall height i keys,
    deposit_history_keys height i l = Ok keys ->
    Forall (fun k => take 5 k = blit "addr_") keys.
Proof.
  induction l as [|tx l IH]; intros height i keys; simpl.
  - intros [= <-]. constructor.
  - destruct (decide _); [apply IH|].
    destruct (encode_address_transaction_key _ _ _ _) as [key|] eqn:Ek; simpl; [|discriminate].
    destruct (deposit_history_keys height (i + 1) l) as [keys'|] eqn:El; simpl;
      [|discriminate].
    intros [= <-]. constructor; [|eapply IH; eauto].
    apply encode_address_transaction_key_Ok in Ek as [-> _]. reflexivity.
Qed.

(** The history writes of a block leave the keys outside [addr_] alone. *)
Lemma update_transaction_history_index_from_block_other self b func self' k :
  (forall k0 v d, take 5 k <> take 5 k0 -> func k0 v d !! k = d !! k) ->
  update_transaction_history_index_from_block self b func = Ok self' ->
  take 5 k <> blit "addr_" ->
  db self' !! k = db self !! k.
Proof.
  intros Hfunc. unfold update_transaction_history_index_from_block.
  destruct (get_confirmed_cross_shard_transaction_deposit_list _ _) as [l|]; simpl;
    [|discriminate].
  rewrite update_history_from_deposits_keys.
  destruct (deposit_history_keys _ 0 l) as [keys|] eqn:Ek; simpl; [|discriminate].
  apply deposit_history_keys_prefix in Ek.
  intros [= <-] Hk. simpl.
  generalize (db self). induction Ek as [|k0 keys Hk0 _ IH]; intros d; simpl.
  - reflexivity.
  - rewrite IH. apply Hfunc. congruence.
Qed.

Lemma put_transaction_history_index_from_block_other self b self' k :
  put_transaction_history_index_from_block self b = Ok self' ->
  take 5 k <> blit "addr_" ->
  db self' !! k = db self !! k.
Proof.
  unfold put_transaction_history_index_from_block.
  destruct (negb _); [intros [= <-]; reflexivity|].
  apply update_transaction_history_index_from_block_other.
  intros k0 v d Hne. rewrite lookup_db_put. apply decide_False. congruence.
Qed.

Lemma remove_transaction_history_index_from_block_other self b self' k :
  remove_transaction_history_index_from_block self b = Ok self' ->
  take 5 k <> blit "addr_" ->
  db self' !! k = db self !! k.
Proof.
  unfold remove_transaction_history_index_from_block.
  destruct (negb _); [intros [= <-]; reflexivity|].
  apply update_transaction_history_index_from_block_other.
  intros k0 v d Hne. rewrite lookup_db_remove. apply decide_False. congruence.
Qed.

Lemma remove_transaction_index_other self tx height index self' k :
  remove_transaction_index self tx height index = Ok self' ->
  take 5 k <> blit "addr_" ->
  db self' !! k
  = if decide (k = blit "txindex_" ++ Transaction_get_hash tx)
    then None
    else db self !! k.
Proof.
  unfold remove_transaction_index, remove_transaction_history_index. cbn [env with_db].
  destruct (ENABLE_TRANSACTION_HISTORY (env self)); cbn [negb].
  - rewrite update_transaction_history_index_keys.
    destruct (history_index_keys tx height index) as [keys|] eqn:Hkeys; simpl;
      [|discriminate].
    apply history_index_keys_prefix in Hkeys.
    intros [= <-] Hk. cbn [db with_db]. rewrite lookup_foldl_remove.
    rewrite decide_False by (apply (not_elem_of_history_keys _ _ Hkeys); exact Hk).
    apply lookup_db_remove.
  - intros [= <-] Hk. cbn [db with_db]. apply lookup_db_remove.
Qed.

(** The indexing loop over a transaction list, from position [i] on. *)
Lemma for_each_put_transaction_index l :
  forall self height i self',
    for_each_transaction put_transaction_index self height i l = Ok self' ->
    (forall k, take 5 k <> blit "addr_" ->
               (forall tx, tx ∈ l -> k <> blit "txindex_" ++ Transaction_get_hash tx) ->
               db self' !! k = db self !! k)
    /\ (forall k, take 5 k <> blit "addr_" ->
                  is_Some (db self !! k) -> is_Some (db self' !! k))
    /\ (forall j tx,
          l !! j = Some tx ->
          0 <= height < 2 ^ 32 /\ 0 <= i + Z.of_nat j < 2 ^ 32
          /\ is_Some (db self' !! (blit "txindex_" ++ Transaction_get_hash tx))
          /\ ((forall j' tx', (j < j')%nat -> l !! j' = Some tx' ->
                              Transaction_get_hash tx' <> Transaction_get_hash tx) ->
              db self' !! (blit "txindex_" ++ Transaction_get_hash tx)
              = Some (be_digits 4 height ++ be_digits 4 (i + Z.of_nat j)))).
Proof.
  induction l as [|tx0 l IH]; intros self height i self'; simpl.
  - intros [= <-]. split; [reflexivity|]. split; [auto|]. intros j tx Hj. discriminate.
  - destruct (put_transaction_index self tx0 height i) as [self1|] eqn:E1; simpl;
      [|discriminate].
    intros Hrest. apply IH in Hrest as (Hother & Hsome & Hloc).
    pose proof (fun k => put_transaction_index_other _ _ _ _ _ k E1) as H1.
    pose proof (put_transaction_index_Ok _ _ _ _ _ E1) as (_ & _ & Hh & Hi & _).
    split; [|split].
    + intros k Hk Hnot. rewrite Hother.
      * rewrite (H1 k Hk). apply decide_False, Hnot. left.
      * exact Hk.
      * intros tx Htx. apply Hnot. right. exact Htx.
    + intros k Hk Hs. apply (Hsome k Hk). rewrite (H1 k Hk).
      destruct (decide _); [eauto|exact Hs].
    + intros [|j] tx Hj; simpl in Hj.
      * injection Hj as <-.
        assert (is_Some (db self1 !! (blit "txindex_" ++ Transaction_get_hash tx0))) as Hs1.
        { rewrite H1 by (vm_compute; discriminate).
          rewrite decide_True by reflexivity. eauto. }
        split; [exact Hh|]. split; [lia|].
        split; [apply Hsome; [vm_compute; discriminate|exact Hs1]|].
        intros Hlater. rewrite Hother.
        -- rewrite H1 by (vm_compute; discriminate).
           rewrite decide_True by reflexivity. rewrite Z.add_0_r. reflexivity.
        -- vm_compute. discriminate.
        -- intros tx' Htx' E. apply (key_inj (blit "txindex_")) in E.
           apply list_elem_of_lookup in Htx' as [j' Hj'].
           apply (Hlater (S j') tx'); [lia|exact Hj'|congruence].
      * destruct (Hloc j tx Hj) as (_ & Hr & Hs & Hl).
        split; [exact Hh|]. split; [lia|]. split; [exact Hs|].
        intros Hlater.
        replace (i + Z.of_nat (S j)) with (i + 1 + Z.of_nat j) by lia.
        apply Hl. intros j' tx' Hlt Hj'. apply (Hlater (S j') tx'); [lia|exact Hj'].
Qed.

(** The store that [put_transaction_index_from_block] leaves. *)
Lemma put_transaction_index_from_block_Ok self minor_block self' :
  put_transaction_index_from_block self minor_block = Ok self' ->
  (forall k, take 5 k <> blit "addr_" ->
             (forall tx, tx ∈ MinorBlock.tx_list minor_block ->
                         k <> blit "txindex_" ++ Transaction_get_hash tx) ->
             db self' !! k = db self !! k)
  /\ (forall j tx,
        MinorBlock.tx_list minor_block !! j = Some tx ->
        0 <= MinorBlockHeader.height (MinorBlock.header minor_block) < 2 ^ 32
        /\ 0 <= Z.of_nat j < 2 ^ 32
        /\ is_Some (db self' !! (blit "txindex_" ++ Transaction_get_hash tx))
        /\ ((forall j' tx', (j < j')%nat -> MinorBlock.tx_list minor_block !! j' = Some tx' ->
                            Transaction_get_hash tx' <> Transaction_get_hash tx) ->
            db self' !! (blit "txindex_" ++ Transaction_get_hash tx)
            = Some (be_digits 4 (MinorBlockHeader.height (MinorBlock.header minor_block))
                      ++ be_digits 4 (Z.of_nat j)))).
Proof.
  unfold put_transaction_index_from_block.
  destruct (for_each_transaction _ _ _ _ _) as [self1|] eqn:E1; simpl; [|discriminate].
  intros Hhist.
  pose proof (for_each_put_transaction_index _ _ _ _ _ E1) as (Hother & _ & Hloc).
  assert (forall k, take 5 k <> blit "addr_" -> db self' !! k = db self1 !! k) as Hh
    by (intros k Hk; eapply put_transaction_history_index_from_block_other;
        [exact Hhist|exact Hk]).
  split.
  - intros k Hk Hnot. rewrite Hh by exact Hk. apply Hother; assumption.
  - intros j tx Hj. destruct (Hloc j tx Hj) as (Hhr & Hjr & Hs & Hl).
    rewrite Z.add_0_l in Hjr, Hl.
    split; [exact Hhr|]. split; [exact Hjr|].
    rewrite Hh by (vm_compute; discriminate).
    split; [exact Hs|exact Hl].
Qed.

(** Indexing the transactions of a block leaves the lookups by height as
    they are. *)
Lemma put_transaction_index_from_block_height self minor_block self' height :
  put_transaction_index_from_block self minor_block = Ok self' ->
  get_minor_block_by_height self' height = get_minor_block_by_height self height.
Proof.
  intros Hput. apply put_transaction_index_from_block_Ok in Hput as (Hother & _).
  apply get_minor_block_by_height_same_store.
  - apply Hother; [vm_compute; discriminate|]. intros tx' _. key_neq.
  - intros h. apply Hother; [vm_compute; discriminate|]. intros tx' _. key_neq.
Qed.

(** X10: [put_transaction_index_from_block] indexes every transaction of
    the block: each one is contained afterwards, and one whose hash does
    not come again later in the list is located at the block's height and
    its own position. *)
Theorem put_transaction_index_from_block_locates self minor_block self' :
  put_transaction_index_from_block self minor_block = Ok self' ->
  forall j tx,
    MinorBlock.tx_list minor_block !! j = Some tx ->
    contain_transaction_hash self' (Transaction_get_hash tx) = true
    /\ ((forall j' tx', (j < j')%nat -> MinorBlock.tx_list minor_block !! j' = Some tx' ->
                        Transaction_get_hash tx' <> Transaction_get_hash tx) ->
        get_transaction_by_hash self' (Transaction_get_hash tx)
        = (o ← get_minor_block_by_height self
                 (MinorBlockHeader.height (MinorBlock.header minor_block));
           mret (o, Some (Z.of_nat j)))).
Proof.
  intros Hput j tx Hj.
  pose proof (put_transaction_index_from_block_height _ _ _
                (MinorBlockHeader.height (MinorBlock.header minor_block)) Hput) as Hheight.
  apply put_transaction_index_from_block_Ok in Hput as (_ & Hloc).
  destruct (Hloc j tx Hj) as (Hhr & Hjr & Hs & Hl).
  split.
  - unfold contain_transaction_hash, db_contains. cbv zeta.
    destruct Hs as [v ->]. reflexivity.
  - intros Hlater.
    rewrite (get_transaction_by_hash_located _ _ _ _ (Hl Hlater) Hhr Hjr), Hheight.
    reflexivity.
Qed.

(** The de-indexing loop over a transaction list only removes. *)
Lemma for_each_remove_transaction_index l :
  forall self height i self',
    for_each_transaction remove_transaction_index self height i l = Ok self' ->
    (forall k, take 5 k <> blit "addr_" -> db self !! k = None -> db self' !! k = None)
    /\ (forall k, take 5 k <> blit "addr_" ->
                  (forall tx, tx ∈ l -> k <> blit "txindex_" ++ Transaction_get_hash tx) ->
                  db self' !! k = db self !! k)
    /\ (forall tx, tx ∈ l -> db self' !! (blit "txindex_" ++ Transaction_get_hash tx) = None).
Proof.
  induction l as [|tx0 l IH]; intros self height i self'; simpl.
  - intros [= <-]. split; [auto|]. split; [reflexivity|]. intros tx Htx.
    apply elem_of_nil in Htx. contradiction.
  - destruct (remove_transaction_index self tx0 height i) as [self1|] eqn:E1; simpl;
      [|discriminate].
    intros Hrest. apply IH in Hrest as (Hnone & Hother & Hgone).
    pose proof (fun k => remove_transaction_index_other _ _ _ _ _ k E1) as H1.
    split; [|split].
    + intros k Hk Hn. apply (Hnone k Hk). rewrite (H1 k Hk).
      destruct (decide _); [reflexivity|exact Hn].
    + intros k Hk Hnot. rewrite Hother.
      * rewrite (H1 k Hk). apply decide_False, Hnot. left.
      * exact Hk.
      * intros tx Htx. apply Hnot. right. exact Htx.
    + intros tx Htx. apply elem_of_cons in Htx as [->|Htx]; [|apply Hgone, Htx].
      apply Hnone; [vm_compute; discriminate|].
      rewrite H1 by (vm_compute; discriminate). apply decide_True. reflexivity.
Qed.

(** X11: after [remove_transaction_index_from_block] no transaction of the
    block is contained, and the keys outside the [txindex_] entries of the
    block's transactions and the [addr_] namespace (block payloads, counts,
    the positional index) read as before. *)
Theorem remove_transaction_index_from_block_clears self minor_block self' :
  remove_transaction_index_from_block self minor_block = Ok self' ->
  (forall tx,
     tx ∈ MinorBlock.tx_list minor_block ->
     contain_transaction_hash self' (Transaction_get_hash tx) = false
     /\ get_transaction_by_hash self' (Transaction_get_hash tx) = Ok (None, None))
  /\ (forall k,
        take 5 k <> blit "addr_" ->
        (forall tx, tx ∈ MinorBlock.tx_list minor_block ->
                    k <> blit "txindex_" ++ Transaction_get_hash tx) ->
        db self' !! k = db self !! k).
Proof.
  unfold remove_transaction_index_from_block.
  destruct (for_each_transaction _ _ _ _ _) as [self1|] eqn:E1; simpl; [|discriminate].
  intros Hhist.
  pose proof (for_each_remove_transaction_index _ _ _ _ _ E1) as (_ & Hother & Hgone).
  assert (forall k, take 5 k <> blit "addr_" -> db self' !! k = db self1 !! k) as Hh
    by (intros k Hk; eapply remove_transaction_history_index_from_block_other;
        [exact Hhist|exact Hk]).
  split.
  - intros tx Htx.
    assert (db self' !! (blit "txindex_" ++ Transaction_get_hash tx) = None) as Hn
      by (rewrite Hh by (vm_compute; discriminate); apply Hgone, Htx).
    unfold contain_transaction_hash, get_transaction_by_hash, db_contains, db_get.
    cbv zeta. rewrite Hn. split; reflexivity.
  - intros k Hk Hnot. rewrite (Hh k Hk). apply Hother; assumption.
Qed.

End BlockIndexProperties.

Section HistoryProperties.
Context `{Collaborators}.

(** *** The address history: keys and rows *)

(** The three fields that the query reads out of a history key. *)
Lemma history_key_fields (a hb f ib : bytes) :
  length a = 24%nat -> length hb = 4%nat -> length f = 1%nat ->
  let k := blit "addr_" ++ a ++ hb ++ f ++ ib in
  slice (5 + 24) (5 + 24 + 4) k = hb
  /\ k !! (5 + 24 + 4)%nat = f !! 0%nat
  /\ slice_from (5 + 24 + 4 + 1) k = ib.
Proof.
  intros Ha Hh Hf k. unfold k, slice, slice_from.
  assert (length (blit "addr_") = 5%nat) as Hp by reflexivity.
  split; [|split].
  - rewrite (app_assoc (blit "addr_") a).
    rewrite drop_app_length' by (rewrite length_app; lia).
    change (5 + 24 + 4 - (5 + 24))%nat with 4%nat.
    apply take_app_length'. lia.
  - rewrite (app_assoc (blit "addr_") a), (app_assoc _ hb).
    rewrite lookup_app_r by (rewrite !length_app; lia).
    rewrite !length_app, Hp, Ha, Hh.
    change (5 + 24 + 4 - (5 + 24 + 4))%nat with 0%nat.
    destruct f as [|b [|b' f]]; try discriminate. reflexivity.
  - rewrite (app_assoc (blit "addr_") a), (app_assoc _ hb), (app_assoc _ f).
    apply drop_app_length'. rewrite !length_app. lia.
Qed.

(** X12: a history key decodes to what it was encoded from, for an address
    that serializes to 24 bytes: the query reads the height, the flag and
    the index back, so that the row it builds for the key is at that
    height, from the block the positional index gives for it, and is the
    transaction (or, for a cross-shard key, the confirmed deposit) at that
    index. *)
Theorem history_key_decodes self address height index cross_shard k :
  encode_address_transaction_key address height index cross_shard = Ok k ->
  length (Address_serialize address) = 24%nat ->
  from_bytes (slice (5 + 24) (5 + 24 + 4) k) = height
  /\ k !! (5 + 24 + 4)%nat = Some (if cross_shard then x00 else x01)
  /\ from_bytes (slice_from (5 + 24 + 4 + 1) k) = index
  /\ forall detail,
       transaction_detail_at self k = Ok detail ->
       TransactionDetail.block_height detail = height
       /\ exists m_block,
            get_minor_block_by_height self height = Ok (Some m_block)
            /\ TransactionDetail.timestamp detail
               = MinorBlockHeader.create_time (MinorBlock.header m_block)
            /\ if cross_shard
               then exists l d,
                      get_confirmed_cross_shard_transaction_deposit_list self
                        (MinorBlockHeader_get_hash (MinorBlock.header m_block)) = Ok l
                      /\ l !! Z.to_nat index = Some d
                      /\ TransactionDetail.tx_hash detail
                         = CrossShardTransactionDeposit.tx_hash d
                      /\ TransactionDetail.from_address detail
                         = CrossShardTransactionDeposit.from_address d
                      /\ TransactionDetail.to_address detail
                         = Some (CrossShardTransactionDeposit.to_address d)
               else exists tx,
                      MinorBlock.tx_list m_block !! Z.to_nat index = Some tx
                      /\ TransactionDetail.tx_hash detail = Transaction_get_hash tx
                      /\ TransactionDetail.value detail = value (to_evm_tx tx).
Proof.
  intros Hk Ha.
  apply encode_address_transaction_key_Ok in Hk as (-> & Hh & Hi).
  destruct (history_key_fields (Address_serialize address) (be_digits 4 height)
              (if cross_shard then [x00] else [x01]) (be_digits 4 index))
    as (Hs1 & Hs2 & Hs3);
    [exact Ha|apply length_be_digits|destruct cross_shard; reflexivity|].
  cbv zeta in Hs1, Hs2, Hs3.
  assert (from_bytes (be_digits 4 height) = height) as Hfh
    by (apply from_be_digits; change (Z.of_nat 4) with 4; lia).
  assert (from_bytes (be_digits 4 index) = index) as Hfi
    by (apply from_be_digits; change (Z.of_nat 4) with 4; lia).
  split; [rewrite Hs1; exact Hfh|].
  split; [rewrite Hs2; destruct cross_shard; reflexivity|].
  split; [rewrite Hs3; exact Hfi|].
  intros detail. unfold transaction_detail_at.
  rewrite Hs1, Hs2, Hs3, Hfh, Hfi.
  destruct cross_shard; cbn [lookup list_lookup expect mbind result_bind rbind].
  - change (byte_val x00 =? 0) with true. cbv iota.
    destruct (get_minor_block_by_height self height) as [[m_block|]|] eqn:Eb;
      cbn [expect mbind result_bind rbind]; try discriminate.
    destruct (get_confirmed_cross_shard_transaction_deposit_list self _) as [l|] eqn:El;
      cbn [expect mbind result_bind rbind]; try discriminate.
    destruct (l !! Z.to_nat index) as [d|] eqn:Ed;
      cbn [expect mbind result_bind rbind mret result_ret]; try discriminate.
    intros [= <-]. split; [reflexivity|].
    exists m_block. split; [reflexivity|]. split; [reflexivity|].
    exists l, d. repeat split; assumption.
  - change (byte_val x01 =? 0) with false. cbv iota.
    destruct (get_minor_block_by_height self height) as [[m_block|]|] eqn:Eb;
      cbn [expect mbind result_bind rbind]; try discriminate.
    destruct (MinorBlock_get_receipt m_block (db self) index) as [receipt|];
      cbn [expect mbind result_bind rbind]; try discriminate.
    destruct (MinorBlock.tx_list m_block !! Z.to_nat index) as [tx|] eqn:Et;
      cbn [expect mbind result_bind rbind mret result_ret]; try discriminate.
    intros [= <-]. split; [reflexivity|].
    exists m_block. split; [reflexivity|]. split; [reflexivity|].
    exists tx. split; [exact Et|]. split; reflexivity.
Qed.

(** *** Confirmed cross-shard deposits *)

(** X13: with the history flag on, the deposit list that [put_minor_block]
    is given is the one that the history query finds for the block (the
    empty list when the serialized list is empty); with the flag off
    [put_minor_block] leaves the list found for the block as it was. *)
Theorem put_minor_block_confirmed_deposits self B xs self' :
  put_minor_block self B xs = Ok self' ->
  CrossShardTransactionList_deserialize (CrossShardTransactionList_serialize xs) = Some xs ->
  let h := MinorBlockHeader_get_hash (MinorBlock.header B) in
  get_confirmed_cross_shard_transaction_deposit_list self' h
  = if ENABLE_TRANSACTION_HISTORY (env self)
    then Ok (match CrossShardTransactionList_serialize xs with [] => [] | _ :: _ => xs end)
    else get_confirmed_cross_shard_transaction_deposit_list self h.
Proof.
  intros Hput Hrt h.
  apply put_minor_block_Ok in Hput as (bs & Hdb & _). fold h in Hdb.
  unfold get_confirmed_cross_shard_transaction_deposit_list, db_get. rewrite Hdb.
  destruct (ENABLE_TRANSACTION_HISTORY (env self)).
  - rewrite lookup_insert_eq.
    destruct (CrossShardTransactionList_serialize xs) as [|b0 l0] eqn:Es; [reflexivity|].
    cbn [truthy]. rewrite Hrt. reflexivity.
  - rewrite lookup_insert_ne by key_neq. rewrite lookup_insert_ne by key_neq.
    reflexivity.
Qed.

Lemma elem_of_deposit_history_keys l :
  forall height i keys k,
    deposit_history_keys height i l = Ok keys ->
    k ∈ keys <->
    exists (j : nat) d,
      l !! j = Some d
      /\ CrossShardTransactionDeposit.tx_hash d <> replicate 32 x00
      /\ encode_address_transaction_key (CrossShardTransactionDeposit.to_address d)
           height (i + Z.of_nat j) true = Ok k.
Proof.
  induction l as [|tx l IH]; intros height i keys k; simpl.
  - intros [= <-]. split; [intros Hin; apply elem_of_nil in Hin; contradiction|].
    intros (j & d & Hj & _). discriminate.
  - destruct (decide _) as [Hz|Hnz].
    + intros Hl. rewrite (IH _ _ _ k Hl). split.
      * intros (j & d & Hj & Hd & He). exists (S j), d.
        split; [exact Hj|]. split; [exact Hd|].
        replace (i + Z.of_nat (S j)) with (i + 1 + Z.of_nat j) by lia. exact He.
      * intros ([|j] & d & Hj & Hd & He); simpl in Hj.
        -- injection Hj as <-. contradiction.
        -- exists j, d. split; [exact Hj|]. split; [exact Hd|].
           replace (i + 1 + Z.of_nat j) with (i + Z.of_nat (S j)) by lia. exact He.
    + destruct (encode_address_transaction_key _ _ _ _) as [key|] eqn:Ek; simpl;
        [|discriminate].
      destruct (deposit_history_keys height (i + 1) l) as [keys'|] eqn:El; simpl;
        [|discriminate].
      intros [= <-]. rewrite elem_of_cons, (IH _ _ _ k El). split.
      * intros [->|(j & d & Hj & Hd & He)].
        -- exists 0%nat, tx. split; [reflexivity|]. split; [exact Hnz|].
           rewrite Z.add_0_r. exact Ek.
        -- exists (S j), d. split; [exact Hj|]. split; [exact Hd|].
           replace (i + Z.of_nat (S j)) with (i + 1 + Z.of_nat j) by lia. exact He.
      * intros ([|j] & d & Hj & Hd & He); simpl in Hj.
        -- injection Hj as <-. rewrite Z.add_0_r in He. left. congruence.
        -- right. exists j, d. split; [exact Hj|]. split; [exact Hd|].
           replace (i + 1 + Z.of_nat j) with (i + Z.of_nat (S j)) by lia. exact He.
Qed.

(** Keys of one height and flag with different indexes differ. *)
Lemma encode_address_transaction_key_index a1 a2 height i1 i2 cross_shard k :
  encode_address_transaction_key a1 height i1 cross_shard = Ok k ->
  encode_address_transaction_key a2 height i2 cross_shard = Ok k ->
  i1 = i2.
Proof.
  intros H1 H2.
  apply encode_address_transaction_key_Ok in H1 as (-> & _ & Hi1).
  apply encode_address_transaction_key_Ok in H2 as (E & _ & Hi2).
  rewrite !(app_assoc _ _ (be_digits 4 _)) in E.
  apply app_inj_2 in E as [_ E]; [|rewrite !length_be_digits; reflexivity].
  apply (f_equal from_bytes) in E.
  rewrite !from_be_digits in E by (change (Z.of_nat 4) with 4; lia). exact E.
Qed.

(** X14: with the history flag on, [put_transaction_history_index_from_block]
    writes an entry for every confirmed deposit of the block but the
    coinbase ones (all-zero hash), under the key of the recipient, the
    block's height and the position of the deposit in the whole list; the
    key of a coinbase position is left as it was. *)
Theorem put_transaction_history_index_from_block_entries self minor_block self' l :
  ENABLE_TRANSACTION_HISTORY (env self) = true ->
  get_confirmed_cross_shard_transaction_deposit_list self
    (MinorBlockHeader_get_hash (MinorBlock.header minor_block)) = Ok l ->
  put_transaction_history_index_from_block self minor_block = Ok self' ->
  forall (j : nat) d k,
    l !! j = Some d ->
    encode_address_transaction_key (CrossShardTransactionDeposit.to_address d)
      (MinorBlockHeader.height (MinorBlock.header minor_block)) (Z.of_nat j) true = Ok k ->
    db self' !! k
    = if decide (CrossShardTransactionDeposit.tx_hash d = replicate 32 x00)
      then db self !! k
      else Some [].
Proof.
  intros Hon Hl. unfold put_transaction_history_index_from_block,
    update_transaction_history_index_from_block.
  rewrite Hon, Hl. cbn [negb mbind result_bind rbind].
  rewrite update_history_from_deposits_keys.
  destruct (deposit_history_keys _ 0 l) as [keys|] eqn:Ek;
    cbn [mbind result_bind rbind mret result_ret]; [|discriminate].
  intros [= <-] j d k Hj He. cbn [db with_db].
  rewrite lookup_foldl_put.
  pose proof (elem_of_deposit_history_keys _ _ _ _ k Ek) as Hin.
  destruct (decide (CrossShardTransactionDeposit.tx_hash d = replicate 32 x00)) as [Hz|Hnz].
  - apply decide_False. rewrite Hin. intros (j' & d' & Hj' & Hd' & He').
    rewrite Z.add_0_l in He'.
    pose proof (encode_address_transaction_key_index _ _ _ _ _ _ _ He He') as Hjj.
    apply Nat2Z.inj in Hjj. subst j'. congruence.
  - apply decide_True. rewrite Hin. exists j, d.
    rewrite Z.add_0_l. auto.
Qed.

End HistoryProperties.

Section PaginationProperties.
Context `{Collaborators}.

(** *** The scan range of an address *)

Lemma bytes_compare_proper_prefix (p rest : bytes) :
  rest <> [] -> bytes_compare p (p ++ rest) = Lt.
Proof.
  intros Hrest. induction p as [|b p IH]; simpl.
  - destruct rest; [congruence|reflexivity].
  - rewrite Z.compare_refl. exact IH.
Qed.

(** A key that extends the prefix of an address lies in the range that the
    query scans by default. *)
Lemma extension_in_default_range (end_ rest os : bytes) :
  rest <> [] ->
  to_bytes (length end_) (from_bytes end_ + 1) = Ok os ->
  bytes_ltb end_ (end_ ++ rest) = true /\ bytes_leb (end_ ++ rest) os = true.
Proof.
  intros Hrest Hos. split.
  - apply bytes_ltb_lt, bytes_compare_proper_prefix, Hrest.
  - pose proof (to_bytes_length _ _ _ Hos) as Hlen.
    pose proof (from_to_bytes _ _ _ Hos) as Hval.
    unfold bytes_leb. rewrite <- (app_nil_r os).
    rewrite bytes_compare_app by (symmetry; exact Hlen).
    rewrite bytes_compare_same_length by (symmetry; exact Hlen).
    rewrite Hval.
    assert ((from_bytes end_ ?= from_bytes end_ + 1) = Lt) as ->
      by (apply Z.compare_lt_iff; lia).
    reflexivity.
Qed.

Lemma history_index_keys_sender tx height index keys :
  history_index_keys tx height index = Ok keys ->
  exists k,
    encode_address_transaction_key
      {| recipient := sender (to_evm_tx tx);
         full_shard_key := from_full_shard_key (to_evm_tx tx) |} height index false = Ok k
    /\ k ∈ keys
    /\ (to (to_evm_tx tx) <> [] -> is_in_branch (to_full_shard_key (to_evm_tx tx)) = true ->
        exists k',
          encode_address_transaction_key
            {| recipient := to (to_evm_tx tx);
               full_shard_key := to_full_shard_key (to_evm_tx tx) |} height index false
          = Ok k'
          /\ k' ∈ keys).
Proof.
  unfold history_index_keys.
  destruct (encode_address_transaction_key
              {| recipient := sender (to_evm_tx tx);
                 full_shard_key := from_full_shard_key (to_evm_tx tx) |} height index false)
    as [k1|] eqn:E1;
    cbn [mbind result_bind rbind mret result_ret]; [|discriminate].
  unfold mret, result_ret.
  destruct (to (to_evm_tx tx)) as [|b0 l0] eqn:Eto; cbv iota.
  - intros E. injection E as E. subst keys.
    exists k1. split; [reflexivity|]. split; [left|]. congruence.
  - destruct (is_in_branch _) eqn:Eb; cbv iota.
    + destruct (encode_address_transaction_key
                  {| recipient := b0 :: l0;
                     full_shard_key := to_full_shard_key (to_evm_tx tx) |} height index false)
        as [k2|] eqn:E2;
        cbn [mbind result_bind rbind mret result_ret]; [|discriminate].
      intros E. injection E as E. subst keys.
      exists k1. split; [reflexivity|]. split; [left|].
      intros _ _. exists k2. split; [reflexivity|]. right. left.
    + intros E. injection E as E. subst keys.
      exists k1. split; [reflexivity|]. split; [left|]. discriminate.
Qed.

(** X15: with the history flag on, the entry that
    [put_transaction_history_index] writes for the sender of a transaction
    (and the one for its recipient, when there is one in this branch) is in
    the store under its key with the empty value, inside the range that a
    query for that address scans when it is given no cursor. *)
Theorem put_transaction_history_index_in_scan self tx height index self' :
  ENABLE_TRANSACTION_HISTORY (env self) = true ->
  put_transaction_history_index self tx height index = Ok self' ->
  let from := {| recipient := sender (to_evm_tx tx);
                 full_shard_key := from_full_shard_key (to_evm_tx tx) |} in
  let to_ := {| recipient := to (to_evm_tx tx);
                full_shard_key := to_full_shard_key (to_evm_tx tx) |} in
  (exists k os,
     encode_address_transaction_key from height index false = Ok k
     /\ to_bytes (length (blit "addr_" ++ Address_serialize from))
          (from_bytes (blit "addr_" ++ Address_serialize from) + 1) = Ok os
     /\ (k, []) ∈ reversed_range_iter (db self') os (blit "addr_" ++ Address_serialize from))
  /\ (to (to_evm_tx tx) <> [] -> is_in_branch (to_full_shard_key (to_evm_tx tx)) = true ->
      exists k os,
        encode_address_transaction_key to_ height index false = Ok k
        /\ to_bytes (length (blit "addr_" ++ Address_serialize to_))
             (from_bytes (blit "addr_" ++ Address_serialize to_) + 1) = Ok os
        /\ (k, []) ∈ reversed_range_iter (db self') os (blit "addr_" ++ Address_serialize to_)).
Proof.
  intros Hon. unfold put_transaction_history_index. rewrite Hon. cbn [negb].
  rewrite update_transaction_history_index_keys.
  destruct (history_index_keys tx height index) as [keys|] eqn:Ek;
    cbn [mbind result_bind rbind mret result_ret]; [|discriminate].
  unfold mret, result_ret. intros E. injection E as E. subst self'.
  assert (forall a k,
            encode_address_transaction_key a height index false = Ok k -> k ∈ keys ->
            exists os,
              to_bytes (length (blit "addr_" ++ Address_serialize a))
                (from_bytes (blit "addr_" ++ Address_serialize a) + 1) = Ok os
              /\ (k, []) ∈ reversed_range_iter
                             (foldl (fun d k => db_put d k []) (db self) keys) os
                             (blit "addr_" ++ Address_serialize a)) as Hin.
  { intros a k He Hk.
    destruct (original_start_Ok (Address_serialize a)) as [os Hos].
    exists os. split; [exact Hos|].
    apply encode_address_transaction_key_Ok in He as (-> & _ & _).
    rewrite (app_assoc (blit "addr_")).
    rewrite (app_assoc (blit "addr_")) in Hk.
    apply elem_of_reversed_range_iter. split.
    - rewrite lookup_foldl_put. apply decide_True, Hk.
    - apply extension_in_default_range; [|exact Hos].
      intros E. apply (f_equal length) in E.
      rewrite !length_app, length_be_digits in E. simpl in E. lia. }
  destruct (history_index_keys_sender _ _ _ _ Ek) as (k & He & Hk & Hto).
  split.
  - destruct (Hin _ k He Hk) as (os & Hos & Hmem). exists k, os. auto.
  - intros Hne Hb. destruct (Hto Hne Hb) as (k' & He' & Hk').
    destruct (Hin _ k' He' Hk') as (os & Hos & Hmem). exists k', os. auto.
Qed.

(** *** Cursors *)

(** The query, with the flag on, is the scan loop over the range from the
    effective cursor. *)
Lemma get_transactions_by_address_scan self address start limit original_start :
  ENABLE_TRANSACTION_HISTORY (env self) = true ->
  to_bytes (length (blit "addr_" ++ Address_serialize address))
    (from_bytes (blit "addr_" ++ Address_serialize address) + 1) = Ok original_start ->
  get_transactions_by_address self address start limit
  = history_loop self
      (reversed_range_iter (db self)
         (if match start with [] => true | _ :: _ => false end
             || bytes_ltb original_start start
          then original_start else start)
         (blit "addr_" ++ Address_serialize address))
      limit [] (blit "addr_" ++ Address_serialize address).
Proof.
  intros Hon Hos. unfold get_transactions_by_address.
  rewrite Hon. cbn [negb]. cbv zeta. rewrite Hos. reflexivity.
Qed.

Lemma reversed_range_iter_empty (d : gmap bytes bytes) start end_ :
  (forall k, bytes_ltb end_ k = true -> bytes_leb k start = true -> d !! k = None) ->
  reversed_range_iter d start end_ = [].
Proof.
  intros Hnone. destruct (reversed_range_iter d start end_) as [|[k v] rest] eqn:E;
    [reflexivity|].
  assert ((k, v) ∈ reversed_range_iter d start end_) as Hin by (rewrite E; left).
  apply elem_of_reversed_range_iter in Hin as (Hk & Hlt & Hle).
  rewrite Hnone in Hk by assumption. discriminate.
Qed.

Lemma end_below_original_start a os :
  to_bytes (length (blit "addr_" ++ a)) (from_bytes (blit "addr_" ++ a) + 1) = Ok os ->
  bytes_ltb (blit "addr_" ++ a) os = true.
Proof.
  intros Hos. rewrite bytes_ltb_same_length by (symmetry; eapply to_bytes_length; eauto).
  rewrite (from_to_bytes _ _ _ Hos). apply Z.ltb_lt. lia.
Qed.

(** X16: cursors that do not point into the range of the address.  A
    cursor that sorts above [original_start] is reset: the query answers as
    it does without a cursor.  A non-empty cursor at or below the prefix of
    the address gives the empty page, with the prefix as the cursor. *)
Theorem get_transactions_by_address_stray_cursor self address start limit original_start :
  ENABLE_TRANSACTION_HISTORY (env self) = true ->
  to_bytes (length (blit "addr_" ++ Address_serialize address))
    (from_bytes (blit "addr_" ++ Address_serialize address) + 1) = Ok original_start ->
  (bytes_ltb original_start start = true ->
   get_transactions_by_address self address start limit
   = get_transactions_by_address self address [] limit)
  /\ (start <> [] ->
      bytes_leb start (blit "addr_" ++ Address_serialize address) = true ->
      get_transactions_by_address self address start limit
      = Ok ([], blit "addr_" ++ Address_serialize address)).
Proof.
  intros Hon Hos. rewrite !(get_transactions_by_address_scan _ _ _ _ _ Hon Hos).
  split.
  - intros ->. rewrite orb_true_r. reflexivity.
  - intros Hne Hle.
    pose proof (end_below_original_start _ _ Hos) as Hend.
    assert (bytes_ltb original_start start = false) as ->.
    { apply bytes_ltb_asym. eapply bytes_leb_ltb_trans; eassumption. }
    destruct start as [|b0 l0]; [congruence|]. cbn [orb].
    rewrite reversed_range_iter_empty; [reflexivity|].
    intros k Hlt Hk. exfalso.
    assert (bytes_ltb k k = true) as Hkk.
    { eapply bytes_leb_ltb_trans; [exact Hk|].
      eapply bytes_leb_ltb_trans; [exact Hle|exact Hlt]. }
    rewrite bytes_ltb_irrefl in Hkk. discriminate.
Qed.

(** X17: a page with fewer rows than the limit has exhausted the scan: the
    query that is passed its cursor returns the empty page. *)
Theorem get_transactions_by_address_last_page self address start limit rows next :
  ENABLE_TRANSACTION_HISTORY (env self) = true ->
  get_transactions_by_address self address start limit = Ok (rows, next) ->
  Z.of_nat (length rows) < limit ->
  forall limit2,
    get_transactions_by_address self address next limit2
    = Ok ([], blit "addr_" ++ Address_serialize address).
Proof.
  intros Hon Hget Hfew limit2.
  apply get_transactions_by_address_Ok in Hget as (os & start' & Hos & Hstart & Hloop);
    [|exact Hon].
  apply history_loop_Ok in Hloop as (rows' & Hrows & Hall & Hlast).
  simpl in Hrows. subst rows'.
  set (end_ := blit "addr_" ++ Address_serialize address) in *.
  set (scan := reversed_range_iter (db self) start' end_) in *.
  pose proof (end_below_original_start _ _ Hos) as Hend. fold end_ in Hend.
  assert (take (Z.to_nat limit) scan = scan) as Htake.
  { apply take_ge. apply Forall2_length in Hall. rewrite length_take in Hall. lia. }
  rewrite Htake in Hall, Hlast.
  rewrite (get_transactions_by_address_scan _ _ _ _ _ Hon Hos). fold end_.
  destruct (last scan) as [[k v]|] eqn:El.
  - cbn [fst] in Hlast.
    assert ((k, v) ∈ scan) as Hkin by (eapply last_Some_elem_of; exact El).
    apply elem_of_reversed_range_iter in Hkin as (Hkdb & Hkend & Hkstart).
    destruct (cursor_below _ _ _ Hkend Hlast) as (Hnlen & Hnval & Hnlt & Hnne).
    assert (bytes_leb start' os = true) as Hsos by (rewrite Hstart; apply scan_start_le).
    assert (bytes_ltb next os = true) as Hnos.
    { eapply bytes_ltb_leb_trans; [exact Hnlt|].
      eapply bytes_leb_trans; eassumption. }
    rewrite scan_start_cursor by assumption.
    rewrite reversed_range_iter_empty; [reflexivity|].
    intros k2 Hlt2 Hle2.
    destruct (db self !! k2) as [v2|] eqn:Ek2; [exfalso|reflexivity].
    assert (bytes_ltb k2 k = true) as Hk2k by (eapply bytes_leb_ltb_trans; eassumption).
    assert ((k2, v2) ∈ scan) as Hin2.
    { apply elem_of_reversed_range_iter. split; [exact Ek2|]. split; [exact Hlt2|].
      apply bytes_ltb_leb. eapply bytes_ltb_leb_trans; eassumption. }
    apply last_Some in El as [pre Hpre].
    pose proof (reversed_range_iter_sorted (db self) start' end_) as Hsorted.
    fold scan in Hsorted. rewrite Hpre in Hsorted, Hin2.
    apply elem_of_app in Hin2 as [Hin2|Hin2].
    + pose proof (StronglySorted_app_1_elem_of _ _ _ _ _ Hsorted Hin2
                    (list_elem_of_here _ _)) as Hgt.
      unfold key_gt in Hgt. cbn [fst] in Hgt.
      apply bytes_ltb_asym in Hgt. congruence.
    + apply list_elem_of_singleton in Hin2. injection Hin2 as -> ->.
      rewrite bytes_ltb_irrefl in Hk2k. discriminate.
  - subst next.
    assert (bytes_ltb os end_ = false) as -> by (apply bytes_ltb_asym; exact Hend).
    assert (match end_ with [] => true | _ :: _ => false end = false) as -> by reflexivity.
    cbn [orb].
    rewrite reversed_range_iter_empty; [reflexivity|].
    intros k Hlt Hle. exfalso.
    assert (bytes_ltb k k = true) as Hkk by (eapply bytes_leb_ltb_trans; eassumption).
    rewrite bytes_ltb_irrefl in Hkk. discriminate.
Qed.

End PaginationProperties.

Section RecoveryProperties.
Context `{Collaborators}.

Lemma length_root_chain_hashes r_hash chain :
  length (root_chain_hashes r_hash chain) = length chain.
Proof.
  revert r_hash. induction chain as [|b rest IH]; intros r_hash; simpl; [reflexivity|].
  rewrite IH. reflexivity.
Qed.

(** The first loop of [recover_state] along a stored root chain. *)
Lemma recover_root_blocks_walk visited :
  forall fuel self r_hash,
    stored_root_chain (db self) r_hash visited ->
    NoDup (root_chain_hashes r_hash visited) ->
    (forall h, h ∈ root_chain_hashes r_hash visited -> r_header_pool self !! h = None) ->
    heights_above_but_last (genesis_root_height (env self)) visited = true ->
    (visited = [] \/
     Z.of_nat (size (r_header_pool self) + length visited)
     <= max_root_blocks_in_memory (env self)) ->
    (max_root_blocks_in_memory (env self)
     <= Z.of_nat (size (r_header_pool self) + length visited) \/
     exists b, last visited = Some b
               /\ RootBlockHeader.height (RootBlock.header b)
                  <= genesis_root_height (env self)) ->
    (length visited < fuel)%nat ->
    exists self',
      recover_root_blocks fuel self r_hash = Ok self'
      /\ r_header_pool self'
         = list_to_map (zip (root_chain_hashes r_hash visited) (RootBlock.header <$> visited))
           ∪ r_header_pool self
      /\ size (r_header_pool self') = (size (r_header_pool self) + length visited)%nat.
Proof.
  induction visited as [|b rest IH];
    intros fuel self r_hash Hstored Hnd Hfresh Hpos Hroom Hstop Hfuel.
  - destruct fuel as [|fuel]; [simpl in Hfuel; lia|]. simpl.
    destruct Hstop as [Hfull|(b & Hb & _)]; [|discriminate].
    simpl in Hfull.
    destruct (Z.ltb_spec (Z.of_nat (size (r_header_pool self)))
                (max_root_blocks_in_memory (env self))); [lia|].
    eexists. split; [reflexivity|].
    rewrite !(left_id_L ∅ (∪)). split; [reflexivity|]. lia.
  - destruct fuel as [|fuel]; [simpl in Hfuel; lia|].
    cbn [stored_root_chain root_chain_hashes] in Hstored, Hnd, Hfresh. simpl in Hfuel.
    destruct Hstored as [Hb Hrest].
    apply NoDup_cons in Hnd as [Hnotin Hnd].
    destruct Hroom as [Hnil|Hroom]; [discriminate|]. simpl length in Hroom.
    cbn [recover_root_blocks].
    destruct (Z.ltb_spec (Z.of_nat (size (r_header_pool self)))
                (max_root_blocks_in_memory (env self))); [|lia].
    revert Hb.
    destruct (db_get (db self) (blit "rblock_" ++ r_hash)) as [data|]; [|discriminate].
    intros Hb.
    cbn [expect mbind result_bind rbind]. rewrite Hb. cbn [expect mbind result_bind rbind].
    assert (r_header_pool self !! r_hash = None) as Hm by (apply Hfresh; left).
    cbn [env with_r_header_pool].
    destruct (Z.leb_spec (RootBlockHeader.height (RootBlock.header b))
                (genesis_root_height (env self))) as [Hle|Hgt].
    + assert (rest = []) as ->.
      { destruct rest as [|b' rest']; [reflexivity|]. simpl in Hpos.
        apply andb_true_iff in Hpos as [Hpos _]. apply Z.ltb_lt in Hpos. lia. }
      eexists. split; [reflexivity|]. simpl.
      rewrite <- !insert_union_l, !(left_id_L ∅ (∪)).
      rewrite map_size_insert_None by exact Hm. split; [reflexivity|]. lia.
    + set (self1 := with_r_header_pool _ _).
      destruct (IH fuel self1 (RootBlockHeader.hash_prev_block (RootBlock.header b)))
        as (self' & Hrun & Hhp & Hsize).
      * exact Hrest.
      * exact Hnd.
      * intros h Hh. simpl. rewrite lookup_insert_ne; [apply Hfresh; right; exact Hh|].
        intros ->. contradiction.
      * destruct rest; [reflexivity|]. simpl in Hpos.
        apply andb_true_iff in Hpos as [_ Hpos]. exact Hpos.
      * right. simpl. rewrite map_size_insert_None by exact Hm. lia.
      * simpl size. rewrite map_size_insert_None by exact Hm.
        destruct Hstop as [Hfull|(b' & Hlast & Hb')].
        -- left. simpl length in Hfull. simpl. lia.
        -- right. rewrite last_cons in Hlast.
           destruct (last rest) as [b''|] eqn:El.
           ++ exists b''. split; [reflexivity|]. simpl. congruence.
           ++ injection Hlast as <-. lia.
      * lia.
      * exists self'. split; [exact Hrun|].
        simpl in Hhp, Hsize.
        rewrite map_size_insert_None in Hsize by exact Hm.
        split.
        { rewrite Hhp. apply pool_insert_union; [exact Hnotin|].
          rewrite length_root_chain_hashes. symmetry. apply length_fmap. }
        simpl length; lia.
Qed.

Lemma recover_minor_blocks_frame fuel :
  forall self m_hash self',
    recover_minor_blocks fuel self m_hash = Ok self' ->
    env self' = env self /\ db self' = db self /\ r_header_pool self' = r_header_pool self.
Proof.
  induction fuel as [|fuel IH]; intros self m_hash self'; simpl.
  - discriminate.
  - destruct (_ <? _); [|intros [= <-]; tauto].
    destruct (db_get _ _) as [data|]; simpl; [|discriminate].
    destruct (MinorBlock_deserialize data) as [block|]; simpl; [|discriminate].
    destruct (_ <=? _).
    + intros [= <-]. simpl. tauto.
    + intros Hrec. apply IH in Hrec. simpl in Hrec. exact Hrec.
Qed.

(** X18: the root walk of [recover_state], from the given root head back:
    it loads the stored root block at the current hash, pools its header
    under that hash and goes on to [hash_prev_block], and stops exactly when
    the root pool has [max_root_blocks_in_memory] entries or the block just
    visited is at the genesis root height or below.  The minor walk that
    follows starts from the state the root walk leaves, and leaves the root
    pool and the store as they are. *)
Theorem recover_state_root_walk fuel self r_header m_header visited :
  stored_root_chain (db self) (RootBlockHeader_get_hash r_header) visited ->
  NoDup (root_chain_hashes (RootBlockHeader_get_hash r_header) visited) ->
  (forall h, h ∈ root_chain_hashes (RootBlockHeader_get_hash r_header) visited ->
             r_header_pool self !! h = None) ->
  heights_above_but_last (genesis_root_height (env self)) visited = true ->
  (visited = [] \/
   Z.of_nat (size (r_header_pool self) + length visited)
   <= max_root_blocks_in_memory (env self)) ->
  (max_root_blocks_in_memory (env self)
   <= Z.of_nat (size (r_header_pool self) + length visited) \/
   exists b, last visited = Some b
             /\ RootBlockHeader.height (RootBlock.header b) <= genesis_root_height (env self)) ->
  (length visited < fuel)%nat ->
  exists self_r,
    recover_root_blocks fuel self (RootBlockHeader_get_hash r_header) = Ok self_r
    /\ r_header_pool self_r
       = list_to_map (zip (root_chain_hashes (RootBlockHeader_get_hash r_header) visited)
                          (RootBlock.header <$> visited))
         ∪ r_header_pool self
    /\ size (r_header_pool self_r) = (size (r_header_pool self) + length visited)%nat
    /\ recover_state fuel self r_header m_header
       = recover_minor_blocks fuel self_r (MinorBlockHeader_get_hash m_header)
    /\ forall self',
         recover_state fuel self r_header m_header = Ok self' ->
         r_header_pool self' = r_header_pool self_r /\ db self' = db self.
Proof.
  intros Hstored Hnd Hfresh Hpos Hroom Hstop Hfuel.
  destruct (recover_root_blocks_walk visited fuel self (RootBlockHeader_get_hash r_header))
    as (self_r & Hrun & Hpool & Hsize); try assumption.
  exists self_r. split; [exact Hrun|]. split; [exact Hpool|]. split; [exact Hsize|].
  assert (recover_state fuel self r_header m_header
          = recover_minor_blocks fuel self_r (MinorBlockHeader_get_hash m_header)) as Hstate.
  { unfold recover_state. rewrite Hrun. reflexivity. }
  split; [exact Hstate|].
  intros self' Hrec. rewrite Hstate in Hrec.
  apply recover_minor_blocks_frame in Hrec as (_ & Hdb & Hrp).
  apply recover_root_blocks_frame in Hrun as (_ & Hdb' & _).
  split; [exact Hrp|]. congruence.
Qed.

(** The second loop of [recover_state] along a stored chain that ends at a
    hash without a block. *)
Lemma recover_minor_blocks_missing visited :
  forall fuel self m_hash,
    stored_chain (db self) m_hash visited ->
    Forall (fun b => 0 < MinorBlockHeader.height (MinorBlock.header b)) visited ->
    Z.of_nat (size (m_header_pool self) + length visited)
    < max_minor_blocks_in_memory (env self) ->
    match db_get (db self) (blit "mblock_" ++ chain_end m_hash visited) with
    | Some data => MinorBlock_deserialize data
    | None => None
    end = None ->
    (length visited < fuel)%nat ->
    recover_minor_blocks fuel self m_hash = Raise DeserializeError.
Proof.
  induction visited as [|b rest IH];
    intros fuel self m_hash Hstored Hpos Hroom Hmiss Hfuel.
  - destruct fuel as [|fuel]; [simpl in Hfuel; lia|].
    cbn [chain_end] in Hmiss. simpl length in Hroom. cbn [recover_minor_blocks].
    destruct (Z.ltb_spec (Z.of_nat (size (m_header_pool self)))
                (max_minor_blocks_in_memory (env self))); [|lia].
    destruct (db_get (db self) (blit "mblock_" ++ m_hash)) as [data|]; [|reflexivity].
    cbn [expect mbind result_bind rbind]. rewrite Hmiss. reflexivity.
  - destruct fuel as [|fuel]; [simpl in Hfuel; lia|].
    cbn [stored_chain chain_end] in Hstored, Hmiss. simpl in Hfuel.
    destruct Hstored as [Hb Hrest].
    apply Forall_cons in Hpos as [Hb0 Hpos]. cbv beta in Hb0. simpl length in Hroom.
    cbn [recover_minor_blocks].
    destruct (Z.ltb_spec (Z.of_nat (size (m_header_pool self)))
                (max_minor_blocks_in_memory (env self))); [|lia].
    revert Hb.
    destruct (db_get (db self) (blit "mblock_" ++ m_hash)) as [data|]; [|discriminate].
    intros Hb.
    cbn [expect mbind result_bind rbind]. rewrite Hb. cbn [expect mbind result_bind rbind].
    destruct (Z.leb_spec (MinorBlockHeader.height (MinorBlock.header b)) 0) as [Hle|Hgt];
      [lia|].
    apply IH; simpl; try assumption; [|lia].
    pose proof (map_size_insert m_hash (MinorBlock.header b) (m_header_pool self)) as Hs.
    destruct (m_header_pool self !! m_hash); unfold id in Hs; lia.
Qed.

(** X19: a minor chain that breaks off is not recovered in part: when the
    blocks from the given head back are all above height 0, the pool has
    room for more than these, and the hash that the last one points to has
    no block in the store (for an empty chain: the head itself has none),
    [recover_state] raises instead of returning with the blocks it found. *)
Theorem recover_state_missing_block fuel self r_header m_header self_r visited :
  recover_root_blocks fuel self (RootBlockHeader_get_hash r_header) = Ok self_r ->
  stored_chain (db self) (MinorBlockHeader_get_hash m_header) visited ->
  Forall (fun b => 0 < MinorBlockHeader.height (MinorBlock.header b)) visited ->
  Z.of_nat (size (m_header_pool self) + length visited)
  < max_minor_blocks_in_memory (env self) ->
  match db_get (db self)
          (blit "mblock_" ++ chain_end (MinorBlockHeader_get_hash m_header) visited) with
  | Some data => MinorBlock_deserialize data
  | None => None
  end = None ->
  (length visited < fuel)%nat ->
  recover_state fuel self r_header m_header = Raise DeserializeError.
Proof.
  intros Hroot Hstored Hpos Hroom Hmiss Hfuel.
  pose proof (recover_root_blocks_frame _ _ _ _ Hroot) as (Henv & Hdb & Hhp & _).
  unfold recover_state. rewrite Hroot. cbn [mbind result_bind rbind].
  apply (recover_minor_blocks_missing visited).
  - rewrite Hdb. exact Hstored.
  - exact Hpos.
  - rewrite Hhp, Henv. exact Hroom.
  - rewrite Hdb. exact Hmiss.
  - exact Hfuel.
Qed.

End RecoveryProperties.

Section RootHeaderProperties.
Context `{Collaborators}.

(** The header lookup returns the header found for the hash, and leaves
    the headers found for all hashes, the store and the minor pools as they
    were; it only adds to the root pool. *)
Lemma get_root_block_header_by_hash_Ok self h o self' :
  get_root_block_header_by_hash self h = Ok (o, self') ->
  o = root_header_at self h
  /\ (forall h', root_header_at self' h' = root_header_at self h')
  /\ db self' = db self
  /\ r_header_pool self ⊆ r_header_pool self'
  /\ m_header_pool self' = m_header_pool self
  /\ m_meta_pool self' = m_meta_pool self.
Proof.
  unfold get_root_block_header_by_hash, root_header_at at 1, get_root_block_by_hash.
  destruct (r_header_pool self !! h) as [r|] eqn:Ep.
  { intros [= <- <-]. repeat split; reflexivity. }
  destruct (truthy (db_get (db self) (blit "rblock_" ++ h))) as [raw|] eqn:Et.
  2:{ cbn [mbind result_bind rbind mret result_ret]. intros [= <- <-].
      repeat split; reflexivity. }
  destruct (RootBlock_deserialize raw) as [b|] eqn:Ed;
    cbn [expect mbind result_bind rbind mret result_ret fmap option_fmap option_map];
    [|discriminate].
  unfold mret, result_ret. intros E. injection E as <- <-.
  split; [reflexivity|].
  cbn [r_header_pool db m_header_pool m_meta_pool with_r_header_pool].
  split; [|split; [reflexivity|split; [|split; reflexivity]]].
  - intros h'. unfold root_header_at.
    cbn [r_header_pool db with_r_header_pool].
    rewrite insert_insert_eq.
    destruct (decide (h = h')) as [<-|Hne].
    + rewrite lookup_insert_eq, Ep, Et, Ed. reflexivity.
    + rewrite lookup_insert_ne by exact Hne. reflexivity.
  - rewrite insert_insert_eq. apply insert_subseteq, Ep.
Qed.

Lemma get_root_block_header_by_hash_found self h r :
  root_header_at self h = Some r ->
  exists self', get_root_block_header_by_hash self h = Ok (Some r, self').
Proof.
  unfold get_root_block_header_by_hash, root_header_at, get_root_block_by_hash.
  destruct (r_header_pool self !! h) as [r0|].
  { intros [= <-]. eauto. }
  destruct (truthy (db_get (db self) (blit "rblock_" ++ h))) as [raw|]; [|discriminate].
  destruct (RootBlock_deserialize raw) as [b|];
    cbn [expect mbind result_bind rbind mret result_ret fmap option_fmap option_map];
    [|discriminate].
  intros [= <-]. eauto.
Qed.

Lemma root_header_walk_Ok fuel :
  forall self r_header height o self',
    root_header_walk fuel self r_header height = Ok (o, self') ->
    (exists r, o = Some r /\ RootBlockHeader.height r = height)
    /\ (forall h', root_header_at self' h' = root_header_at self h')
    /\ db self' = db self
    /\ r_header_pool self ⊆ r_header_pool self'
    /\ m_header_pool self' = m_header_pool self
    /\ m_meta_pool self' = m_meta_pool self.
Proof.
  induction fuel as [|fuel IH]; intros self r_header height o self'; cbn [root_header_walk].
  - discriminate.
  - destruct (Z.eqb_spec height (RootBlockHeader.height r_header)) as [->|Hne]; cbn [negb].
    + intros [= <- <-]. split; [eauto|]. repeat split; reflexivity.
    + destruct (get_root_block_header_by_hash self (RootBlockHeader.hash_prev_block r_header))
        as [[o1 self1]|] eqn:E1; cbn [mbind result_bind rbind]; [|discriminate].
      apply get_root_block_header_by_hash_Ok in E1 as (_ & Hv1 & Hd1 & Hp1 & Hh1 & Hm1).
      destruct o1 as [r1|]; cbn [expect mbind result_bind rbind]; [|discriminate].
      intros Hw. apply IH in Hw as (Hr & Hv & Hd & Hp & Hh & Hm).
      split; [exact Hr|].
      split; [intros h'; rewrite Hv; apply Hv1|].
      split; [congruence|].
      split; [etrans; eassumption|].
      split; congruence.
Qed.

Lemma get_root_block_header_by_height_Ok fuel self h height o self' :
  get_root_block_header_by_height fuel self h height = Ok (o, self') ->
  match o with
  | Some r => RootBlockHeader.height r = height
  | None => exists r, root_header_at self h = Some r /\ RootBlockHeader.height r < height
  end
  /\ db self' = db self
  /\ r_header_pool self ⊆ r_header_pool self'
  /\ m_header_pool self' = m_header_pool self
  /\ m_meta_pool self' = m_meta_pool self.
Proof.
  unfold get_root_block_header_by_height.
  destruct (get_root_block_header_by_hash self h) as [[o1 self1]|] eqn:E1;
    cbn [mbind result_bind rbind]; [|discriminate].
  apply get_root_block_header_by_hash_Ok in E1 as (Ho1 & Hv1 & Hd1 & Hp1 & Hh1 & Hm1).
  destruct o1 as [r1|]; cbn [expect mbind result_bind rbind]; [|discriminate].
  destruct (Z.ltb_spec (RootBlockHeader.height r1) height) as [Hlt|Hge].
  - intros [= <- <-]. split; [eauto|]. tauto.
  - intros Hw. apply root_header_walk_Ok in Hw as ((r & -> & Hr) & Hv & Hd & Hp & Hh & Hm).
    split; [exact Hr|].
    split; [congruence|].
    split; [etrans; eassumption|].
    split; congruence.
Qed.

(** X20: [get_root_block_header_by_height] from a head hash: without a
    header for the head it raises [AttributeError]; for a height above the
    head's it returns [None]; and a header it returns is at the height that
    was asked for.  When it returns it has left the store and the minor
    pools as they were, and has only added to the root pool. *)
Theorem get_root_block_header_by_height_cases fuel self h height :
  (forall s,
     get_root_block_header_by_hash self h = Ok (None, s) ->
     get_root_block_header_by_height fuel self h height = Raise AttributeError)
  /\ (forall r s,
        get_root_block_header_by_hash self h = Ok (Some r, s) ->
        RootBlockHeader.height r < height ->
        get_root_block_header_by_height fuel self h height = Ok (None, s))
  /\ (forall o self',
        get_root_block_header_by_height fuel self h height = Ok (o, self') ->
        match o with
        | Some r => RootBlockHeader.height r = height
        | None => exists r, root_header_at self h = Some r /\ RootBlockHeader.height r < height
        end
        /\ db self' = db self
        /\ r_header_pool self ⊆ r_header_pool self'
        /\ m_header_pool self' = m_header_pool self
        /\ m_meta_pool self' = m_meta_pool self).
Proof.
  split; [|split].
  - unfold get_root_block_header_by_height. intros s ->. reflexivity.
  - unfold get_root_block_header_by_height. intros r s -> Hlt.
    cbn [expect mbind result_bind rbind].
    destruct (Z.ltb_spec (RootBlockHeader.height r) height); [reflexivity|lia].
  - intros o self'. apply get_root_block_header_by_height_Ok.
Qed.

Lemma root_headers_from_same self self' :
  (forall h', root_header_at self' h' = root_header_at self h') ->
  forall chain h, root_headers_from self h chain -> root_headers_from self' h chain.
Proof.
  intros Hv. induction chain as [|r rest IH]; intros h; cbn [root_headers_from];
    [tauto|].
  intros [Hr Hrest]. split; [rewrite Hv; exact Hr|apply IH, Hrest].
Qed.

Lemma root_header_walk_chain visited :
  forall fuel self r target height,
    root_headers_from self (RootBlockHeader.hash_prev_block r) (visited ++ [target]) ->
    height <> RootBlockHeader.height r ->
    Forall (fun r' => RootBlockHeader.height r' <> height) visited ->
    RootBlockHeader.height target = height ->
    (S (length visited) < fuel)%nat ->
    exists self', root_header_walk fuel self r height = Ok (Some target, self').
Proof.
  induction visited as [|r1 rest IH]; intros fuel self r target height Hchain Hr Hv Ht Hfuel.
  - destruct fuel as [|[|fuel]]; [simpl in Hfuel; lia..|].
    cbn [app root_headers_from] in Hchain. destruct Hchain as [Htarget _].
    cbn [root_header_walk].
    destruct (Z.eqb_spec height (RootBlockHeader.height r)) as [|_]; [contradiction|].
    cbn [negb].
    destruct (get_root_block_header_by_hash_found _ _ _ Htarget) as (self1 & ->).
    cbn [expect mbind result_bind rbind].
    destruct (Z.eqb_spec height (RootBlockHeader.height target)) as [_|]; [|congruence].
    cbn [negb]. eauto.
  - destruct fuel as [|fuel]; [simpl in Hfuel; lia|].
    cbn [app root_headers_from] in Hchain. destruct Hchain as [Hr1 Hrest].
    apply Forall_cons in Hv as [Hr1h Hv]. cbv beta in Hr1h.
    cbn [root_header_walk].
    destruct (Z.eqb_spec height (RootBlockHeader.height r)) as [|_]; [contradiction|].
    cbn [negb].
    destruct (get_root_block_header_by_hash_found _ _ _ Hr1) as (self1 & E1).
    rewrite E1. cbn [expect mbind result_bind rbind].
    apply get_root_block_header_by_hash_Ok in E1 as (_ & Hview & _).
    apply (IH fuel self1 r1 target height).
    + eapply root_headers_from_same; [exact Hview|exact Hrest].
    + congruence.
    + exact Hv.
    + exact Ht.
    + simpl in Hfuel. lia.
Qed.

(** X21: [get_root_block_header_by_height] walks back from the head along
    [hash_prev_block] and returns the first header at the height asked for:
    when the chain of headers found from the head is [visited] followed by
    [target], the head is not below the height, no header of [visited] is at
    the height and [target] is, it returns [target]. *)
Theorem get_root_block_header_by_height_walk fuel self h height visited target :
  root_headers_from self h (visited ++ [target]) ->
  (forall r, head (visited ++ [target]) = Some r -> height <= RootBlockHeader.height r) ->
  Forall (fun r => RootBlockHeader.height r <> height) visited ->
  RootBlockHeader.height target = height ->
  (S (length visited) < fuel)%nat ->
  exists self',
    get_root_block_header_by_height fuel self h height = Ok (Some target, self')
    /\ db self' = db self.
Proof.
  intros Hchain Hhead Hv Ht Hfuel.
  assert (exists self', get_root_block_header_by_height fuel self h height
                        = Ok (Some target, self')) as (self' & Hget).
  { unfold get_root_block_header_by_height.
    destruct visited as [|r rest].
    - cbn [app root_headers_from] in Hchain. destruct Hchain as [Htarget _].
      destruct (get_root_block_header_by_hash_found _ _ _ Htarget) as (self1 & ->).
      cbn [expect mbind result_bind rbind].
      destruct (Z.ltb_spec (RootBlockHeader.height target) height); [lia|].
      destruct fuel as [|fuel]; [simpl in Hfuel; lia|]. cbn [root_header_walk].
      destruct (Z.eqb_spec height (RootBlockHeader.height target)) as [_|]; [|congruence].
      cbn [negb]. eauto.
    - cbn [app root_headers_from] in Hchain. destruct Hchain as [Hr Hrest].
      apply Forall_cons in Hv as [Hrh Hv]. cbv beta in Hrh.
      specialize (Hhead r eq_refl).
      destruct (get_root_block_header_by_hash_found _ _ _ Hr) as (self1 & E1).
      rewrite E1. cbn [expect mbind result_bind rbind].
      apply get_root_block_header_by_hash_Ok in E1 as (_ & Hview & _).
      destruct (Z.ltb_spec (RootBlockHeader.height r) height); [lia|].
      apply (root_header_walk_chain rest).
      + eapply root_headers_from_same; [exact Hview|exact Hrest].
      + congruence.
      + exact Hv.
      + exact Ht.
      + simpl in Hfuel. lia. }
  exists self'. split; [exact Hget|].
  apply get_root_block_header_by_height_Ok in Hget. tauto.
Qed.

End RootHeaderProperties.

Section CountProperties.
Context `{Collaborators}.

(** The count that [put_minor_block] leaves for the block it stores. *)
Lemma put_minor_block_recorded self B xs self' :
  put_minor_block self B xs = Ok self' ->
  get_total_tx_count self' (MinorBlockHeader_get_hash (MinorBlock.header B))
  = expected_count self B.
Proof.
  intros Hput. unfold put_minor_block in Hput.
  destruct (put_total_tx_count _ B) as [s1|e] eqn:E1; simpl in Hput; [|discriminate].
  injection Hput as <-.
  apply put_total_tx_count_Ok in E1 as (bs & Hbs & ->).
  assert (expected_count
            (with_db self
               (db_put (db self)
                  (blit "mblock_" ++ MinorBlockHeader_get_hash (MinorBlock.header B))
                  (MinorBlock_serialize B))) B = expected_count self B) as Hrec.
  { unfold expected_count.
    rewrite get_total_tx_count_with_db_ne by key_neq. reflexivity. }
  rewrite Hrec in Hbs.
  unfold put_confirmed_cross_shard_transaction_deposit_list, get_total_tx_count, db_get.
  destruct (ENABLE_TRANSACTION_HISTORY _); simpl.
  - unfold db_put. rewrite lookup_insert_ne by key_neq.
    rewrite lookup_insert_eq, truthy_Some_nonempty by (eapply to_bytes_nonempty; eauto).
    eapply from_to_bytes; eauto.
  - unfold db_put.
    rewrite lookup_insert_eq, truthy_Some_nonempty by (eapply to_bytes_nonempty; eauto).
    eapply from_to_bytes; eauto.
Qed.

(** X22: the count accumulates along a chain: after the blocks of a chain
    above height 2 have been stored in order, each on its parent, the count
    of the last one is the count that its first parent had plus the number
    of transactions in the blocks of the chain. *)
Theorem total_tx_count_along_chain chain :
  forall self self' prev,
    extends prev chain ->
    run (put_chain chain) self = Ok self' ->
    get_total_tx_count self' (tip prev chain)
    = get_total_tx_count self prev + tx_total chain.
Proof.
  induction chain as [|[B xs] rest IH]; intros self self' prev Hext Hrun.
  - injection Hrun as <-. simpl. lia.
  - cbn [extends tip tx_total fst snd] in *.
    destruct Hext as (Hh & Hprev & Hext).
    cbn [put_chain fmap list_fmap run exec fst snd] in Hrun.
    destruct (put_minor_block self B xs) as [self1|] eqn:E1;
      cbn [mbind result_bind rbind] in Hrun; [|discriminate].
    rewrite (IH self1 self' _ Hext Hrun).
    rewrite (put_minor_block_recorded _ _ _ _ E1).
    unfold expected_count. rewrite Hprev.
    destruct (Z.ltb_spec 2 (MinorBlockHeader.height (MinorBlock.header B))); lia.
Qed.

End CountProperties.

Section KeepProperties.
Context `{Collaborators}.

Lemma keeps_refl self : keeps self self.
Proof. unfold keeps. tauto. Qed.

Lemma keeps_trans s1 s2 s3 : keeps s1 s2 -> keeps s2 s3 -> keeps s1 s3.
Proof. unfold keeps. intros (A1 & B1 & C1 & D1) (A2 & B2 & C2 & D2). repeat split; eauto. Qed.

Lemma index_key_false k :
  index_key k = false ->
  take 3 k <> blit "mi_" /\ take 8 k <> blit "txindex_" /\ take 5 k <> blit "addr_".
Proof.
  unfold index_key. intros Hk.
  apply orb_false_iff in Hk as [Hk H3]. apply orb_false_iff in Hk as [H1 H2].
  apply bool_decide_eq_false in H1, H2, H3. tauto.
Qed.

Lemma keeps_db self d :
  (forall k, index_key k = false -> is_Some (db self !! k) -> is_Some (d !! k)) ->
  keeps self (with_db self d).
Proof. intros Hd. unfold keeps. simpl. repeat split; auto. Qed.

Lemma keeps_put self k v : keeps self (with_db self (db_put (db self) k v)).
Proof.
  apply keeps_db. intros j _ Hs. rewrite lookup_db_put.
  destruct (decide (j = k)); [eauto|exact Hs].
Qed.

Lemma keeps_remove self k :
  index_key k = true -> keeps self (with_db self (db_remove (db self) k)).
Proof.
  intros Hk. apply keeps_db. intros j Hj Hs. rewrite lookup_db_remove.
  destruct (decide (j = k)) as [->|]; [congruence|exact Hs].
Qed.

Lemma keeps_m_header_pool self h x :
  keeps self (with_m_header_pool self (<[h := x]> (m_header_pool self))).
Proof.
  unfold keeps. simpl. repeat split; auto.
  intros h' Hs. apply lookup_insert_is_Some. destruct (decide (h = h')); auto.
Qed.

Lemma keeps_m_meta_pool self h x :
  keeps self (with_m_meta_pool self (<[h := x]> (m_meta_pool self))).
Proof.
  unfold keeps. simpl. repeat split; auto.
  intros h' Hs. apply lookup_insert_is_Some. destruct (decide (h = h')); auto.
Qed.

Lemma keeps_r_header_pool self h x :
  keeps self (with_r_header_pool self (<[h := x]> (r_header_pool self))).
Proof.
  unfold keeps. simpl. repeat split; auto.
  intros h' Hs. apply lookup_insert_is_Some. destruct (decide (h = h')); auto.
Qed.

Lemma keeps_hashes self m : keeps self (with_height_to_minor_block_hashes self m).
Proof. unfold keeps. simpl. tauto. Qed.

(** The state after some more puts and pool insertions keeps. *)
Ltac keeps_more :=
  repeat match goal with
    | |- keeps ?s ?s => apply keeps_refl
    | |- keeps _ (with_db ?s (db_put _ ?k ?v)) =>
        apply (keeps_trans _ s); [|apply (keeps_put s k v)]
    | |- keeps _ (with_m_header_pool ?s (<[?h := ?x]> _)) =>
        apply (keeps_trans _ s); [|apply (keeps_m_header_pool s h x)]
    | |- keeps _ (with_m_meta_pool ?s (<[?h := ?x]> _)) =>
        apply (keeps_trans _ s); [|apply (keeps_m_meta_pool s h x)]
    | |- keeps _ (with_r_header_pool ?s (<[?h := ?x]> _)) =>
        apply (keeps_trans _ s); [|apply (keeps_r_header_pool s h x)]
    | |- keeps _ (with_height_to_minor_block_hashes ?s ?m) =>
        apply (keeps_trans _ s); [|apply (keeps_hashes s m)]
    end.

Lemma recover_root_blocks_keeps fuel :
  forall self r_hash self',
    recover_root_blocks fuel self r_hash = Ok self' -> keeps self self'.
Proof.
  induction fuel as [|fuel IH]; intros self r_hash self'; simpl.
  - discriminate.
  - destruct (_ <? _); [|intros [= <-]; apply keeps_refl].
    destruct (db_get _ _) as [data|]; simpl; [|discriminate].
    destruct (RootBlock_deserialize data) as [block|]; simpl; [|discriminate].
    destruct (_ <=? _).
    + intros [= <-]. apply keeps_r_header_pool.
    + intros Hrec. apply IH in Hrec.
      eapply keeps_trans; [apply keeps_r_header_pool|exact Hrec].
Qed.

Lemma recover_minor_blocks_keeps fuel :
  forall self m_hash self',
    recover_minor_blocks fuel self m_hash = Ok self' -> keeps self self'.
Proof.
  induction fuel as [|fuel IH]; intros self m_hash self'; simpl.
  - discriminate.
  - destruct (_ <? _); [|intros [= <-]; apply keeps_refl].
    destruct (db_get _ _) as [data|]; simpl; [|discriminate].
    destruct (MinorBlock_deserialize data) as [block|]; simpl; [|discriminate].
    destruct (_ <=? _).
    + intros [= <-]. keeps_more.
    + intros Hrec. apply IH in Hrec.
      eapply keeps_trans; [|exact Hrec]. keeps_more.
Qed.

Lemma get_root_block_by_hash_keeps self h o self' :
  get_root_block_by_hash self h = Ok (o, self') -> keeps self self'.
Proof.
  unfold get_root_block_by_hash.
  destruct (truthy _) as [raw|]; [|intros [= <- <-]; apply keeps_refl].
  destruct (RootBlock_deserialize raw) as [b|]; simpl; [|discriminate].
  intros [= <- <-]. apply keeps_r_header_pool.
Qed.

Lemma keeps_same_store self self' :
  db self' = db self ->
  r_header_pool self ⊆ r_header_pool self' ->
  m_header_pool self' = m_header_pool self ->
  m_meta_pool self' = m_meta_pool self ->
  keeps self self'.
Proof.
  intros Hd Hr Hh Hm. unfold keeps. rewrite Hd, Hh, Hm. repeat split; auto.
  intros h [r Hs]. exists r. eapply lookup_weaken; eassumption.
Qed.

Lemma get_minor_block_header_by_hash_keeps self h o self' :
  get_minor_block_header_by_hash self h = Ok (o, self') -> keeps self self'.
Proof.
  unfold get_minor_block_header_by_hash.
  destruct (get_minor_block_by_hash self h) as [[b|]|]; simpl; try discriminate;
    intros [= <- <-]; keeps_more.
Qed.

Lemma get_minor_block_meta_by_hash_keeps self h o self' :
  get_minor_block_meta_by_hash self h = Ok (o, self') -> keeps self self'.
Proof.
  unfold get_minor_block_meta_by_hash.
  destruct (get_minor_block_by_hash self h) as [[b|]|]; simpl; try discriminate;
    intros [= <- <-]; keeps_more.
Qed.

Lemma put_minor_block_keeps self B xs self' :
  put_minor_block self B xs = Ok self' -> keeps self self'.
Proof.
  unfold put_minor_block.
  destruct (put_total_tx_count _ B) as [s1|] eqn:E1; simpl; [|discriminate].
  apply put_total_tx_count_Ok in E1 as (bs & _ & ->).
  intros [= <-]. unfold put_confirmed_cross_shard_transaction_deposit_list.
  destruct (negb _); keeps_more.
Qed.

Lemma history_keys_index_key keys :
  Forall (fun k => take 5 k = blit "addr_") keys ->
  forall k, k ∈ keys -> index_key k = true.
Proof.
  intros Hk k Hin. rewrite Forall_forall in Hk. specialize (Hk k Hin).
  unfold index_key. rewrite (bool_decide_eq_true_2 _ Hk). apply orb_true_r.
Qed.

Lemma keeps_foldl_put self keys v :
  keeps self (with_db self (foldl (fun d k => db_put d k v) (db self) keys)).
Proof.
  apply keeps_db. intros j _ Hs. rewrite lookup_foldl_put.
  destruct (decide (j ∈ keys)); [eauto|exact Hs].
Qed.

Lemma keeps_foldl_remove self keys :
  (forall k, k ∈ keys -> index_key k = true) ->
  keeps self (with_db self (foldl (fun d k => db_remove d k) (db self) keys)).
Proof.
  intros Hk. apply keeps_db. intros j Hj Hs. rewrite lookup_foldl_remove.
  destruct (decide (j ∈ keys)) as [Hin|]; [|exact Hs].
  apply Hk in Hin. congruence.
Qed.

Lemma put_transaction_history_index_keeps self tx height index self' :
  put_transaction_history_index self tx height index = Ok self' -> keeps self self'.
Proof.
  unfold put_transaction_history_index.
  destruct (negb _); [intros [= <-]; apply keeps_refl|].
  rewrite update_transaction_history_index_keys.
  destruct (history_index_keys tx height index) as [keys|]; simpl; [|discriminate].
  intros [= <-]. apply keeps_foldl_put.
Qed.

Lemma remove_transaction_history_index_keeps self tx height index self' :
  remove_transaction_history_index self tx height index = Ok self' -> keeps self self'.
Proof.
  unfold remove_transaction_history_index.
  destruct (negb _); [intros [= <-]; apply keeps_refl|].
  rewrite update_transaction_history_index_keys.
  destruct (history_index_keys tx height index) as [keys|] eqn:Ek; simpl; [|discriminate].
  intros [= <-]. apply keeps_foldl_remove, history_keys_index_key.
  eapply history_index_keys_prefix; eauto.
Qed.

Lemma put_transaction_history_index_from_block_keeps self b self' :
  put_transaction_history_index_from_block self b = Ok self' -> keeps self self'.
Proof.
  unfold put_transaction_history_index_from_block.
  destruct (negb _); [intros [= <-]; apply keeps_refl|].
  unfold update_transaction_history_index_from_block.
  destruct (get_confirmed_cross_shard_transaction_deposit_list _ _) as [l|]; simpl;
    [|discriminate].
  rewrite update_history_from_deposits_keys.
  destruct (deposit_history_keys _ _ l) as [keys|]; simpl; [|discriminate].
  intros [= <-]. apply keeps_foldl_put.
Qed.

Lemma remove_transaction_history_index_from_block_keeps self b self' :
  remove_transaction_history_index_from_block self b = Ok self' -> keeps self self'.
Proof.
  unfold remove_transaction_history_index_from_block.
  destruct (negb _); [intros [= <-]; apply keeps_refl|].
  unfold update_transaction_history_index_from_block.
  destruct (get_confirmed_cross_shard_transaction_deposit_list _ _) as [l|]; simpl;
    [|discriminate].
  rewrite update_history_from_deposits_keys.
  destruct (deposit_history_keys _ _ l) as [keys|] eqn:Ek; simpl; [|discriminate].
  intros [= <-]. apply keeps_foldl_remove, history_keys_index_key.
  eapply deposit_history_keys_prefix; eauto.
Qed.

Lemma put_transaction_index_keeps self tx height index self' :
  put_transaction_index self tx height index = Ok self' -> keeps self self'.
Proof.
  unfold put_transaction_index.
  destruct (to_bytes 4 height); simpl; [|discriminate].
  destruct (to_bytes 4 index); simpl; [|discriminate].
  intros Hop. apply put_transaction_history_index_keeps in Hop.
  eapply keeps_trans; [apply keeps_put|exact Hop].
Qed.

Lemma remove_transaction_index_keeps self tx height index self' :
  remove_transaction_index self tx height index = Ok self' -> keeps self self'.
Proof.
  unfold remove_transaction_index.
  intros Hop. apply remove_transaction_history_index_keeps in Hop.
  eapply keeps_trans; [apply keeps_remove|exact Hop].
  unfold index_key. rewrite (bool_decide_eq_true_2 (take 8 _ = _)) by reflexivity.
  rewrite orb_true_r. reflexivity.
Qed.

Lemma for_each_transaction_keeps f l :
  (forall self tx height i self', f self tx height i = Ok self' -> keeps self self') ->
  forall self height i self',
    for_each_transaction f self height i l = Ok self' -> keeps self self'.
Proof.
  intros Hf. induction l as [|tx l IH]; intros self height i self'; simpl.
  - intros [= <-]. apply keeps_refl.
  - destruct (f self tx height i) as [self1|] eqn:E1; simpl; [|discriminate].
    apply Hf in E1. intros Hl. apply IH in Hl. eapply keeps_trans; eassumption.
Qed.

(** What one operation keeps. *)
Lemma exec_keeps op self self' : exec op self = Ok self' -> keeps self self'.
Proof.
  destruct op; simpl exec.
  - unfold recover_state.
    destruct (recover_root_blocks _ _ _) as [s1|] eqn:E1; simpl; [|discriminate].
    intros E2. apply recover_root_blocks_keeps in E1. apply recover_minor_blocks_keeps in E2.
    eapply keeps_trans; eassumption.
  - intros [= <-]. unfold put_root_block. keeps_more.
  - destruct (get_root_block_by_hash _ _) as [[o s1]|] eqn:E; simpl; [|discriminate].
    intros [= <-]. eapply get_root_block_by_hash_keeps; eauto.
  - destruct (get_root_block_header_by_hash _ _) as [[o s1]|] eqn:E; simpl; [|discriminate].
    intros [= <-].
    apply get_root_block_header_by_hash_Ok in E as (_ & _ & Hd & Hr & Hh & Hm).
    apply keeps_same_store; assumption.
  - destruct (get_root_block_header_by_height _ _ _ _) as [[o s1]|] eqn:E; simpl;
      [|discriminate].
    intros [= <-].
    apply get_root_block_header_by_height_Ok in E as (_ & Hd & Hr & Hh & Hm).
    apply keeps_same_store; assumption.
  - unfold get_last_confirmed_minor_block_header_at_root_block.
    destruct (db_get _ _) as [[|b l]|]; simpl; try (intros [= <-]; apply keeps_refl).
    destruct (get_minor_block_header_by_hash _ _) as [[o s1]|] eqn:E; simpl; [|discriminate].
    intros [= <-]. eapply get_minor_block_header_by_hash_keeps; eauto.
  - intros [= <-]. apply keeps_put.
  - apply put_minor_block_keeps.
  - intros Hop. apply put_total_tx_count_Ok in Hop as (bs & _ & ->). apply keeps_put.
  - destruct (get_minor_block_header_by_hash _ _) as [[o s1]|] eqn:E; simpl; [|discriminate].
    intros [= <-]. eapply get_minor_block_header_by_hash_keeps; eauto.
  - unfold get_minor_block_evm_root_hash_by_hash.
    destruct (get_minor_block_meta_by_hash _ _) as [[o s1]|] eqn:E; simpl; [|discriminate].
    intros [= <-]. eapply get_minor_block_meta_by_hash_keeps; eauto.
  - destruct (get_minor_block_meta_by_hash _ _) as [[o s1]|] eqn:E; simpl; [|discriminate].
    intros [= <-]. eapply get_minor_block_meta_by_hash_keeps; eauto.
  - intros [= <-]. apply keeps_put.
  - intros [= <-]. apply keeps_remove. reflexivity.
  - intros [= <-]. unfold get_block_count_by_height.
    destruct (height_to_minor_block_hashes self !! height); simpl;
      [apply keeps_refl|apply keeps_hashes].
  - apply put_transaction_index_keeps.
  - apply remove_transaction_index_keeps.
  - unfold put_transaction_index_from_block.
    destruct (for_each_transaction _ _ _ _ _) as [s1|] eqn:E; simpl; [|discriminate].
    apply for_each_transaction_keeps in E; [|apply put_transaction_index_keeps].
    intros Hop. apply put_transaction_history_index_from_block_keeps in Hop.
    eapply keeps_trans; eassumption.
  - unfold remove_transaction_index_from_block.
    destruct (for_each_transaction _ _ _ _ _) as [s1|] eqn:E; simpl; [|discriminate].
    apply for_each_transaction_keeps in E; [|apply remove_transaction_index_keeps].
    intros Hop. apply remove_transaction_history_index_from_block_keeps in Hop.
    eapply keeps_trans; eassumption.
  - intros [= <-]. apply keeps_put.
  - intros [= <-]. apply keeps_put.
  - intros [= <-]. unfold put_confirmed_cross_shard_transaction_deposit_list.
    destruct (negb _); [apply keeps_refl|apply keeps_put].
  - apply put_transaction_history_index_keeps.
  - apply remove_transaction_history_index_keeps.
  - apply put_transaction_history_index_from_block_keeps.
  - apply remove_transaction_history_index_from_block_keeps.
Qed.

Lemma run_keeps ops : forall self self', run ops self = Ok self' -> keeps self self'.
Proof.
  induction ops as [|op ops IH]; intros self self'; simpl run.
  - intros [= <-]. apply keeps_refl.
  - destruct (exec op self) as [self1|] eqn:E1; [|discriminate].
    cbn [mbind result_bind rbind].
    intros Hrun. apply IH in Hrun. apply exec_keeps in E1.
    eapply keeps_trans; eassumption.
Qed.

(** X23: the operator only ever takes entries out of its three indexes
    ([mi_], [txindex_], [addr_]).  Whatever operations are run, a key
    outside them that has an entry still has one, a hash with a pooled
    header or metadata still has one, and so a minor block, a root block or
    a remote minor block hash that is contained stays contained. *)
Theorem records_are_kept ops self self' :
  run ops self = Ok self' ->
  (forall k, index_key k = false -> is_Some (db self !! k) -> is_Some (db self' !! k))
  /\ (forall h, is_Some (m_header_pool self !! h) -> is_Some (m_header_pool self' !! h))
  /\ (forall h, is_Some (m_meta_pool self !! h) -> is_Some (m_meta_pool self' !! h))
  /\ (forall h, is_Some (r_header_pool self !! h) -> is_Some (r_header_pool self' !! h))
  /\ (forall h, contain_minor_block_by_hash self h = true ->
                contain_minor_block_by_hash self' h = true)
  /\ (forall h, contain_root_block_by_hash self h = true ->
                contain_root_block_by_hash self' h = true)
  /\ (forall h, contain_remote_minor_block_hash self h = true ->
                contain_remote_minor_block_hash self' h = true).
Proof.
  intros Hrun. apply run_keeps in Hrun. destruct Hrun as (Hd & Hh & Hm & Hr).
  assert (forall k, index_key k = false ->
                    db_contains (db self) k = true -> db_contains (db self') k = true) as Hc.
  { intros k Hk. unfold db_contains. specialize (Hd k Hk).
    destruct (db self !! k) as [v|]; [|discriminate].
    destruct (Hd (ex_intro _ v eq_refl)) as [v' ->]. reflexivity. }
  assert (forall {X} (p p' : gmap bytes X) h,
             (is_Some (p !! h) -> is_Some (p' !! h)) ->
             match p !! h with Some _ => true | None => false end = true ->
             match p' !! h with Some _ => true | None => false end = true) as Hp.
  { intros X p p' h Hs. destruct (p !! h) as [x|]; [|discriminate].
    destruct (Hs (ex_intro _ x eq_refl)) as [x' ->]. reflexivity. }
  split; [exact Hd|]. split; [exact Hh|]. split; [exact Hm|]. split; [exact Hr|].
  split; [|split].
  - intros h. unfold contain_minor_block_by_hash. rewrite !orb_true_iff.
    intros [Hin|Hin]; [left; eapply Hp; [apply Hh|exact Hin]|right; apply Hc; [reflexivity|exact Hin]].
  - intros h. unfold contain_root_block_by_hash. rewrite !orb_true_iff.
    intros [Hin|Hin]; [left; eapply Hp; [apply Hr|exact Hin]|right; apply Hc; [reflexivity|exact Hin]].
  - intros h. unfold contain_remote_minor_block_hash. cbv zeta. apply Hc. reflexivity.
Qed.

End KeepProperties.

Section CompositionProperties.
Context `{Collaborators}.

(** X24: the generic [put] and [get] work on the store that the typed
    operations use.  A value put under a key is what [get] returns for it,
    whatever the default; the other keys read as before; a key without an
    entry reads as the default; and after [put_minor_block] the serialized
    block is what [get] returns for the block's [mblock_] key, while a
    [put] under a [tx_count_] key sets the count that [get_total_tx_count]
    reads. *)
Theorem put_get_roundtrip self key value default :
  get (put self key value) key default = Some value
  /\ (forall other, other <> key ->
                    get (put self key value) other default = get self other default)
  /\ (db self !! key = None -> get self key default = default)
  /\ (forall B xs self',
        put_minor_block self B xs = Ok self' ->
        get self' (blit "mblock_" ++ MinorBlockHeader_get_hash (MinorBlock.header B)) default
        = Some (MinorBlock_serialize B))
  /\ (forall h, value <> [] ->
                get_total_tx_count (put self (blit "tx_count_" ++ h) value) h
                = from_bytes value).
Proof.
  unfold get, put, db_get, db_put. cbn [db with_db].
  split; [|split; [|split; [|split]]].
  - rewrite lookup_insert_eq. reflexivity.
  - intros other Hother. rewrite lookup_insert_ne by congruence. reflexivity.
  - intros ->. reflexivity.
  - intros B xs self' Hput.
    apply put_minor_block_Ok in Hput as (bs & Hdb & _).
    rewrite Hdb. destruct (ENABLE_TRANSACTION_HISTORY (env self)).
    + rewrite lookup_insert_ne by key_neq. rewrite lookup_insert_ne by key_neq.
      rewrite lookup_insert_eq. reflexivity.
    + rewrite lookup_insert_ne by key_neq. rewrite lookup_insert_eq. reflexivity.
  - intros h Hne. unfold get_total_tx_count, db_get. cbn [db with_db].
    rewrite lookup_insert_eq, truthy_Some_nonempty by exact Hne. reflexivity.
Qed.

(** X25: a block that is stored, put in the positional index and then
    indexed is found: the lookup by its height returns it, and the lookup of
    a transaction of the block by its hash returns the block and the
    position of the transaction (the last position, for a hash that occurs
    more than once in the block). *)
Theorem stored_block_transaction_lookup self B xs self1 self3 :
  put_minor_block self B xs = Ok self1 ->
  put_transaction_index_from_block (put_minor_block_index self1 B) B = Ok self3 ->
  MinorBlock_serialize B <> [] ->
  MinorBlock_deserialize (MinorBlock_serialize B) = Some B ->
  get_minor_block_by_height self3 (MinorBlockHeader.height (MinorBlock.header B))
  = Ok (Some B)
  /\ forall j tx,
       MinorBlock.tx_list B !! j = Some tx ->
       (forall j' tx', (j < j')%nat -> MinorBlock.tx_list B !! j' = Some tx' ->
                       Transaction_get_hash tx' <> Transaction_get_hash tx) ->
       contain_transaction_hash self3 (Transaction_get_hash tx) = true
       /\ get_transaction_by_hash self3 (Transaction_get_hash tx)
          = Ok (Some B, Some (Z.of_nat j)).
Proof.
  intros Hput Hindex Hne Hrt.
  pose proof (put_minor_block_get _ _ _ _ Hput Hne Hrt) as (_ & Hget).
  assert (get_minor_block_by_height self3 (MinorBlockHeader.height (MinorBlock.header B))
          = Ok (Some B)) as Hheight.
  { rewrite (put_transaction_index_from_block_height _ _ _ _ Hindex).
    rewrite minor_block_index_lookup. exact Hget. }
  split; [exact Hheight|].
  intros j tx Hj Hlater.
  apply put_transaction_index_from_block_Ok in Hindex as (_ & Hloc).
  destruct (Hloc j tx Hj) as (Hhr & Hjr & Hs & Hl).
  split.
  - unfold contain_transaction_hash, db_contains. cbv zeta.
    destruct Hs as [v ->]. reflexivity.
  - rewrite (get_transaction_by_hash_located _ _ _ _ (Hl Hlater) Hhr Hjr), Hheight.
    reflexivity.
Qed.

End CompositionProperties.

Section UndoProperties.
Context `{Collaborators}.

Lemma with_db_same self : with_db self (db self) = self.
Proof. destruct self; reflexivity. Qed.

(** The indexing loop writes the keys of [block_transaction_keys]. *)
Lemma for_each_put_written l :
  forall self height i self1,
    for_each_transaction put_transaction_index self height i l = Ok self1 ->
    exists ks d1,
      block_transaction_keys (ENABLE_TRANSACTION_HISTORY (env self)) height i l = Ok ks
      /\ self1 = with_db self d1
      /\ forall k, k ∉ ks -> d1 !! k = db self !! k.
Proof.
  induction l as [|tx l IH]; intros self height i self1; cbn [for_each_transaction].
  - intros [= <-]. exists [], (db self). split; [reflexivity|].
    split; [symmetry; apply with_db_same|]. reflexivity.
  - destruct (put_transaction_index self tx height i) as [s'|] eqn:E1;
      cbn [mbind result_bind rbind]; [|discriminate].
    apply put_transaction_index_Ok in E1 as (keys & Hk & _ & _ & ->).
    intros Hl. apply IH in Hl as (ks & d1 & Hks & -> & Hd1).
    cbn [env db with_db] in Hks, Hd1.
    cbn [block_transaction_keys]. rewrite Hk, Hks.
    cbn [mbind result_bind rbind mret result_ret].
    eexists. exists d1. split; [reflexivity|]. split; [reflexivity|].
    intros k Hk'. rewrite elem_of_app, elem_of_cons in Hk'.
    rewrite Hd1 by tauto.
    rewrite lookup_foldl_put, decide_False by tauto.
    rewrite lookup_db_put. apply decide_False. tauto.
Qed.

(** The de-indexing loop removes the keys of [block_transaction_keys]. *)
Lemma for_each_remove_removed l :
  forall self height i ks,
    block_transaction_keys (ENABLE_TRANSACTION_HISTORY (env self)) height i l = Ok ks ->
    for_each_transaction remove_transaction_index self height i l
    = Ok (with_db self (foldl (fun d k => db_remove d k) (db self) ks)).
Proof.
  induction l as [|tx l IH]; intros self height i ks;
    cbn [block_transaction_keys for_each_transaction].
  - intros [= <-]. cbn [foldl]. rewrite with_db_same. reflexivity.
  - destruct (history_index_keys tx height i) as [keys|] eqn:Hk;
      cbn [mbind result_bind rbind]; [|discriminate].
    destruct (block_transaction_keys _ height (i + 1) l) as [rest|] eqn:Hrest;
      cbn [mbind result_bind rbind mret result_ret]; [|discriminate].
    unfold mret, result_ret. intros E. injection E as <-.
    rewrite (remove_transaction_index_keys _ _ _ _ _ Hk).
    cbn [mbind result_bind rbind].
    rewrite (IH _ _ _ rest) by exact Hrest.
    cbn [env db with_db foldl]. rewrite foldl_app. reflexivity.
Qed.

Lemma block_transaction_keys_shape l :
  forall history height i ks,
    block_transaction_keys history height i l = Ok ks ->
    (forall tx, tx ∈ l -> blit "txindex_" ++ Transaction_get_hash tx ∈ ks)
    /\ (forall k, k ∈ ks ->
                  take 5 k = blit "addr_"
                  \/ exists tx, tx ∈ l /\ k = blit "txindex_" ++ Transaction_get_hash tx).
Proof.
  induction l as [|tx l IH]; intros history height i ks; cbn [block_transaction_keys].
  - intros [= <-]. split; [intros tx Htx; inversion Htx|intros k Hk; inversion Hk].
  - destruct (history_index_keys tx height i) as [keys|] eqn:Hk;
      cbn [mbind result_bind rbind]; [|discriminate].
    destruct (block_transaction_keys _ height (i + 1) l) as [rest|] eqn:Hrest;
      cbn [mbind result_bind rbind mret result_ret]; [|discriminate].
    unfold mret, result_ret. intros E. injection E as <-.
    apply IH in Hrest as (Hin & Hshape).
    apply history_index_keys_prefix in Hk.
    split.
    + intros tx' Htx'. rewrite elem_of_cons, elem_of_app.
      apply elem_of_cons in Htx' as [->|Htx']; [left; reflexivity|].
      right. right. apply Hin, Htx'.
    + intros k Hin'. rewrite elem_of_cons, elem_of_app in Hin'.
      destruct Hin' as [->|[Hin'|Hin']].
      * right. exists tx. split; [left|reflexivity].
      * left. destruct history; [|inversion Hin'].
        rewrite Forall_forall in Hk. apply Hk, Hin'.
      * destruct (Hshape k Hin') as [Ha|(tx' & Htx' & ->)]; [left; exact Ha|].
        right. exists tx'. split; [right; exact Htx'|reflexivity].
Qed.

(** X26: de-indexing a block right after indexing it goes through and
    takes out what the indexing wrote: no transaction of the block is
    contained any more, an entry that is left is one that was there before
    the indexing with the value it had, the keys outside the address
    history and the [txindex_] entries of the block's transactions read as
    before, and the operator is back in the state before the indexing when
    that state had no history entry and none of the transactions
    indexed. *)
Theorem remove_after_put_transaction_index_from_block self minor_block self1 :
  put_transaction_index_from_block self minor_block = Ok self1 ->
  exists self2,
    remove_transaction_index_from_block self1 minor_block = Ok self2
    /\ (forall tx, tx ∈ MinorBlock.tx_list minor_block ->
                   contain_transaction_hash self2 (Transaction_get_hash tx) = false)
    /\ (forall k, db self2 !! k = None \/ db self2 !! k = db self !! k)
    /\ (forall k,
          take 5 k <> blit "addr_" ->
          (forall tx, tx ∈ MinorBlock.tx_list minor_block ->
                      k <> blit "txindex_" ++ Transaction_get_hash tx) ->
          db self2 !! k = db self !! k)
    /\ ((forall k, take 5 k = blit "addr_" -> db self !! k = None) ->
        (forall tx, tx ∈ MinorBlock.tx_list minor_block ->
                    contain_transaction_hash self (Transaction_get_hash tx) = false) ->
        self2 = self).
Proof.
  unfold put_transaction_index_from_block.
  destruct (for_each_transaction _ _ _ _ _) as [s1|] eqn:E1;
    cbn [mbind result_bind rbind]; [|discriminate].
  apply for_each_put_written in E1 as (ks & d1 & Hks & -> & Hd1).
  intros Hput.
  set (height := MinorBlockHeader.height (MinorBlock.header minor_block)) in *.
  set (h := MinorBlockHeader_get_hash (MinorBlock.header minor_block)) in *.
  pose proof (block_transaction_keys_shape _ _ _ _ _ Hks) as (Hinks & Hshape).
  (* the history entries of the deposits, written and then removed *)
  assert (exists dks,
            Forall (fun k => take 5 k = blit "addr_") dks
            /\ self1 = with_db self (foldl (fun d k => db_put d k []) d1 dks)
            /\ forall s,
                 env s = env self ->
                 db s !! (blit "xr_" ++ h) = d1 !! (blit "xr_" ++ h) ->
                 remove_transaction_history_index_from_block s minor_block
                 = Ok (with_db s (foldl (fun d k => db_remove d k) (db s) dks)))
    as (dks & Hdks & -> & Hremove).
  { revert Hput.
    unfold put_transaction_history_index_from_block,
      remove_transaction_history_index_from_block.
    cbn [env with_db].
    destruct (ENABLE_TRANSACTION_HISTORY (env self)) eqn:Hflag; cbn [negb].
    2:{ intros [= <-]. exists []. split; [constructor|]. split; [reflexivity|].
        intros s -> _. rewrite Hflag. cbn [negb foldl]. rewrite with_db_same. reflexivity. }
    unfold update_transaction_history_index_from_block,
      get_confirmed_cross_shard_transaction_deposit_list, db_get. fold h. fold height.
    cbn [db with_db].
    destruct (match truthy (d1 !! (blit "xr_" ++ h)) with
              | Some data => expect DeserializeError (CrossShardTransactionList_deserialize data)
              | None => Ok []
              end) as [l|] eqn:El; cbn [mbind result_bind rbind]; [|discriminate].
    rewrite update_history_from_deposits_keys.
    destruct (deposit_history_keys height 0 l) as [dks|] eqn:Ed;
      cbn [mbind result_bind rbind mret result_ret]; [|discriminate].
    unfold mret, result_ret. intros E. injection E as <-.
    exists dks. split; [eapply deposit_history_keys_prefix; exact Ed|].
    split; [reflexivity|].
    intros s Henv Hxr. rewrite Henv, Hflag, Hxr. cbn [negb].
    rewrite El. cbn [mbind result_bind rbind].
    rewrite update_history_from_deposits_keys, Ed. reflexivity. }
  unfold remove_transaction_index_from_block. fold height.
  rewrite (for_each_remove_removed _ _ _ _ ks) by exact Hks.
  cbn [mbind result_bind rbind db with_db].
  assert (forall k, take 5 k = blit "addr_" -> k <> blit "xr_" ++ h) as Hxr_addr.
  { intros k Hk ->. vm_compute in Hk. discriminate Hk. }
  assert (blit "xr_" ++ h ∉ ks) as Hxr_ks.
  { intros Hin. destruct (Hshape _ Hin) as [Ha|(tx & _ & E)].
    - vm_compute in Ha. discriminate Ha.
    - apply (f_equal (hd x00)) in E. vm_compute in E. discriminate E. }
  assert (blit "xr_" ++ h ∉ dks) as Hxr_dks.
  { intros Hin. rewrite Forall_forall in Hdks. apply Hdks in Hin.
    vm_compute in Hin. discriminate Hin. }
  rewrite Hremove.
  2:{ reflexivity. }
  2:{ cbn [db with_db]. rewrite lookup_foldl_remove, decide_False by exact Hxr_ks.
      rewrite lookup_foldl_put, decide_False by exact Hxr_dks. reflexivity. }
  cbn [db with_db].
  set (d2 := foldl (fun d k => db_remove d k)
               (foldl (fun d k => db_remove d k)
                  (foldl (fun d k => db_put d k []) d1 dks) ks) dks).
  assert (forall k, d2 !! k
                    = if decide (k ∈ ks \/ k ∈ dks) then None else db self !! k) as Hlook.
  { intros k. unfold d2. rewrite lookup_foldl_remove.
    destruct (decide (k ∈ dks)) as [Hin|Hnin].
    - rewrite decide_True by tauto. reflexivity.
    - rewrite lookup_foldl_remove.
      destruct (decide (k ∈ ks)) as [Hin|Hnin'].
      + rewrite decide_True by tauto. reflexivity.
      + rewrite decide_False by tauto.
        rewrite lookup_foldl_put, decide_False by exact Hnin.
        apply Hd1, Hnin'. }
  eexists. split; [reflexivity|]. cbn [db with_db]. fold d2.
  split; [|split; [|split]].
  - intros tx Htx. unfold contain_transaction_hash, db_contains. cbn [db with_db].
    rewrite Hlook, decide_True by (left; apply Hinks, Htx). reflexivity.
  - intros k. rewrite Hlook. destruct (decide _); [left|right]; reflexivity.
  - intros k Hk Htx. rewrite Hlook. apply decide_False. intros [Hin|Hin].
    + destruct (Hshape _ Hin) as [Ha|(tx & Hin' & ->)]; [contradiction|].
      exact (Htx tx Hin' eq_refl).
    + rewrite Forall_forall in Hdks. apply Hk, Hdks, Hin.
  - intros Haddr Htx.
    rewrite <- (with_db_same self) at 2.
    destruct self as [e d hp mp rp hm]. unfold with_db.
    cbn [db env m_header_pool m_meta_pool r_header_pool height_to_minor_block_hashes] in *.
    f_equal. apply map_eq. intros k. rewrite Hlook.
    destruct (decide _) as [[Hin|Hin]|]; [| |reflexivity]; symmetry.
    + destruct (Hshape _ Hin) as [Ha|(tx & Hin' & ->)]; [apply Haddr, Ha|].
      specialize (Htx tx Hin'). unfold contain_transaction_hash, db_contains in Htx.
      cbn [db] in Htx. destruct (d !! _); [discriminate|reflexivity].
    + rewrite Forall_forall in Hdks. apply Haddr, Hdks, Hin.
Qed.

End UndoProperties.

Section QueryProperties.
Context `{Collaborators}.

(** X27: a page that is not full holds the whole history of the address:
    when the query without a cursor returns fewer rows than the limit,
    every entry that the store has under a key of the address (the prefix
    [addr_] and the serialized address, followed by more bytes) has its row
    in the page, and every row of the page is the row of an entry of the
    store above the prefix. *)
Theorem get_transactions_by_address_complete self address limit rows next :
  ENABLE_TRANSACTION_HISTORY (env self) = true ->
  get_transactions_by_address self address [] limit = Ok (rows, next) ->
  Z.of_nat (length rows) < limit ->
  (forall rest v,
     rest <> [] ->
     db self !! ((blit "addr_" ++ Address_serialize address) ++ rest) = Some v ->
     exists row,
       row ∈ rows
       /\ transaction_detail_at self ((blit "addr_" ++ Address_serialize address) ++ rest)
          = Ok row)
  /\ (forall row,
        row ∈ rows ->
        exists k v,
          db self !! k = Some v
          /\ bytes_ltb (blit "addr_" ++ Address_serialize address) k = true
          /\ transaction_detail_at self k = Ok row).
Proof.
  intros Hon Hget Hfew.
  apply get_transactions_by_address_Ok in Hget as (os & start' & Hos & Hstart & Hloop);
    [|exact Hon].
  cbn [orb] in Hstart. subst start'.
  apply history_loop_Ok in Hloop as (rows' & Hrows & Hall & _).
  simpl in Hrows. subst rows'.
  set (end_ := blit "addr_" ++ Address_serialize address) in *.
  set (scan := reversed_range_iter (db self) os end_) in *.
  assert (take (Z.to_nat limit) scan = scan) as Htake.
  { apply take_ge. apply Forall2_length in Hall. rewrite length_take in Hall. lia. }
  rewrite Htake in Hall.
  split.
  - intros rest v Hrest Hk.
    assert ((end_ ++ rest, v) ∈ scan) as Hin.
    { apply elem_of_reversed_range_iter. split; [exact Hk|].
      apply extension_in_default_range; assumption. }
    apply list_elem_of_lookup_1 in Hin as [i Hi].
    destruct (Forall2_lookup_l _ _ _ _ _ Hall Hi) as (row & Hrow & Hdetail).
    exists row. split; [eapply list_elem_of_lookup_2; exact Hrow|exact Hdetail].
  - intros row Hrow.
    apply list_elem_of_lookup_1 in Hrow as [i Hi].
    destruct (Forall2_lookup_r _ _ _ _ _ Hall Hi) as ([k v] & Hkv & Hdetail).
    apply list_elem_of_lookup_2 in Hkv.
    apply elem_of_reversed_range_iter in Hkv as (Hk & Hlt & _).
    exists k, v. split; [exact Hk|]. split; [exact Hlt|exact Hdetail].
Qed.

End QueryProperties.

Section FrameProperties.
Context `{Collaborators}.

(** X28: [get_minor_block_evm_root_hash_by_hash] reads the store, not the
    pool: for a block stored by [put_minor_block] it returns the
    [hash_evm_state_root] of the block's meta and pools that meta under the
    hash; for a hash without a stored block it returns [None] and leaves
    the state as it is, also when a meta is pooled for the hash. *)
Theorem minor_block_evm_root_hash self h :
  (forall B xs self',
     put_minor_block self B xs = Ok self' ->
     MinorBlock_serialize B <> [] ->
     MinorBlock_deserialize (MinorBlock_serialize B) = Some B ->
     h = MinorBlockHeader_get_hash (MinorBlock.header B) ->
     exists s,
       get_minor_block_evm_root_hash_by_hash self' h
       = Ok (Some (MinorBlockMeta.hash_evm_state_root (MinorBlock.meta B)), s)
       /\ m_meta_pool s !! h = Some (MinorBlock.meta B)
       /\ db s = db self')
  /\ (db self !! (blit "mblock_" ++ h) = None ->
      get_minor_block_evm_root_hash_by_hash self h = Ok (None, self)).
Proof.
  split.
  - intros B xs self' Hput Hne Hrt ->.
    pose proof (put_minor_block_get _ _ _ _ Hput Hne Hrt) as (_ & Hget).
    unfold get_minor_block_evm_root_hash_by_hash, get_minor_block_meta_by_hash.
    rewrite Hget. cbn [mbind result_bind rbind mret result_ret].
    eexists. split; [reflexivity|]. cbn [m_meta_pool db with_m_meta_pool].
    split; [apply lookup_insert_eq|reflexivity].
  - intros Hnone.
    unfold get_minor_block_evm_root_hash_by_hash, get_minor_block_meta_by_hash,
      get_minor_block_by_hash, db_get.
    rewrite Hnone. reflexivity.
Qed.

(** X29: what [put_minor_block] leaves alone: the blocks, counts and
    confirmed deposits read for the other hashes, and, for all keys, the
    positional index, the transaction index, the genesis blocks and the
    cross-shard lists. *)
Theorem put_minor_block_frame self B xs self' :
  put_minor_block self B xs = Ok self' ->
  (forall h,
     h <> MinorBlockHeader_get_hash (MinorBlock.header B) ->
     get_minor_block_by_hash self' h = get_minor_block_by_hash self h
     /\ get_total_tx_count self' h = get_total_tx_count self h
     /\ get_confirmed_cross_shard_transaction_deposit_list self' h
        = get_confirmed_cross_shard_transaction_deposit_list self h)
  /\ (forall height,
        db self' !! (blit "mi_" ++ decimal height) = db self !! (blit "mi_" ++ decimal height))
  /\ (forall tx_hash,
        contain_transaction_hash self' tx_hash = contain_transaction_hash self tx_hash)
  /\ (forall root_block_hash,
        get_genesis_block self' root_block_hash = get_genesis_block self root_block_hash)
  /\ (forall h,
        get_minor_block_xshard_tx_list self' h = get_minor_block_xshard_tx_list self h)
  /\ (forall k, take 5 k = blit "addr_" -> db self' !! k = db self !! k).
Proof.
  intros Hput. apply put_minor_block_Ok in Hput as (bs & Hdb & _). cbv zeta in Hdb.
  set (hB := MinorBlockHeader_get_hash (MinorBlock.header B)) in *.
  assert (forall k,
            k <> blit "mblock_" ++ hB -> k <> blit "tx_count_" ++ hB ->
            k <> blit "xr_" ++ hB ->
            db self' !! k = db self !! k) as Hother.
  { intros k H1 H2 H3. rewrite Hdb.
    destruct (ENABLE_TRANSACTION_HISTORY (env self)).
    - rewrite !lookup_insert_ne by congruence. reflexivity.
    - rewrite !lookup_insert_ne by congruence. reflexivity. }
  assert (forall p h, h <> hB -> p ++ h <> p ++ hB) as Hinj.
  { intros p h Hne E. apply app_inv_head in E. contradiction. }
  split; [|split; [|split; [|split; [|split]]]].
  - intros h Hne.
    split; [|split].
    + apply get_minor_block_by_hash_same_store.
      apply Hother; [apply Hinj, Hne|(first [key_neq|key_neq3])|(first [key_neq|key_neq3])].
    + unfold get_total_tx_count, db_get.
      rewrite Hother; [reflexivity|(first [key_neq|key_neq3])|apply Hinj, Hne|(first [key_neq|key_neq3])].
    + unfold get_confirmed_cross_shard_transaction_deposit_list, db_get.
      rewrite Hother; [reflexivity|(first [key_neq|key_neq3])|(first [key_neq|key_neq3])|apply Hinj, Hne].
  - intros height. apply Hother; [(first [key_neq|key_neq3])|(first [key_neq|key_neq3])|(first [key_neq|key_neq3])].
  - intros tx_hash. unfold contain_transaction_hash, db_contains. cbv zeta.
    rewrite Hother; [reflexivity|(first [key_neq|key_neq3])|(first [key_neq|key_neq3])|(first [key_neq|key_neq3])].
  - intros root_block_hash. unfold get_genesis_block, db_get.
    rewrite Hother; [reflexivity|(first [key_neq|key_neq3])|(first [key_neq|key_neq3])|(first [key_neq|key_neq3])].
  - intros h. unfold get_minor_block_xshard_tx_list, db_get. cbv zeta.
    rewrite Hother; [reflexivity|(first [key_neq|key_neq3])|(first [key_neq|key_neq3])|(first [key_neq|key_neq3])].
  - intros k Hk. apply Hother; intros ->; vm_compute in Hk; discriminate Hk.
Qed.

End FrameProperties.

Section HistoryEntryProperties.
Context `{Collaborators}.

(** X30: the entries of one transaction.  With the history flag off
    [put_transaction_history_index] leaves the operator as it is.  With the
    flag on it writes the empty value under the key of the sender, and
    under the key of the recipient when the transaction has one and its
    shard key is in this branch; a contract creation or a transfer out of
    the branch gets the sender's entry only; no other key changes. *)
Theorem put_transaction_history_index_entries self tx height index self' :
  put_transaction_history_index self tx height index = Ok self' ->
  let from := {| recipient := sender (to_evm_tx tx);
                 full_shard_key := from_full_shard_key (to_evm_tx tx) |} in
  let to_ := {| recipient := to (to_evm_tx tx);
                full_shard_key := to_full_shard_key (to_evm_tx tx) |} in
  if ENABLE_TRANSACTION_HISTORY (env self)
  then
    exists k1,
      encode_address_transaction_key from height index false = Ok k1
      /\ if match to (to_evm_tx tx) with
            | [] => false
            | _ :: _ => is_in_branch (to_full_shard_key (to_evm_tx tx))
            end
         then exists k2,
                encode_address_transaction_key to_ height index false = Ok k2
                /\ forall k, db self' !! k
                             = if decide (k = k1 \/ k = k2) then Some [] else db self !! k
         else forall k, db self' !! k = if decide (k = k1) then Some [] else db self !! k
  else self' = self.
Proof.
  unfold put_transaction_history_index.
  destruct (ENABLE_TRANSACTION_HISTORY (env self)); cbn [negb];
    [|intros E; injection E as <-; reflexivity].
  rewrite update_transaction_history_index_keys. unfold history_index_keys.
  destruct (encode_address_transaction_key
              {| recipient := sender (to_evm_tx tx);
                 full_shard_key := from_full_shard_key (to_evm_tx tx) |} height index false)
    as [k1|] eqn:E1; cbn [mbind result_bind rbind]; [|discriminate].
  destruct (match to (to_evm_tx tx) with
            | [] => false
            | _ :: _ => is_in_branch (to_full_shard_key (to_evm_tx tx))
            end) eqn:Eto.
  - destruct (encode_address_transaction_key
                {| recipient := to (to_evm_tx tx);
                   full_shard_key := to_full_shard_key (to_evm_tx tx) |} height index false)
      as [k2|] eqn:E2; cbn [mbind result_bind rbind mret result_ret]; [|discriminate].
    unfold mret, result_ret. intros E. injection E as <-.
    cbv zeta. exists k1. split; [reflexivity|]. exists k2. split; [reflexivity|].
    intros k. cbn [db with_db]. rewrite !lookup_db_put.
    destruct (decide (k = k2)) as [->|N2].
    + rewrite decide_True by tauto. reflexivity.
    + destruct (decide (k = k1)) as [->|N1].
      * rewrite decide_True by tauto. reflexivity.
      * rewrite decide_False by tauto. reflexivity.
  - cbn [mbind result_bind rbind mret result_ret].
    unfold mret, result_ret. intros E. injection E as <-.
    cbv zeta. exists k1. split; [reflexivity|].
    intros k. cbn [db with_db]. apply lookup_db_put.
Qed.

End HistoryEntryProperties.

(** ** Worked examples on the concrete codec *)

Import Demo.

Lemma unwrap_ok (r : result ShardDbOperator) : is_ok r = true -> r = Ok (unwrap r).
Proof. destruct r; [reflexivity|discriminate]. Qed.

(** [block3], at height 3 with two transfers, on top of [block2] whose
    stored count is 1: the count recorded is 3. *)
Lemma put_minor_block_total_tx_count_witness :
  exists self',
    put_minor_block store2 block3 [] = Ok self'
    /\ get_total_tx_count self' (hash_of block3) = 3.
Proof.
  destruct (put_minor_block store2 block3 []) as [self'|e] eqn:E.
  - exists self'. split; [reflexivity|].
    destruct (put_minor_block_total_tx_count store2 block3 [] self' E) as [_ P].
    refine (eq_trans P _). vm_compute. reflexivity.
  - exfalso.
    assert (is_ok (put_minor_block store2 block3 []) = true) as Hok
      by (vm_compute; reflexivity).
    rewrite E in Hok. discriminate Hok.
Defined.

(** [alice]'s history in [store2], a page of one row and then the rest:
    the cursor of the first page is its key minus 1, and the two rows of
    the second page come from keys below that key. *)
Lemma get_transactions_by_address_pagination_witness :
  ENABLE_TRANSACTION_HISTORY (env store2) = true
  /\ get_transactions_by_address store2 alice [] 1 = Ok page1
  /\ get_transactions_by_address store2 alice (snd page1) 10 = Ok page2
  /\ (length (fst page1) <= Z.to_nat 1)%nat
  /\ exists (k : bytes) (consumed2 : list (bytes * bytes)),
       to_bytes (length k) (from_bytes k - 1) = Ok (snd page1)
       /\ Forall2 (fun kv row => transaction_detail_at store2 (fst kv) = Ok row)
            consumed2 (fst page2)
       /\ Forall (fun kv => bytes_ltb (fst kv) k = true) consumed2
       /\ length consumed2 = 2%nat.
Proof.
  assert (ENABLE_TRANSACTION_HISTORY (env store2) = true) as H1
    by (vm_compute; reflexivity).
  assert (get_transactions_by_address store2 alice [] 1 = Ok (fst page1, snd page1)) as H2
    by (vm_compute; reflexivity).
  assert (get_transactions_by_address store2 alice (snd page1) 10
          = Ok (fst page2, snd page2)) as H3
    by (vm_compute; reflexivity).
  split; [exact H1|]. split; [exact H2|]. split; [exact H3|].
  destruct (get_transactions_by_address_pagination store2 alice [] 1 _ _ H1 H2)
    as (Hlen & start' & consumed & rest & _ & Hall & Hlast).
  split; [exact Hlen|].
  pose proof (Forall2_length _ _ _ Hall) as Hc.
  destruct consumed as [|[k v] [|kv consumed]]; try discriminate Hc.
  destruct (Hlast k v eq_refl) as [Hcursor Hnext].
  destruct (Hnext 10 _ _ H3) as (consumed2 & Hall2 & Hbelow & _).
  exists k, consumed2. split; [exact Hcursor|]. split; [exact Hall2|]. split.
  - eapply Forall_impl; [exact Hbelow|]. intros kv Hkv. apply Hkv.
  - apply (Forall2_length _ _ _ Hall2).
Defined.

(** A local entry of [alice] at height 5 against a cross-shard entry of
    hers at height 6. *)
Lemma encode_address_transaction_key_order_witness :
  exists k1 k2,
    encode_address_transaction_key alice 5 0 false = Ok k1
    /\ encode_address_transaction_key alice 6 2 true = Ok k2
    /\ bytes_compare k1 k2 = Lt.
Proof.
  destruct (encode_address_transaction_key_order alice 5 0 false alice 6 2 true)
    as (k1 & k2 & E1 & E2 & Hc & _); try reflexivity; try lia.
  exists k1, k2. split; [exact E1|]. split; [exact E2|].
  rewrite Hc. vm_compute. reflexivity.
Defined.

(** A chain of 100 stored minor blocks and a limit of 10: the 10 most
    recent blocks are pooled. *)
Lemma recover_state_minor_walk_witness :
  exists self',
    recover_state 11 restarted (RootBlock.header root0) head100 = Ok self'
    /\ size (m_header_pool self') = 10%nat
    /\ m_header_pool self'
       = list_to_map (zip (chain_hashes (minor_header_hash head100) recent10)
                          (MinorBlock.header <$> recent10))
         ∪ m_header_pool restarted
    /\ length chain100 = 100%nat
    /\ recent10 = take 10 (rev chain100).
Proof.
  destruct (recover_state_minor_walk 11 restarted (RootBlock.header root0) head100
              (unwrap (recover_root_blocks 11 restarted
                         (root_header_hash (RootBlock.header root0))))
              recent10)
    as (self' & Hrun & Hhp & _ & Hsize & _).
  - apply unwrap_ok. vm_compute. reflexivity.
  - vm_compute. repeat split.
  - apply (bool_decide_unpack _). vm_compute. exact I.
  - intros h _. apply lookup_empty.
  - vm_compute. reflexivity.
  - right. apply Z.leb_le. vm_compute. reflexivity.
  - left. apply Z.leb_le. vm_compute. reflexivity.
  - apply Nat.ltb_lt. vm_compute. reflexivity.
  - exists self'. split; [exact Hrun|]. split; [exact Hsize|]. split; [exact Hhp|].
    split; vm_compute; reflexivity.
Defined.

(** The root lookup answers from the pool; the minor lookup answers from
    the store. *)
Lemma header_lookup_cases_witness :
  get_root_block_header_by_hash (put_root_block (init ∅ demo_env) root0 None None)
    (root_header_hash (RootBlock.header root0))
  = Ok (Some (RootBlock.header root0), put_root_block (init ∅ demo_env) root0 None None)
  /\ get_minor_block_header_by_hash overwritten (hash_of block1)
     = Ok (Some (MinorBlock.header fork1),
           with_m_header_pool overwritten
             (<[hash_of block1 := MinorBlock.header fork1]> (m_header_pool overwritten))).
Proof.
  split.
  - apply (proj1 (header_lookup_cases (put_root_block (init ∅ demo_env) root0 None None)
                    (root_header_hash (RootBlock.header root0)))).
    vm_compute. reflexivity.
  - apply (proj1 (proj2 (proj2 (proj2 (header_lookup_cases overwritten (hash_of block1)))))
             (minor_block_bytes fork1) fork1).
    + vm_compute. reflexivity.
    + vm_compute. discriminate.
    + vm_compute. reflexivity.
Defined.

(** [block1]'s header is pooled under its hash, and the lookup of that hash
    returns another header, the one of the block the store holds. *)
Lemma minor_header_lookup_ignores_pool :
  m_header_pool overwritten !! hash_of block1 = Some (MinorBlock.header block1)
  /\ match get_minor_block_header_by_hash overwritten (hash_of block1) with
     | Ok (o, _) => o
     | Raise _ => None
     end = Some (MinorBlock.header fork1)
  /\ MinorBlock.header fork1 <> MinorBlock.header block1.
Proof.
  split; [vm_compute; reflexivity|]. split; [vm_compute; reflexivity|].
  vm_compute. discriminate.
Qed.

(** A 3-way fork at height 1. *)
Lemma height_to_minor_block_hashes_only_grows_witness :
  exists self,
    run [PutMinorBlock fork1 []; PutMinorBlock fork2 []; PutMinorBlock fork3 []]
      (init ∅ demo_env) = Ok self
    /\ fst (get_block_count_by_height self 1) = 3
    /\ fst (get_block_count_by_height (remove_minor_block_index self fork2) 1) = 3.
Proof.
  assert (run [PutMinorBlock fork1 []; PutMinorBlock fork2 []; PutMinorBlock fork3 []]
            (init ∅ demo_env)
          = Ok (unwrap (run [PutMinorBlock fork1 []; PutMinorBlock fork2 [];
                             PutMinorBlock fork3 []] (init ∅ demo_env)))) as Hrun
    by (apply unwrap_ok; vm_compute; reflexivity).
  eexists. split; [exact Hrun|].
  apply (proj2 (proj2 (proj2 (proj2 height_to_minor_block_hashes_only_grows)))
           ∅ demo_env fork1 fork2 fork3 [] [] [] fork2).
  - reflexivity.
  - reflexivity.
  - reflexivity.
  - vm_compute. discriminate.
  - vm_compute. discriminate.
  - vm_compute. discriminate.
  - exact Hrun.
Defined.

(** The second transfer of [block1] is found at height 1, index 1. *)
Lemma get_transaction_by_hash_cases_witness :
  get_transaction_by_hash store2 (tx_hash (transfer 6)) = Ok (Some block1, Some 1)
  /\ get_transaction_by_hash (init ∅ demo_env) (tx_hash (transfer 6)) = Ok (None, None).
Proof.
  split.
  - apply (proj2 (proj2 (proj2 (proj2 (get_transaction_by_hash_cases store2
                                         (tx_hash (transfer 6))))
                                (be_digits 4 1) (be_digits 4 1)
                                ltac:(vm_compute; reflexivity)
                                ltac:(reflexivity) ltac:(reflexivity)))
             (hash_of block1) (minor_block_bytes block1) block1).
    + vm_compute. reflexivity.
    + vm_compute. reflexivity.
    + vm_compute. discriminate.
    + vm_compute. reflexivity.
  - apply (proj1 (get_transaction_by_hash_cases (init ∅ demo_env) (tx_hash (transfer 6)))).
    left. reflexivity.
Defined.

(** A stored record of length 0 is not 8 bytes long, and the lookup returns
    [(None, None)] without a failed assertion. *)
Lemma get_transaction_by_hash_empty_record :
  db empty_record !! (blit "txindex_" ++ tx_hash (transfer 5)) = Some []
  /\ length ([] : bytes) <> 8%nat
  /\ get_transaction_by_hash empty_record (tx_hash (transfer 5)) = Ok (None, None)
  /\ get_transaction_by_hash empty_record (tx_hash (transfer 5)) <> Raise AssertionError.
Proof.
  assert (get_transaction_by_hash empty_record (tx_hash (transfer 5)) = Ok (None, None))
    as Hget by (vm_compute; reflexivity).
  split; [vm_compute; reflexivity|]. split; [discriminate|].
  split; [exact Hget|]. rewrite Hget. discriminate.
Qed.

(** A block at height 5 whose parent hash has no stored count. *)
Lemma get_total_tx_count_missing_witness :
  db store2 !! (blit "tx_count_" ++ replicate 32 xff) = None
  /\ get_total_tx_count store2 (replicate 32 xff) = 0
  /\ exists self',
       put_total_tx_count store2 (block_on (replicate 32 xff) 5 500 [transfer 1]) = Ok self'
       /\ get_total_tx_count self' (hash_of (block_on (replicate 32 xff) 5 500 [transfer 1]))
          = 1.
Proof.
  assert (db store2 !! (blit "tx_count_" ++ replicate 32 xff) = None) as Hnone
    by (vm_compute; reflexivity).
  destruct (get_total_tx_count_missing store2 (replicate 32 xff) Hnone) as [H0 HB].
  split; [exact Hnone|]. split; [exact H0|].
  destruct (HB (block_on (replicate 32 xff) 5 500 [transfer 1]))
    as (self' & Hput & _ & Hcount).
  - simpl. lia.
  - reflexivity.
  - simpl. lia.
  - exists self'. split; [exact Hput|exact Hcount].
Defined.

(** A query on an empty store. *)
Lemma get_transactions_by_address_empty_page_witness :
  exists rows next,
    get_transactions_by_address (init ∅ demo_env) alice [] 10 = Ok (rows, next)
    /\ rows = []
    /\ next = blit "addr_" ++ Address_serialize alice.
Proof.
  assert (get_transactions_by_address (init ∅ demo_env) alice [] 10
          = Ok ([], blit "addr_" ++ address_bytes alice)) as Hget
    by (vm_compute; reflexivity).
  exists [], (blit "addr_" ++ address_bytes alice).
  split; [exact Hget|]. split; [reflexivity|].
  exact (proj1 (get_transactions_by_address_empty_page _ _ _ _ _ _ Hget)
           eq_refl eq_refl).
Defined.

(** *** Further worked examples *)

(** [block3] put on [store2] is read back by its hash. *)
Lemma put_minor_block_roundtrip_witness :
  exists self',
    put_minor_block store2 block3 [] = Ok self'
    /\ get_minor_block_by_hash self' (hash_of block3) = Ok (Some block3)
    /\ contain_minor_block_by_hash self' (hash_of block3) = true.
Proof.
  assert (put_minor_block store2 block3 []
          = Ok (unwrap (put_minor_block store2 block3 []))) as Hput
    by (apply unwrap_ok; vm_compute; reflexivity).
  eexists. split; [exact Hput|].
  assert (MinorBlock_serialize block3 <> []) as Hne by (vm_compute; discriminate).
  assert (MinorBlock_deserialize (MinorBlock_serialize block3) = Some block3) as Hrt
    by (vm_compute; reflexivity).
  pose proof (put_minor_block_roundtrip _ _ _ _ Hput Hne Hrt) as P.
  cbv zeta in P. destruct P as (Hg & _ & _ & _ & _ & Hc).
  split; [exact Hg|exact Hc].
Defined.

(** [root0] put in a new operator. *)
Lemma put_root_block_roundtrip_witness :
  r_header_pool (put_root_block (init ∅ demo_env) root0 None None)
    !! root_header_hash (RootBlock.header root0) = Some (RootBlock.header root0)
  /\ contain_root_block_by_hash (put_root_block (init ∅ demo_env) root0 None None)
       (root_header_hash (RootBlock.header root0)) = true.
Proof.
  assert (RootBlock_serialize root0 <> []) as Hne by (vm_compute; discriminate).
  assert (RootBlock_deserialize (RootBlock_serialize root0) = Some root0) as Hrt
    by (vm_compute; reflexivity).
  pose proof (put_root_block_roundtrip (init ∅ demo_env) root0 None None Hne Hrt) as P.
  cbv zeta in P. destruct P as (Hp & _ & _ & Hc).
  split; [exact Hp|exact Hc].
Defined.

(** [root0] put with [block3]'s header as the last confirmed one, after
    [block3] was stored. *)
Lemma last_confirmed_minor_block_header_witness :
  exists self1 s,
    put_minor_block store2 block3 [] = Ok self1
    /\ get_last_confirmed_minor_block_header_at_root_block
         (put_root_block self1 root0 (Some (MinorBlock.header block3)) None)
         (root_header_hash (RootBlock.header root0))
       = Ok (Some (MinorBlock.header block3), s).
Proof.
  assert (put_minor_block store2 block3 []
          = Ok (unwrap (put_minor_block store2 block3 []))) as Hput
    by (apply unwrap_ok; vm_compute; reflexivity).
  assert (MinorBlock_serialize block3 <> []) as Hne by (vm_compute; discriminate).
  assert (MinorBlock_deserialize (MinorBlock_serialize block3) = Some block3) as Hrt
    by (vm_compute; reflexivity).
  assert (MinorBlockHeader_get_hash (MinorBlock.header block3) <> []) as Hh
    by (vm_compute; discriminate).
  pose proof (last_confirmed_minor_block_header _ _ _ _ root0 None Hput Hne Hrt Hh) as P.
  cbv zeta in P. destruct P as ((s & Hs) & _).
  eexists. exists s. split; [exact Hput|exact Hs].
Defined.

(** [genesis] put as the genesis block of [root0]. *)
Lemma genesis_block_roundtrip_witness :
  get_genesis_block
    (put_genesis_block (init ∅ demo_env) (root_header_hash (RootBlock.header root0)) genesis)
    (root_header_hash (RootBlock.header root0))
  = Ok (Some genesis).
Proof.
  assert (MinorBlock_serialize genesis <> []) as Hne by (vm_compute; discriminate).
  assert (MinorBlock_deserialize (MinorBlock_serialize genesis) = Some genesis) as Hrt
    by (vm_compute; reflexivity).
  exact (proj1 (genesis_block_roundtrip (init ∅ demo_env)
                  (root_header_hash (RootBlock.header root0)) genesis Hne Hrt)).
Defined.

(** A list of two deposits put for [block3]'s hash. *)
Lemma minor_block_xshard_tx_list_roundtrip_witness :
  get_minor_block_xshard_tx_list
    (put_minor_block_xshard_tx_list (init ∅ demo_env) (hash_of block3) [coinbase; deposit1])
    (hash_of block3)
  = Ok (Some [coinbase; deposit1]).
Proof.
  assert (CrossShardTransactionList_deserialize
            (CrossShardTransactionList_serialize [coinbase; deposit1])
          = Some [coinbase; deposit1]) as Hrt by (vm_compute; reflexivity).
  exact (proj1 (minor_block_xshard_tx_list_roundtrip (init ∅ demo_env) (hash_of block3)
                  [coinbase; deposit1] Hrt)).
Defined.

(** A transfer indexed at height 1, index 0, in [store2] (where [block1]
    is at height 1). *)
Lemma put_transaction_index_roundtrip_witness :
  exists self',
    put_transaction_index store2 (transfer 11) 1 0 = Ok self'
    /\ contain_transaction_hash self' (tx_hash (transfer 11)) = true
    /\ get_transaction_by_hash self' (tx_hash (transfer 11)) = Ok (Some block1, Some 0).
Proof.
  assert (put_transaction_index store2 (transfer 11) 1 0
          = Ok (unwrap (put_transaction_index store2 (transfer 11) 1 0))) as Hput
    by (apply unwrap_ok; vm_compute; reflexivity).
  eexists. split; [exact Hput|].
  destruct (put_transaction_index_roundtrip _ _ _ _ _ Hput) as (Hc & Hg).
  split; [exact Hc|]. refine (eq_trans Hg _). vm_compute. reflexivity.
Defined.

(** Indexing a transfer in a new operator and taking it out again. *)
Lemma remove_after_put_transaction_index_witness :
  exists self1 self2,
    put_transaction_index (init ∅ demo_env) (transfer 5) 1 0 = Ok self1
    /\ remove_transaction_index self1 (transfer 5) 1 0 = Ok self2
    /\ contain_transaction_hash self2 (tx_hash (transfer 5)) = false
    /\ self2 = init ∅ demo_env.
Proof.
  assert (put_transaction_index (init ∅ demo_env) (transfer 5) 1 0
          = Ok (unwrap (put_transaction_index (init ∅ demo_env) (transfer 5) 1 0))) as Hput
    by (apply unwrap_ok; vm_compute; reflexivity).
  destruct (remove_after_put_transaction_index _ _ _ _ _ Hput)
    as (written & self2 & _ & Hrem & Hc & _ & Hback).
  eexists. exists self2. split; [exact Hput|]. split; [exact Hrem|]. split; [exact Hc|].
  apply Hback. apply Forall_forall. intros k _. apply lookup_empty.
Defined.

(** Indexing a transfer twice. *)
Lemma put_transaction_index_idempotent_witness :
  exists self1,
    put_transaction_index store2 (transfer 11) 1 0 = Ok self1
    /\ put_transaction_index self1 (transfer 11) 1 0 = Ok self1.
Proof.
  assert (put_transaction_index store2 (transfer 11) 1 0
          = Ok (unwrap (put_transaction_index store2 (transfer 11) 1 0))) as Hput
    by (apply unwrap_ok; vm_compute; reflexivity).
  eexists. split; [exact Hput|].
  exact (put_transaction_index_idempotent _ _ _ _ _ Hput).
Defined.

(** [block3] indexed on [store2]: its second transfer is located at height
    3, index 1 (no block is in the positional index at height 3 yet). *)
Lemma put_transaction_index_from_block_locates_witness :
  exists self',
    put_transaction_index_from_block store2 block3 = Ok self'
    /\ contain_transaction_hash self' (tx_hash (transfer 9)) = true
    /\ get_transaction_by_hash self' (tx_hash (transfer 9)) = Ok (None, Some 1).
Proof.
  assert (put_transaction_index_from_block store2 block3
          = Ok (unwrap (put_transaction_index_from_block store2 block3))) as Hput
    by (apply unwrap_ok; vm_compute; reflexivity).
  eexists. split; [exact Hput|].
  destruct (put_transaction_index_from_block_locates _ _ _ Hput 1%nat (transfer 9) eq_refl)
    as (Hc & Hg).
  split; [exact Hc|].
  refine (eq_trans (Hg _) _); [|vm_compute; reflexivity].
  intros j' tx' Hj' Hl. destruct j' as [|[|j']]; [lia|lia|]. discriminate Hl.
Defined.

(** The transactions of [block1] taken out of the index of [store2]. *)
Lemma remove_transaction_index_from_block_clears_witness :
  exists self',
    remove_transaction_index_from_block store2 block1 = Ok self'
    /\ contain_transaction_hash store2 (tx_hash (transfer 6)) = true
    /\ contain_transaction_hash self' (tx_hash (transfer 6)) = false
    /\ get_transaction_by_hash self' (tx_hash (transfer 6)) = Ok (None, None)
    /\ db self' !! (blit "mblock_" ++ hash_of block1) = Some (minor_block_bytes block1).
Proof.
  assert (remove_transaction_index_from_block store2 block1
          = Ok (unwrap (remove_transaction_index_from_block store2 block1))) as Hrem
    by (apply unwrap_ok; vm_compute; reflexivity).
  eexists. split; [exact Hrem|].
  destruct (remove_transaction_index_from_block_clears _ _ _ Hrem) as (Htx & Hother).
  destruct (Htx (transfer 6)) as (Hc & Hg).
  { right. left. }
  split; [vm_compute; reflexivity|]. split; [exact Hc|]. split; [exact Hg|].
  refine (eq_trans (Hother (blit "mblock_" ++ hash_of block1) _ _) _).
  - vm_compute. discriminate.
  - intros tx _ E. apply (f_equal (hd x00)) in E. lazy in E. discriminate E.
  - vm_compute. reflexivity.
Defined.

(** The key of [alice]'s entry for the transaction at height 1, index 1,
    read back, and the row built from it in [store2]. *)
Lemma history_key_decodes_witness :
  exists k detail,
    encode_address_transaction_key alice 1 1 false = Ok k
    /\ from_bytes (slice (5 + 24) (5 + 24 + 4) k) = 1
    /\ from_bytes (slice_from (5 + 24 + 4 + 1) k) = 1
    /\ transaction_detail_at store2 k = Ok detail
    /\ TransactionDetail.block_height detail = 1.
Proof.
  assert (encode_address_transaction_key alice 1 1 false
          = Ok (blit "addr_" ++ address_bytes alice ++ be_digits 4 1 ++ [x01] ++ be_digits 4 1))
    as Hk by reflexivity.
  assert (length (Address_serialize alice) = 24%nat) as Hlen by reflexivity.
  destruct (history_key_decodes store2 alice 1 1 false _ Hk Hlen) as (Hh & _ & Hi & Hd).
  destruct (transaction_detail_at store2
              (blit "addr_" ++ address_bytes alice ++ be_digits 4 1 ++ [x01] ++ be_digits 4 1))
    as [detail|e] eqn:Ed.
  - eexists. exists detail. split; [exact Hk|]. split; [exact Hh|]. split; [exact Hi|].
    split; [exact Ed|]. exact (proj1 (Hd detail eq_refl)).
  - exfalso.
    assert (is_ok (transaction_detail_at store2
                     (blit "addr_" ++ address_bytes alice ++ be_digits 4 1 ++ [x01]
                        ++ be_digits 4 1)) = true) as Hok by (vm_compute; reflexivity).
    rewrite Ed in Hok. discriminate Hok.
Defined.

(** [block3] stored on [store2] with two deposits. *)
Lemma put_minor_block_confirmed_deposits_witness :
  exists self',
    put_minor_block store2 block3 [coinbase; deposit1] = Ok self'
    /\ get_confirmed_cross_shard_transaction_deposit_list self' (hash_of block3)
       = Ok [coinbase; deposit1].
Proof.
  assert (put_minor_block store2 block3 [coinbase; deposit1]
          = Ok (unwrap (put_minor_block store2 block3 [coinbase; deposit1]))) as Hput
    by (apply unwrap_ok; vm_compute; reflexivity).
  assert (CrossShardTransactionList_deserialize
            (CrossShardTransactionList_serialize [coinbase; deposit1])
          = Some [coinbase; deposit1]) as Hrt by (vm_compute; reflexivity).
  eexists. split; [exact Hput|].
  pose proof (put_minor_block_confirmed_deposits _ _ _ _ Hput Hrt) as P.
  cbv zeta in P.
  change (hash_of block3) with (MinorBlockHeader_get_hash (MinorBlock.header block3)).
  rewrite P. vm_compute. reflexivity.
Defined.

(** The history entries of the two deposits of [block3] in [received]: the
    one at position 1 is written, the coinbase one at position 0 is not. *)
Lemma put_transaction_history_index_from_block_entries_witness :
  exists self' k0 k1,
    put_transaction_history_index_from_block received block3 = Ok self'
    /\ encode_address_transaction_key alice 3 0 true = Ok k0
    /\ encode_address_transaction_key alice 3 1 true = Ok k1
    /\ db self' !! k0 = None
    /\ db self' !! k1 = Some [].
Proof.
  assert (ENABLE_TRANSACTION_HISTORY (env received) = true) as Hon
    by (vm_compute; reflexivity).
  assert (get_confirmed_cross_shard_transaction_deposit_list received
            (MinorBlockHeader_get_hash (MinorBlock.header block3)) = Ok [coinbase; deposit1])
    as Hl by (vm_compute; reflexivity).
  assert (put_transaction_history_index_from_block received block3
          = Ok (unwrap (put_transaction_history_index_from_block received block3))) as Hput
    by (apply unwrap_ok; vm_compute; reflexivity).
  pose proof (put_transaction_history_index_from_block_entries _ _ _ _ Hon Hl Hput) as P.
  eexists. eexists. eexists. split; [exact Hput|].
  split; [reflexivity|]. split; [reflexivity|]. split.
  - refine (eq_trans (P 0%nat coinbase _ eq_refl eq_refl) _). vm_compute. reflexivity.
  - refine (eq_trans (P 1%nat deposit1 _ eq_refl eq_refl) _). vm_compute. reflexivity.
Defined.

(** A transfer of [alice] put in the history at height 1, index 5: her
    entry is in the range that a query without a cursor scans. *)
Lemma put_transaction_history_index_in_scan_witness :
  exists self' k os,
    put_transaction_history_index store2 (transfer 11) 1 5 = Ok self'
    /\ encode_address_transaction_key alice 1 5 false = Ok k
    /\ (k, []) ∈ reversed_range_iter (db self') os (blit "addr_" ++ address_bytes alice).
Proof.
  assert (ENABLE_TRANSACTION_HISTORY (env store2) = true) as Hon
    by (vm_compute; reflexivity).
  assert (put_transaction_history_index store2 (transfer 11) 1 5
          = Ok (unwrap (put_transaction_history_index store2 (transfer 11) 1 5))) as Hput
    by (apply unwrap_ok; vm_compute; reflexivity).
  pose proof (put_transaction_history_index_in_scan _ _ _ _ _ Hon Hput) as P.
  cbv zeta in P. destruct P as ((k & os & Hk & _ & Hin) & _).
  eexists. exists k, os. split; [exact Hput|]. split; [exact Hk|exact Hin].
Defined.

(** In [store2], a cursor of forty [0xff] bytes is reset, and the cursor
    [b"a"], below every key of [alice], gives the empty page. *)
Lemma get_transactions_by_address_stray_cursor_witness :
  get_transactions_by_address store2 alice (replicate 40 xff) 10
  = get_transactions_by_address store2 alice [] 10
  /\ get_transactions_by_address store2 alice (blit "a") 10
     = Ok ([], blit "addr_" ++ address_bytes alice).
Proof.
  assert (ENABLE_TRANSACTION_HISTORY (env store2) = true) as Hon
    by (vm_compute; reflexivity).
  assert (to_bytes (length (blit "addr_" ++ Address_serialize alice))
            (from_bytes (blit "addr_" ++ Address_serialize alice) + 1)
          = Ok (be_digits (length (blit "addr_" ++ address_bytes alice))
                  (from_bytes (blit "addr_" ++ address_bytes alice) + 1))) as Hos
    by (vm_compute; reflexivity).
  split.
  - apply (proj1 (get_transactions_by_address_stray_cursor store2 alice (replicate 40 xff) 10
                    _ Hon Hos)).
    vm_compute. reflexivity.
  - apply (proj2 (get_transactions_by_address_stray_cursor store2 alice (blit "a") 10
                    _ Hon Hos)).
    + discriminate.
    + vm_compute. reflexivity.
Defined.

(** [alice] has three rows in [store2]: a page of up to ten holds the
    three, and its cursor leads to the empty page. *)
Lemma get_transactions_by_address_last_page_witness :
  exists rows next,
    get_transactions_by_address store2 alice [] 10 = Ok (rows, next)
    /\ length rows = 3%nat
    /\ get_transactions_by_address store2 alice next 10
       = Ok ([], blit "addr_" ++ address_bytes alice).
Proof.
  assert (ENABLE_TRANSACTION_HISTORY (env store2) = true) as Hon
    by (vm_compute; reflexivity).
  destruct (get_transactions_by_address store2 alice [] 10) as [[rows next]|e] eqn:E.
  - assert (length rows = 3%nat) as Hlen.
    { change rows with (fst (rows, next)).
      replace (rows, next)
        with (match get_transactions_by_address store2 alice [] 10 with
              | Ok p => p
              | Raise _ => ([], [])
              end) by (rewrite E; reflexivity).
      vm_compute. reflexivity. }
    exists rows, next. split; [reflexivity|]. split; [exact Hlen|].
    apply (get_transactions_by_address_last_page store2 alice [] 10 rows next Hon E).
    rewrite Hlen. lia.
  - exfalso.
    assert (is_ok (get_transactions_by_address store2 alice [] 10) = true) as Hok
      by (vm_compute; reflexivity).
    rewrite E in Hok. discriminate Hok.
Defined.

(** Three stored root blocks and room for ten: the walk from [root2] pools
    the three and stops at the genesis root height. *)
Lemma recover_state_root_walk_witness :
  exists self_r,
    recover_root_blocks 4 rooted (root_header_hash (RootBlock.header root2)) = Ok self_r
    /\ size (r_header_pool self_r) = 3%nat
    /\ r_header_pool self_r !! root_header_hash (RootBlock.header root0)
       = Some (RootBlock.header root0).
Proof.
  destruct (recover_state_root_walk 4 rooted (RootBlock.header root2)
              (MinorBlock.header genesis) [root2; root1; root0])
    as (self_r & Hrun & Hpool & Hsize & _).
  - vm_compute. repeat split.
  - apply (bool_decide_unpack _). vm_compute. exact I.
  - intros h _. apply lookup_empty.
  - vm_compute. reflexivity.
  - right. apply Z.leb_le. vm_compute. reflexivity.
  - right. exists root0. split; [reflexivity|]. apply Z.leb_le. vm_compute. reflexivity.
  - apply Nat.ltb_lt. vm_compute. reflexivity.
  - exists self_r. split; [exact Hrun|]. split; [exact Hsize|].
    rewrite Hpool. vm_compute. reflexivity.
Defined.

(** [block3] and [block2] are stored and [block1] is not: recovery from
    [block3] raises. *)
Lemma recover_state_missing_block_witness :
  recover_state 5 broken (RootBlock.header root0) (MinorBlock.header block3)
  = Raise DeserializeError.
Proof.
  apply (recover_state_missing_block 5 broken (RootBlock.header root0)
           (MinorBlock.header block3)
           (unwrap (recover_root_blocks 5 broken
                      (root_header_hash (RootBlock.header root0))))
           [block3; block2]).
  - apply unwrap_ok. vm_compute. reflexivity.
  - vm_compute. repeat split.
  - repeat constructor.
  - apply Z.ltb_lt. vm_compute. reflexivity.
  - vm_compute. reflexivity.
  - apply Nat.ltb_lt. vm_compute. reflexivity.
Defined.

(** From [root2] at height 2 back to height 0: the header of [root0]. *)
Lemma get_root_block_header_by_height_walk_witness :
  exists self',
    get_root_block_header_by_height 5 rooted (root_header_hash (RootBlock.header root2)) 0
    = Ok (Some (RootBlock.header root0), self').
Proof.
  destruct (get_root_block_header_by_height_walk 5 rooted
              (root_header_hash (RootBlock.header root2)) 0
              [RootBlock.header root2; RootBlock.header root1] (RootBlock.header root0))
    as (self' & Hget & _).
  - vm_compute. repeat split.
  - intros r [= <-]. vm_compute. discriminate.
  - repeat constructor; vm_compute; discriminate.
  - reflexivity.
  - apply Nat.ltb_lt. vm_compute. reflexivity.
  - exists self'. exact Hget.
Defined.

(** [block3] and [block4] stored on [store2], where [block2] has the count
    1: the count of [block4] is 1 + 2 + 1. *)
Lemma total_tx_count_along_chain_witness :
  exists self',
    run (put_chain [(block3, []); (block4, [])]) store2 = Ok self'
    /\ get_total_tx_count store2 (hash_of block2) = 1
    /\ get_total_tx_count self' (hash_of block4) = 4.
Proof.
  assert (run (put_chain [(block3, []); (block4, [])]) store2
          = Ok (unwrap (run (put_chain [(block3, []); (block4, [])]) store2))) as Hrun
    by (apply unwrap_ok; vm_compute; reflexivity).
  assert (extends (hash_of block2) [(block3, []); (block4, [])]) as Hext.
  { cbn [extends fst]. split; [vm_compute; reflexivity|]. split; [reflexivity|].
    split; [vm_compute; reflexivity|]. split; [reflexivity|]. exact I. }
  assert (get_total_tx_count store2 (hash_of block2) = 1) as H2
    by (vm_compute; reflexivity).
  eexists. split; [exact Hrun|]. split; [exact H2|].
  pose proof (total_tx_count_along_chain _ _ _ _ Hext Hrun) as P.
  rewrite H2 in P. exact P.
Defined.

(** [block1] taken out of the positional index and its transactions out of
    the transaction index and the history of [store2]: the block is still
    contained and its record is still in the store. *)
Lemma records_are_kept_witness :
  exists self',
    run [RemoveMinorBlockIndex block1; RemoveTransactionIndexFromBlock block1] store2
    = Ok self'
    /\ contain_minor_block_by_hash self' (hash_of block1) = true
    /\ is_Some (db self' !! (blit "mblock_" ++ hash_of block1)).
Proof.
  assert (run [RemoveMinorBlockIndex block1; RemoveTransactionIndexFromBlock block1] store2
          = Ok (unwrap (run [RemoveMinorBlockIndex block1;
                             RemoveTransactionIndexFromBlock block1] store2))) as Hrun
    by (apply unwrap_ok; vm_compute; reflexivity).
  destruct (records_are_kept _ _ _ Hrun) as (Hd & _ & _ & _ & Hc & _).
  eexists. split; [exact Hrun|]. split.
  - apply Hc. vm_compute. reflexivity.
  - apply Hd; [reflexivity|]. exists (minor_block_bytes block1). vm_compute. reflexivity.
Defined.

(** [block3] stored on [store2], put in the positional index and indexed:
    its second transfer is found in [block3] at position 1. *)
Lemma stored_block_transaction_lookup_witness :
  exists self1 self3,
    put_minor_block store2 block3 [] = Ok self1
    /\ put_transaction_index_from_block (put_minor_block_index self1 block3) block3 = Ok self3
    /\ get_minor_block_by_height self3 3 = Ok (Some block3)
    /\ get_transaction_by_hash self3 (tx_hash (transfer 9)) = Ok (Some block3, Some 1).
Proof.
  assert (put_minor_block store2 block3 []
          = Ok (unwrap (put_minor_block store2 block3 []))) as Hput
    by (apply unwrap_ok; vm_compute; reflexivity).
  assert (put_transaction_index_from_block
            (put_minor_block_index (unwrap (put_minor_block store2 block3 [])) block3) block3
          = Ok (unwrap (put_transaction_index_from_block
                          (put_minor_block_index (unwrap (put_minor_block store2 block3 []))
                             block3) block3))) as Hindex
    by (apply unwrap_ok; vm_compute; reflexivity).
  assert (MinorBlock_serialize block3 <> []) as Hne by (vm_compute; discriminate).
  assert (MinorBlock_deserialize (MinorBlock_serialize block3) = Some block3) as Hrt
    by (vm_compute; reflexivity).
  destruct (stored_block_transaction_lookup _ _ _ _ _ Hput Hindex Hne Hrt) as (Hh & Htx).
  eexists. eexists. split; [exact Hput|]. split; [exact Hindex|]. split; [exact Hh|].
  apply (Htx 1%nat (transfer 9) eq_refl).
  intros j' tx' Hj' Hl. destruct j' as [|[|j']]; [lia|lia|]. discriminate Hl.
Defined.

(** [block1] indexed in a new operator and de-indexed again. *)
Lemma remove_after_put_transaction_index_from_block_witness :
  exists self1 self2,
    put_transaction_index_from_block (init ∅ demo_env) block1 = Ok self1
    /\ contain_transaction_hash self1 (tx_hash (transfer 6)) = true
    /\ remove_transaction_index_from_block self1 block1 = Ok self2
    /\ self2 = init ∅ demo_env.
Proof.
  assert (put_transaction_index_from_block (init ∅ demo_env) block1
          = Ok (unwrap (put_transaction_index_from_block (init ∅ demo_env) block1))) as Hput
    by (apply unwrap_ok; vm_compute; reflexivity).
  destruct (remove_after_put_transaction_index_from_block _ _ _ Hput)
    as (self2 & Hrem & _ & _ & _ & Hback).
  eexists. exists self2. split; [exact Hput|].
  split; [vm_compute; reflexivity|]. split; [exact Hrem|].
  apply Hback.
  - intros k _. apply lookup_empty.
  - intros tx _. reflexivity.
Defined.

(** The entry of [alice] for the transaction at height 1, index 1, has its
    row in the page of up to ten rows of [store2]. *)
Lemma get_transactions_by_address_complete_witness :
  exists rows next row,
    get_transactions_by_address store2 alice [] 10 = Ok (rows, next)
    /\ row ∈ rows
    /\ transaction_detail_at store2
         ((blit "addr_" ++ address_bytes alice) ++ be_digits 4 1 ++ [x01] ++ be_digits 4 1)
       = Ok row.
Proof.
  assert (ENABLE_TRANSACTION_HISTORY (env store2) = true) as Hon
    by (vm_compute; reflexivity).
  destruct (get_transactions_by_address store2 alice [] 10) as [[rows next]|e] eqn:E.
  - assert (length rows = 3%nat) as Hlen.
    { change rows with (fst (rows, next)).
      replace (rows, next)
        with (match get_transactions_by_address store2 alice [] 10 with
              | Ok p => p
              | Raise _ => ([], [])
              end) by (rewrite E; reflexivity).
      vm_compute. reflexivity. }
    assert (Z.of_nat (length rows) < 10) as Hfew by (rewrite Hlen; lia).
    destruct (get_transactions_by_address_complete store2 alice 10 rows next Hon E Hfew)
      as (Hall & _).
    destruct (Hall (be_digits 4 1 ++ [x01] ++ be_digits 4 1) [])
      as (row & Hin & Hrow).
    + discriminate.
    + vm_compute. reflexivity.
    + exists rows, next, row. split; [reflexivity|]. split; [exact Hin|exact Hrow].
  - exfalso.
    assert (is_ok (get_transactions_by_address store2 alice [] 10) = true) as Hok
      by (vm_compute; reflexivity).
    rewrite E in Hok. discriminate Hok.
Defined.

(** [block3] put on [store2]: [block1] and its count read as before. *)
Lemma put_minor_block_frame_witness :
  exists self',
    put_minor_block store2 block3 [] = Ok self'
    /\ get_minor_block_by_hash self' (hash_of block1) = Ok (Some block1)
    /\ get_total_tx_count self' (hash_of block1) = 2
    /\ contain_transaction_hash self' (tx_hash (transfer 6)) = true.
Proof.
  assert (put_minor_block store2 block3 []
          = Ok (unwrap (put_minor_block store2 block3 []))) as Hput
    by (apply unwrap_ok; vm_compute; reflexivity).
  destruct (put_minor_block_frame _ _ _ _ Hput) as (Hh & _ & Htx & _).
  destruct (Hh (hash_of block1)) as (Hb & Hc & _).
  { vm_compute. discriminate. }
  eexists. split; [exact Hput|]. split; [|split].
  - rewrite Hb. vm_compute. reflexivity.
  - rewrite Hc. vm_compute. reflexivity.
  - rewrite Htx. vm_compute. reflexivity.
Defined.

(** A transfer from [alice] to [bob] put in the history of [store2] at
    height 1, index 5: both get an entry. *)
Lemma put_transaction_history_index_entries_witness :
  exists self' k1 k2,
    put_transaction_history_index store2 (transfer 11) 1 5 = Ok self'
    /\ encode_address_transaction_key alice 1 5 false = Ok k1
    /\ encode_address_transaction_key bob 1 5 false = Ok k2
    /\ db self' !! k1 = Some []
    /\ db self' !! k2 = Some [].
Proof.
  assert (put_transaction_history_index store2 (transfer 11) 1 5
          = Ok (unwrap (put_transaction_history_index store2 (transfer 11) 1 5))) as Hput
    by (apply unwrap_ok; vm_compute; reflexivity).
  pose proof (put_transaction_history_index_entries _ _ _ _ _ Hput) as P.
  cbv zeta in P.
  match type of P with
  | (if ?c then _ else _) =>
      assert (c = true) as Hc by (vm_compute; reflexivity); rewrite Hc in P
  end.
  destruct P as (k1 & Hk1 & P).
  match type of P with
  | (if ?c then _ else _) =>
      assert (c = true) as Hc2 by (vm_compute; reflexivity); rewrite Hc2 in P
  end.
  destruct P as (k2 & Hk2 & P).
  eexists. exists k1, k2. split; [exact Hput|]. split; [exact Hk1|]. split; [exact Hk2|].
  split.
  - rewrite (P k1). apply decide_True. left. reflexivity.
  - rewrite (P k2). apply decide_True. right. reflexivity.
Defined.
